(** * Order-picking client: quantity arithmetic, reconciliation store,
      sync controller and line presentation

    Shallow embedding of the front end of the warehouse order-picking
    client.  Two revisions of the script are kept in the repository; the
    more complete one (the one with [completeOrder] and
    [moveLineToIncompletePosition]) is embedded at top level, and the
    functions of the older revision [static/app.js] that differ are embedded
    in [Module StaticApp].

    Numbers.  A JavaScript number is modelled by [Num]: [NaN], the two
    infinities, negative zero, and the finite values, which are taken to be
    exact decimal fractions [z / 10^e].  Arithmetic on finite values is exact;
    the binary rounding of IEEE doubles is not modelled.  [String(x)],
    [x.toFixed(d)] and [Number(s)] follow the ECMAScript algorithms on that
    decimal value. *)

From Stdlib Require Import ZArith Lia Ascii String Bool.
From stdpp Require Import base option list strings sorting.

Local Open Scope Z_scope.

(* ===================================================================== *)
(** ** JavaScript strings, as lists of characters *)
(* ===================================================================== *)

Definition str := list ascii.

Definition lit (s : string) : str := list_ascii_of_string s.

Definition isDigit (c : ascii) : bool :=
  let n := nat_of_ascii c in (48 <=? n)%nat && (n <=? 57)%nat.

Definition digitChar (d : Z) : ascii := ascii_of_nat (48 + Z.to_nat d).

Definition digitVal (c : ascii) : Z := Z.of_nat (nat_of_ascii c) - 48.

(** [s.includes(c)] for a one-character needle. *)
Definition includes (c : ascii) (s : str) : bool :=
  existsb (Ascii.eqb c) s.

(** The prefix of [s] before the first [c], and the rest after it ([None]
    when [c] does not occur): the first two cells of [s.split(c)]. *)
Fixpoint splitAt (c : ascii) (s : str) : str * option str :=
  match s with
  | [] => ([], None)
  | x :: r =>
      if Ascii.eqb x c then ([], Some r)
      else let '(a, b) := splitAt c r in (x :: a, b)
  end.

(** [s.split(c)[1]]: the cell between the first and the second [c]. *)
Definition splitSnd (c : ascii) (s : str) : option str :=
  match snd (splitAt c s) with
  | Some r => Some (fst (splitAt c r))
  | None => None
  end.

(** [s.split(/e/i)[1]] *)
Fixpoint splitAtE (s : str) : str * option str :=
  match s with
  | [] => ([], None)
  | x :: r =>
      if Ascii.eqb x "e" || Ascii.eqb x "E" then ([], Some r)
      else let '(a, b) := splitAtE r in (x :: a, b)
  end.

Definition splitSndE (s : str) : option str :=
  match snd (splitAtE s) with
  | Some r => Some (fst (splitAtE r))
  | None => None
  end.

(** [s.replace(/0+$/, '')] *)
Fixpoint dropWhile0 (s : str) : str :=
  match s with
  | [] => []
  | x :: r => if Ascii.eqb x "0" then dropWhile0 r else s
  end.

Definition trimTrailing0 (s : str) : str := rev (dropWhile0 (rev s)).

(** The maximal prefix of decimal digits, and what follows it. *)
Fixpoint spanDigits (s : str) : str * str :=
  match s with
  | [] => ([], [])
  | x :: r =>
      if isDigit x then let '(a, b) := spanDigits r in (x :: a, b)
      else ([], s)
  end.

(** The value of a run of decimal digits, most significant first. *)
Definition digitsVal (ds : str) : Z :=
  fold_left (fun a c => 10 * a + digitVal c) ds 0.

(** [n] decimal digits of [z], most significant first (the digits of
    [z mod 10^n], padded with zeros on the left). *)
Fixpoint digitsN (n : nat) (z : Z) : str :=
  match n with
  | O => []
  | S n' => digitChar ((z / 10 ^ Z.of_nat n') mod 10) :: digitsN n' z
  end.

Fixpoint ndigits_fuel (fuel : nat) (z : Z) : nat :=
  match fuel with
  | O => 1
  | S f => if z <? 10 then 1%nat else S (ndigits_fuel f (z / 10))
  end.

(** Number of decimal digits of [z >= 0] (1 for 0). *)
Definition ndigits (z : Z) : nat := ndigits_fuel (Z.to_nat (Z.log2 z)) z.

(** Decimal numeral of a non-negative integer, without leading zeros. *)
Definition natStr (z : Z) : str := digitsN (ndigits z) z.

(* ===================================================================== *)
(** ** JavaScript numbers *)
(* ===================================================================== *)

Inductive Num : Type :=
  | NaN
  | PInf
  | NInf
  | NZero                       (* -0 *)
  | Fin (z : Z) (e : nat).      (* z / 10^e ; +0 is [Fin 0 0] *)

Module Num.

(** Canonical form of [z / 10^e]: no trailing zero in the fraction. *)
Fixpoint norm (z : Z) (e : nat) : Z * nat :=
  match e with
  | O => (z, O)
  | S e' => if z mod 10 =? 0 then norm (z / 10) e' else (z, e)
  end.

Definition mk (z : Z) (e : nat) : Num :=
  let '(z', e') := norm z e in Fin z' e'.

Definition pow10 (n : nat) : Z := 10 ^ Z.of_nat n.

(** [z * 10^x] for an integer [x] of either sign. *)
Definition scale10 (z : Z) (x : Z) : Num :=
  if 0 <=? x then Fin (z * 10 ^ x) 0 else mk z (Z.to_nat (- x)).

Definition zero : Num := Fin 0 0.
Definition one : Num := Fin 1 0.
Definition ofZ (z : Z) : Num := Fin z 0.

(** [Math.pow(10, -n)] for [n >= 0] *)
Definition pow10neg (n : nat) : Num := mk 1 n.

Definition isFinite (x : Num) : bool :=
  match x with
  | NaN | PInf | NInf => false
  | NZero | Fin _ _ => true
  end.

(** ToBoolean on a number: [NaN], [+0] and [-0] are falsy. *)
Definition truthy (x : Num) : bool :=
  match x with
  | NaN | NZero => false
  | PInf | NInf => true
  | Fin z _ => negb (z =? 0)
  end.

(** Extended-real ordering used by the relational operators: [None] for
    [NaN], otherwise a comparison of the values ([-0] and [+0] compare
    equal). *)
Definition cmp (x y : Num) : option comparison :=
  match x, y with
  | NaN, _ | _, NaN => None
  | PInf, PInf => Some Eq
  | PInf, _ => Some Gt
  | _, PInf => Some Lt
  | NInf, NInf => Some Eq
  | NInf, _ => Some Lt
  | _, NInf => Some Gt
  | NZero, NZero => Some Eq
  | NZero, Fin z _ => Some (0 ?= z)
  | Fin z _, NZero => Some (z ?= 0)
  | Fin z1 e1, Fin z2 e2 => Some (z1 * pow10 e2 ?= z2 * pow10 e1)
  end.

Definition ltb (x y : Num) : bool :=
  match cmp x y with Some Lt => true | _ => false end.
Definition leb (x y : Num) : bool :=
  match cmp x y with Some Lt | Some Eq => true | _ => false end.
Definition geb (x y : Num) : bool := leb y x.

(** [x === y] on numbers *)
Definition strictEq (x y : Num) : bool :=
  match cmp x y with Some Eq => true | _ => false end.

Definition neg (x : Num) : Num :=
  match x with
  | NaN => NaN
  | PInf => NInf
  | NInf => PInf
  | NZero => zero
  | Fin z e => if z =? 0 then NZero else Fin (- z) e
  end.

Definition abs (x : Num) : Num :=
  match x with
  | NaN => NaN
  | PInf | NInf => PInf
  | NZero => zero
  | Fin z e => Fin (Z.abs z) e
  end.

(** [x - y] *)
Definition sub (x y : Num) : Num :=
  match x, y with
  | NaN, _ | _, NaN => NaN
  | PInf, PInf | NInf, NInf => NaN
  | PInf, _ => PInf
  | NInf, _ => NInf
  | _, PInf => NInf
  | _, NInf => PInf
  | NZero, NZero => zero
  | NZero, Fin z e => if z =? 0 then NZero else mk (- z) e
  | Fin z e, NZero => mk z e
  | Fin z1 e1, Fin z2 e2 =>
      mk (z1 * pow10 e2 - z2 * pow10 e1) (e1 + e2)
  end.

(** [x + y] *)
Definition add (x y : Num) : Num :=
  match x, y with
  | NaN, _ | _, NaN => NaN
  | PInf, NInf | NInf, PInf => NaN
  | PInf, _ | _, PInf => PInf
  | NInf, _ | _, NInf => NInf
  | NZero, NZero => NZero
  | NZero, Fin z e | Fin z e, NZero => mk z e
  | Fin z1 e1, Fin z2 e2 =>
      mk (z1 * pow10 e2 + z2 * pow10 e1) (e1 + e2)
  end.

(** [Math.min] / [Math.max]: [NaN] is contagious and [-0 < +0]. *)
Definition min (x y : Num) : Num :=
  match cmp x y with
  | None => NaN
  | Some Lt => x
  | Some Gt => y
  | Some Eq => match x, y with NZero, _ => x | _, NZero => y | _, _ => x end
  end.

Definition max (x y : Num) : Num :=
  match cmp x y with
  | None => NaN
  | Some Gt => x
  | Some Lt => y
  | Some Eq => match x, y with NZero, _ => y | _, NZero => x | _, _ => x end
  end.

(** [Math.round(x)]: [floor(x + 0.5)], with [-0] for [-0.5 <= x < 0]. *)
Definition round (x : Num) : Num :=
  match x with
  | Fin z e =>
      let r := (2 * z + pow10 e) / (2 * pow10 e) in
      if (r =? 0) && (z <? 0) then NZero else Fin r 0
  | _ => x
  end.

(** Integer nearest to [z * 10^f / 10^e], ties upwards ([z >= 0]). *)
Definition roundHalfUp (z : Z) (e f : nat) : Z :=
  (2 * z * pow10 f + pow10 e) / (2 * pow10 e).

(** The digits [s], their number [k] and the exponent [n] of
    Number::toString: the value is [s * 10^(n - k)] with [s] not ending
    in 0.  Returns [(s, n)]; [k] is [ndigits s]. *)
Fixpoint stripZeros (fuel : nat) (z : Z) (t : Z) : Z * Z :=
  match fuel with
  | O => (z, t)
  | S f => if (z mod 10 =? 0) && negb (z =? 0)
           then stripZeros f (z / 10) (t + 1) else (z, t)
  end.

Definition sciParts (z : Z) (e : nat) : Z * Z :=
  let '(z1, e1) := norm z e in
  let '(s, t) := stripZeros (Z.to_nat (Z.log2 z1)) z1 0 in
  (s, Z.of_nat (ndigits s) + t - Z.of_nat e1).

(** Number::toString for a positive finite value [z / 10^e]. *)
Definition posToString (z : Z) (e : nat) : str :=
  let '(s, n) := sciParts z e in
  if (-6 <? n) && (n <=? 21) then
    let '(z1, e1) := norm z e in
    match e1 with
    | O => natStr z1
    | _ => natStr (z1 / pow10 e1) ++ "."%char :: digitsN e1 z1
    end
  else
    let k := ndigits s in
    let x := n - 1 in
    let ex := "e"%char :: (if 0 <=? x then "+"%char else "-"%char)
                       :: natStr (Z.abs x) in
    match digitsN k s with
    | [] => ex
    | d :: ds => match ds with
                 | [] => d :: ex
                 | _ => d :: "."%char :: ds ++ ex
                 end
    end.

(** [String(x)] *)
Definition toString (x : Num) : str :=
  match x with
  | NaN => lit "NaN"
  | PInf => lit "Infinity"
  | NInf => lit "-Infinity"
  | NZero => lit "0"
  | Fin z e =>
      if z =? 0 then lit "0"
      else if z <? 0 then "-"%char :: posToString (- z) e
      else posToString z e
  end.

(** Number.prototype.toFixed for a non-negative finite value. *)
Definition posToFixed (z : Z) (e : nat) (f : nat) : str :=
  if pow10 21 * pow10 e <=? z then posToString z e
  else
    let n := roundHalfUp z e f in
    match f with
    | O => natStr n
    | _ => natStr (n / pow10 f) ++ "."%char :: digitsN f n
    end.

(** [x.toFixed(f)] *)
Definition toFixed (x : Num) (f : nat) : str :=
  match x with
  | NaN => lit "NaN"
  | PInf => lit "Infinity"
  | NInf => lit "-Infinity"
  | NZero => posToFixed 0 0 f
  | Fin z e =>
      if z <? 0 then "-"%char :: posToFixed (- z) e f
      else posToFixed z e f
  end.

(** StrUnsignedDecimalLiteral: digits, optional fraction, optional
    exponent; [None] when [s] is not such a literal. *)
Definition parseUnsigned (s : str) : option Num :=
  let '(ip, r1) := spanDigits s in
  let '(fp, r2) :=
    match r1 with
    | c :: r => if Ascii.eqb c "." then spanDigits r else ([], r1)
    | [] => ([], [])
    end in
  let dot := match r1 with c :: _ => Ascii.eqb c "." | [] => false end in
  if (length ip =? 0)%nat && (length fp =? 0)%nat then None
  else
    let m := digitsVal (ip ++ fp) in
    let fl := Z.of_nat (length fp) in
    match r2 with
    | [] => Some (scale10 m (- fl))
    | c :: r =>
        if Ascii.eqb c "e" || Ascii.eqb c "E" then
          let '(sg, r') :=
            match r with
            | c' :: r'' =>
                if Ascii.eqb c' "-" then (-1, r'')
                else if Ascii.eqb c' "+" then (1, r'') else (1, r)
            | [] => (1, r)
            end in
          let '(ed, r3) := spanDigits r' in
          match ed, r3 with
          | _ :: _, [] => Some (scale10 m (sg * digitsVal ed - fl))
          | _, _ => None
          end
        else None
    end.

(** [Number(s)] for a string: the empty string is 0, a signed decimal
    literal or [Infinity] is its value, anything else is [NaN].  (White
    space trimming and the [0x], [0o], [0b] literals are left out: no
    string built by this program has them.) *)
Definition ofString (s : str) : Num :=
  match s with
  | [] => zero
  | c :: r =>
      let '(sg, body) :=
        if Ascii.eqb c "-" then (true, r)
        else if Ascii.eqb c "+" then (false, r) else (false, s) in
      if bool_decide (body = lit "Infinity")
      then (if sg then NInf else PInf)
      else match parseUnsigned body with
           | Some v => if sg then neg v else v
           | None => NaN
           end
  end.

(** [parseInt(s, 10)]: optional sign and the longest run of digits;
    [None] stands for [NaN]. *)
Definition parseInt (s : str) : option Z :=
  let '(sg, body) :=
    match s with
    | c :: r => if Ascii.eqb c "-" then (-1, r)
                else if Ascii.eqb c "+" then (1, r) else (1, s)
    | [] => (1, s)
    end in
  match fst (spanDigits body) with
  | [] => None
  | ds => Some (sg * digitsVal ds)
  end.

End Num.

(* ===================================================================== *)
(** ** Data model *)
(* ===================================================================== *)

(** An identifier as it arrives in JSON: a number or a string.  [===] on
    identifiers is equality of these values. *)
Inductive Id : Type :=
  | IdNum (n : Z)
  | IdStr (s : string).

#[global] Instance Id_eq_dec : EqDecision Id.
Proof. solve_decision. Defined.

(** ToBoolean on an identifier: [0] and the empty string are falsy. *)
Definition idTruthy (i : Id) : bool :=
  match i with
  | IdNum n => negb (n =? 0)
  | IdStr s => negb (String.eqb s EmptyString)
  end.

(** A field that is [null] or missing is [None]. *)
Record Order : Type := mkOrder {
  order_id : Id;
  order_number : option string;
  total_qty : option Num;
  collected_qty : option Num;
  progress_pct : option Num;
  customer_name : option string;
  urgency_text : option string;
  ship_deadline : option string;
  order_comment : option string;
  order_column : option string
}.

Record Line : Type := mkLine {
  line_id : Id;
  qty_ordered : option Num;
  qty_collected : option Num;
  baseline_qty_ordered : option Num;
  is_added : bool;
  is_removed : bool;
  item_name : string;
  line_unit : option string;
  sort_index : option Z
}.

(** [Number(x || 0)] on a numeric field *)
Definition numOr0 (x : option Num) : Num :=
  match x with
  | Some n => if Num.truthy n then n else Num.zero
  | None => Num.zero
  end.

(** [x || 0] on an integer field *)
Definition intOr0 (x : option Z) : Z := default 0 x.

(* ===================================================================== *)
(** ** Formatting of quantities and of text put into HTML *)
(* ===================================================================== *)

(** [s.replaceAll(c, r)] for a one-character search string [c]: every
    occurrence is replaced, and the text put in is not searched again. *)
Definition replaceAll (c : ascii) (r : str) (s : str) : str :=
  flat_map (fun x => if Ascii.eqb x c then r else [x]) s.

(** The double quote character. *)
Definition quot : ascii := ascii_of_nat 34.

Definition escapeHtml (s : str) : str :=
  replaceAll "'" (lit "&#039;")
    (replaceAll quot (lit "&quot;")
       (replaceAll ">" (lit "&gt;")
          (replaceAll "<" (lit "&lt;")
             (replaceAll "&" (lit "&amp;") s)))).

(** [s.replace(/\.$/, '')] *)
Definition dropFinalDot (s : str) : str :=
  match rev s with
  | c :: r => if Ascii.eqb c "." then rev r else s
  | [] => s
  end.

(** [fmtQty(v)], on [n = Number(v)]. *)
Definition fmtQty (n : Num) : str :=
  if negb (Num.isFinite n) then lit "0"
  (* If it's essentially an integer *)
  else if Num.ltb (Num.abs (Num.sub n (Num.round n))) (Num.pow10neg 9)
  then Num.toString (Num.round n)
  (* Otherwise show up to 3 decimals, trim trailing zeros *)
  else dropFinalDot (trimTrailing0 (Num.toFixed n 3)).

(** [Math.max(0, Math.min(100, o.progress_pct || 0))]: the width of the
    progress bar, in percent. *)
Definition fillWidth (order : Order) : Num :=
  Num.max Num.zero (Num.min (Num.ofZ 100) (numOr0 (progress_pct order))).

(* ===================================================================== *)
(** ** Quantity arithmetic and classifiers *)
(* ===================================================================== *)

Definition EPS : Num := Num.pow10neg 9.

Definition stepDecimals (step : Num) : nat :=
  let s := Num.toString step in
  if includes "e" s || includes "E" s then
    match splitSndE s with
    | Some t =>
        match Num.parseInt t with
        | Some exp => if exp <? 0 then Z.to_nat (- exp) else O
        | None => O
        end
    | None => O
    end
  else if negb (includes "." s) then O
  else match splitSnd "." s with
       | Some t => length t
       | None => O
       end.

(** The loop [while (idx < frac.length && frac[idx] === '0') idx += 1],
    started at [idx = 0]. *)
Fixpoint countLeading0 (frac : str) : nat :=
  match frac with
  | c :: r => if Ascii.eqb c "0" then S (countLeading0 r) else O
  | [] => O
  end.

Definition inferStep (qtyOrdered : Num) : Num :=
  let q := qtyOrdered in
  if negb (Num.isFinite q) || Num.leb q Num.zero then Num.one
  else if Num.ltb (Num.abs (Num.sub q (Num.round q))) (Num.pow10neg 9)
  then Num.one
  else
    let s := Num.toString q in
    let s := if includes "e" s || includes "E" s
             then Num.toFixed q 10 else s in
    if negb (includes "." s) then Num.one
    else match splitSnd "." s with
         | None => Num.one
         | Some t =>
             let frac := trimTrailing0 t in
             match frac with
             | [] => Num.one
             | _ =>
                 let idx := countLeading0 frac in
                 if (length frac <=? idx)%nat then Num.one
                 else Num.pow10neg (idx + 1)
             end
         end.

Definition clampAndRound (value max step : Num) : Num :=
  let v := Num.max Num.zero (Num.min value max) in
  let dec := stepDecimals step in
  let rounded := Num.ofString (Num.toFixed v dec) in
  if Num.strictEq rounded Num.zero then Num.zero else rounded.

Definition isLineDone (line : Line) : bool :=
  let ordered := numOr0 (qty_ordered line) in
  let collected := numOr0 (qty_collected line) in
  if Num.leb ordered EPS then true
  else Num.geb collected (Num.sub ordered (Num.pow10neg 6)).



(** The older revision, [static/app.js], where it differs. *)
Module StaticApp.

Definition inferStep (qtyOrdered : Num) : Num :=
  let q := qtyOrdered in
  if negb (Num.isFinite q) || Num.leb q Num.zero then Num.one
  else if Num.ltb (Num.abs (Num.sub q (Num.round q))) (Num.pow10neg 9)
  then Num.one
  else
    let s := Num.toString q in
    if includes "e" s || includes "E" s then
      match splitSndE s with
      | Some t =>
          match Num.parseInt t with
          | Some exp =>
              if exp <? 0 then Num.pow10neg (Z.to_nat (- exp)) else Num.one
          | None => Num.one
          end
      | None => Num.one
      end
    else if negb (includes "." s) then Num.one
    else match splitSnd "." s with
         | Some t => Num.pow10neg (length t)
         | None => Num.one
         end.

End StaticApp.

(* ===================================================================== *)
(** ** Session state, page and environment *)
(* ===================================================================== *)

Definition Config := list (string * string).

(** One entry of the board cache, [{order, lines}] with a preview of the
    lines; the code guards against a missing [order]. *)
Record Wrapper : Type := mkWrapper {
  w_order : option Order;
  w_lines : list Line
}.

(** The open order, [{order, lines}] with all its lines. *)
Record Detail : Type := mkDetail {
  d_order : Order;
  d_lines : list Line
}.

(** The global [state] object. *)
Record State : Type := mkState {
  config : option Config;
  orders : list Wrapper;
  orderDetail : option Detail;
  activeOrderId : option Id;
  pollTimer : option positive
}.

Inductive Group : Type := Incomplete | Complete | Removed.

#[global] Instance Group_eq_dec : EqDecision Group.
Proof. solve_decision. Defined.

(** A [.line] element: its [dataset] and the line it displays. *)
Record LineEl : Type := mkLineEl {
  el_lineId : str;
  el_sortIndex : Z;
  el_done : bool;
  el_group : Group;
  el_line : Line
}.

(** A [.card] element of the board. *)
Record Card : Type := mkCard {
  card_orderId : str;
  card_order : Order;
  card_lines : list Line
}.

Inductive El : Type :=
  | LoginView | AppView | OrderView | CompleteOverlay | LoginError.

(** The part of the document the script reads back or that the claims
    mention: which views carry the class [hidden], the cards of the board,
    the order shown in the detail header and the children of
    [orderLinesEl]. *)
Record Page : Type := mkPage {
  loginView_hidden : bool;
  appView_hidden : bool;
  orderView_hidden : bool;
  completeOverlay_hidden : bool;
  loginError_hidden : bool;
  board : list Card;
  header : option Order;
  orderLines : list LineEl
}.

(** The script's world: [state], the page, the interval timers that are
    live ([setInterval] hands out fresh positive handles), and the number of
    auto-close callbacks registered with [setTimeout] and not yet run. *)
Record World : Type := mkWorld {
  state : State;
  page : Page;
  intervals : list positive;
  nextTimer : positive;
  timeouts : nat
}.

Definition withState (f : State -> State) (w : World) : World :=
  mkWorld (f (state w)) (page w) (intervals w) (nextTimer w) (timeouts w).

Definition withPage (f : Page -> Page) (w : World) : World :=
  mkWorld (state w) (f (page w)) (intervals w) (nextTimer w) (timeouts w).

Definition set_config (c : option Config) (st : State) : State :=
  mkState c (orders st) (orderDetail st) (activeOrderId st) (pollTimer st).
Definition set_orders (l : list Wrapper) (st : State) : State :=
  mkState (config st) l (orderDetail st) (activeOrderId st) (pollTimer st).
Definition set_orderDetail (x : option Detail) (st : State) : State :=
  mkState (config st) (orders st) x (activeOrderId st) (pollTimer st).
Definition set_activeOrderId (x : option Id) (st : State) : State :=
  mkState (config st) (orders st) (orderDetail st) x (pollTimer st).
Definition set_pollTimer (x : option positive) (st : State) : State :=
  mkState (config st) (orders st) (orderDetail st) (activeOrderId st) x.

Definition set_hidden (e : El) (b : bool) (p : Page) : Page :=
  match e with
  | LoginView =>
      mkPage b (appView_hidden p) (orderView_hidden p)
        (completeOverlay_hidden p) (loginError_hidden p)
        (board p) (header p) (orderLines p)
  | AppView =>
      mkPage (loginView_hidden p) b (orderView_hidden p)
        (completeOverlay_hidden p) (loginError_hidden p)
        (board p) (header p) (orderLines p)
  | OrderView =>
      mkPage (loginView_hidden p) (appView_hidden p) b
        (completeOverlay_hidden p) (loginError_hidden p)
        (board p) (header p) (orderLines p)
  | CompleteOverlay =>
      mkPage (loginView_hidden p) (appView_hidden p) (orderView_hidden p)
        b (loginError_hidden p) (board p) (header p) (orderLines p)
  | LoginError =>
      mkPage (loginView_hidden p) (appView_hidden p) (orderView_hidden p)
        (completeOverlay_hidden p) b (board p) (header p) (orderLines p)
  end.

Definition set_board (l : list Card) (p : Page) : Page :=
  mkPage (loginView_hidden p) (appView_hidden p) (orderView_hidden p)
    (completeOverlay_hidden p) (loginError_hidden p) l (header p)
    (orderLines p).
Definition set_header (o : option Order) (p : Page) : Page :=
  mkPage (loginView_hidden p) (appView_hidden p) (orderView_hidden p)
    (completeOverlay_hidden p) (loginError_hidden p) (board p) o
    (orderLines p).
Definition set_orderLines (l : list LineEl) (p : Page) : Page :=
  mkPage (loginView_hidden p) (appView_hidden p) (orderView_hidden p)
    (completeOverlay_hidden p) (loginError_hidden p) (board p) (header p) l.

(** [String(id)], as stored in a [data-] attribute. *)
Definition idStr (i : Id) : str :=
  match i with
  | IdNum n => if n <? 0 then "-"%char :: natStr (- n) else natStr n
  | IdStr s => lit s
  end.

(** [a.findIndex(p)]; [None] stands for -1. *)
Fixpoint findIndexFrom {A} (p : nat -> A -> bool) (l : list A) (j : nat)
  : option nat :=
  match l with
  | [] => None
  | x :: r => if p j x then Some j else findIndexFrom p r (S j)
  end.

Definition findIndex {A} (p : A -> bool) (l : list A) : option nat :=
  findIndexFrom (fun _ => p) l 0.

(* ===================================================================== *)
(** ** Requests, responses and asynchronous functions *)
(* ===================================================================== *)

Inductive Request : Type :=
  | ReqConfig                                      (* GET /api/config *)
  | ReqLogin (password : string)                   (* POST /api/login *)
  | ReqSyncNow                                     (* POST /api/sync-now *)
  | ReqOrders                                      (* GET /api/orders *)
  | ReqOrder (orderId : Id)                        (* GET /api/orders/ID *)
  | ReqPatchLine (orderId : option Id) (lineId : Id) (qty : Num)
  | ReqComplete (orderId : Id)               (* POST /api/orders/ID/complete *)
  | ReqOpen (orderId : Id).                  (* POST /api/orders/ID/open *)

(** [{order, line, order_completed_now}] *)
Record PatchData : Type := mkPatchData {
  pd_order : Order;
  pd_line : Line;
  pd_order_completed_now : bool
}.

(** The body of a response, by the shape the backend contract gives it. *)
Inductive Body : Type :=
  | BText (txt : string)
  | BConfig (c : Config)
  | BOrders (l : list Wrapper)
  | BDetail (dt : Detail)
  | BPatch (pd : PatchData)
  | BOrder (o : option Order)        (* [{order}], [order] possibly missing *)
  | BAck.

Record Response : Type := mkResponse {
  status : Z;
  body : Body
}.

(** [res.ok] *)
Definition ok (res : Response) : bool :=
  (200 <=? status res) && (status res <=? 299).

Inductive Err : Type :=
  | Unauthorized                (* [new Error('Unauthorized')] *)
  | Failed (txt : string)       (* [new Error(await res.text())] *)
  | BadBody                     (* [res.json()] rejected *)
  | TypeError.

Inductive Result (A : Type) : Type :=
  | Ok (a : A)
  | Throw (e : Err).
Arguments Ok {A} a.
Arguments Throw {A} e.

(** A run of an asynchronous function from a given world: it has settled,
    or it is suspended at an [await] on a request and resumes, with the
    response, from the world as it is at that later time. *)
Inductive Run (A : Type) : Type :=
  | Finished (r : Result A) (w : World)
  | Waiting (req : Request) (w : World) (k : Response -> World -> Run A).
Arguments Finished {A} r w.
Arguments Waiting {A} req w k.

Definition P (A : Type) : Type := World -> Run A.

Fixpoint bindRun {A B} (r : Run A) (f : A -> P B) : Run B :=
  match r with
  | Finished (Ok a) w => f a w
  | Finished (Throw e) w => Finished (Throw e) w
  | Waiting req w k => Waiting req w (fun res w' => bindRun (k res w') f)
  end.

Fixpoint catchRun {A} (r : Run A) (h : Err -> P A) : Run A :=
  match r with
  | Finished (Ok a) w => Finished (Ok a) w
  | Finished (Throw e) w => h e w
  | Waiting req w k => Waiting req w (fun res w' => catchRun (k res w') h)
  end.

#[global] Instance P_ret : MRet P := fun A a w => Finished (Ok a) w.
#[global] Instance P_bind : MBind P := fun A B f p w => bindRun (p w) f.

Definition throw {A} (e : Err) : P A := fun w => Finished (Throw e) w.

(** [try { p } catch (e) { h e }] *)
Definition tryCatch {A} (p : P A) (h : Err -> P A) : P A :=
  fun w => catchRun (p w) h.

(** [try { p } catch (_) { }] *)
Definition ignoreErrors (p : P unit) : P unit :=
  tryCatch p (fun _ => mret tt).

Definition getState : P State := fun w => Finished (Ok (state w)) w.
Definition modifyState (f : State -> State) : P unit :=
  fun w => Finished (Ok tt) (withState f w).
Definition getPage : P Page := fun w => Finished (Ok (page w)) w.
Definition modifyPage (f : Page -> Page) : P unit :=
  fun w => Finished (Ok tt) (withPage f w).

(** [await fetch(...)] *)
Definition fetch (req : Request) : P Response :=
  fun w => Waiting req w (fun res w' => Finished (Ok res) w').

(** [await res.json()], read at the shape the caller goes on to use. *)
Definition json_config (res : Response) : P Config :=
  match body res with BConfig c => mret c | _ => throw BadBody end.
Definition json_orders (res : Response) : P (list Wrapper) :=
  match body res with BOrders l => mret l | _ => throw BadBody end.
Definition json_detail (res : Response) : P Detail :=
  match body res with BDetail x => mret x | _ => throw BadBody end.
Definition json_patch (res : Response) : P PatchData :=
  match body res with BPatch x => mret x | _ => throw BadBody end.
Definition json_order (res : Response) : P (option Order) :=
  match body res with BOrder x => mret x | _ => throw BadBody end.
Definition json_any (res : Response) : P unit :=
  match body res with BText _ => throw BadBody | _ => mret tt end.

(** [await res.text()] *)
Definition text (res : Response) : string :=
  match body res with BText t => t | _ => EmptyString end.

(* ===================================================================== *)
(** ** helpers, polling, lifecycle *)
(* ===================================================================== *)

Definition show (e : El) : P unit := modifyPage (set_hidden e false).
Definition hide (e : El) : P unit := modifyPage (set_hidden e true).

Definition clearInterval (t : positive) : P unit :=
  fun w => Finished (Ok tt)
    (mkWorld (state w) (page w)
       (filter (fun x => x ≠ t) (intervals w)) (nextTimer w) (timeouts w)).

(** [setInterval(tick, POLL_INTERVAL_MS)]; the callback is [pollTick]. *)
Definition setInterval : P positive :=
  fun w => Finished (Ok (nextTimer w))
    (mkWorld (state w) (page w)
       (nextTimer w :: intervals w) (Pos.succ (nextTimer w)) (timeouts w)).

(** [setTimeout(autoClose, 700)] *)
Definition setTimeout : P unit :=
  fun w => Finished (Ok tt)
    (mkWorld (state w) (page w) (intervals w) (nextTimer w)
       (S (timeouts w))).

Definition stopPolling : P unit :=
  st ← getState;
  match pollTimer st with
  | Some t => clearInterval t;; modifyState (set_pollTimer None)
  | None => mret tt
  end.

Definition startPolling : P unit :=
  stopPolling;;
  t ← setInterval;
  modifyState (set_pollTimer (Some t)).

Definition logout : P unit :=
  modifyState (set_config None);;
  modifyState (set_orders []);;
  modifyState (set_orderDetail None);;
  modifyState (set_activeOrderId None);;
  stopPolling;;
  hide AppView;;
  hide OrderView;;
  show LoginView;;
  hide LoginError.

(* ===================================================================== *)
(** ** API *)
(* ===================================================================== *)

Definition apiFetch (req : Request) : P Response :=
  res ← fetch req;
  if status res =? 401 then
    (* Token invalid/expired *)
    logout;; throw Unauthorized
  else mret res.

Definition loadConfig : P unit :=
  res ← apiFetch ReqConfig;
  c ← json_config res;
  modifyState (set_config (Some c)).

Definition login (password : string) : P unit :=
  res ← fetch (ReqLogin password);
  if negb (ok res) then throw (Failed (text res))
  else json_any res.

Definition syncNow : P unit :=
  res ← apiFetch ReqSyncNow;
  if negb (ok res) then throw (Failed (text res))
  else json_any res.

(* ===================================================================== *)
(** ** board *)
(* ===================================================================== *)

Inductive Column : Type := NotStarted | Picking | Picked.

#[global] Instance Column_eq_dec : EqDecision Column.
Proof. solve_decision. Defined.

Definition getOrderColumn (order : Order) : Column :=
  match order_column order with
  | Some c =>
      if String.eqb c "picked" then Picked
      else if String.eqb c "picking" then Picking
      else NotStarted
  | None => NotStarted
  end.

Definition renderOrderCard (o : Order) (w : Wrapper) : Card :=
  mkCard (idStr (order_id o)) o (take 5 (w_lines w)).

(** The cards of the wrappers up to the first one without an [order], each
    with its column, and whether such a wrapper was met (reading
    [w.order.column] then throws). *)
Fixpoint boardCards (ws : list Wrapper) : list (Column * Card) * bool :=
  match ws with
  | [] => ([], false)
  | w :: r =>
      match w_order w with
      | None => ([], true)
      | Some o =>
          let '(cs, bad) := boardCards r in
          ((getOrderColumn o, renderOrderCard o w) :: cs, bad)
      end
  end.

Definition inColumn (c : Column) (l : list (Column * Card)) : list Card :=
  snd <$> filter (fun x => fst x = c) l.

(** The cards are listed in document order: column by column. *)
Definition renderBoard : P unit :=
  st ← getState;
  let '(cs, bad) := boardCards (orders st) in
  modifyPage (set_board
    (inColumn NotStarted cs ++ inColumn Picking cs ++ inColumn Picked cs));;
  if bad then throw TypeError else mret tt.

Definition updateOrderCardOnBoard (order : Order) : P unit :=
  pg ← getPage;
  match findIndex (fun c => bool_decide (card_orderId c = idStr (order_id order)))
          (board pg) with
  | None => mret tt
  | Some i =>
      modifyPage (set_board
        (alter (fun c => mkCard (card_orderId c) order (card_lines c)) i
           (board pg)))
  end.

Definition loadOrders : P unit :=
  res ← apiFetch ReqOrders;
  if negb (ok res) then throw (Failed (text res))
  else
    l ← json_orders res;
    modifyState (set_orders l);;
    renderBoard.

(* ===================================================================== *)
(** ** order view: the line elements *)
(* ===================================================================== *)

Definition showComplete : P unit := show CompleteOverlay.
Definition hideComplete : P unit := hide CompleteOverlay.

Definition updateOrderDetailHeader (order : Order) : P unit :=
  modifyPage (set_header (Some order)).

Definition groupOf (removed done : bool) : Group :=
  if removed then Removed else if done then Complete else Incomplete.

Definition renderLine (line : Line) : LineEl :=
  let done := isLineDone line in
  mkLineEl (idStr (line_id line)) (intOr0 (sort_index line)) done
    (groupOf (is_removed line) done) line.

(** [a.sort(bySort)] with [bySort = (a, b) => a.sort_index - b.sort_index]:
    a stable sort on the key. *)
Fixpoint insertBySort (x : Line) (l : list Line) : list Line :=
  match l with
  | [] => [x]
  | y :: r =>
      if intOr0 (sort_index x) <=? intOr0 (sort_index y) then x :: l
      else y :: insertBySort x r
  end.

Definition sortBySort (l : list Line) : list Line :=
  foldr insertBySort [] l.

Definition renderOrderDetail : P unit :=
  st ← getState;
  match orderDetail st with
  | None => mret tt
  | Some detail =>
      let order := d_order detail in
      let lines := d_lines detail in
      updateOrderDetailHeader order;;
      let removed := filter (fun l => is_removed l = true) lines in
      let complete :=
        filter (fun l => is_removed l = false ∧ isLineDone l = true) lines in
      let incomplete :=
        filter (fun l => is_removed l = false ∧ isLineDone l = false) lines in
      modifyPage (set_orderLines
        (renderLine <$>
           (sortBySort incomplete ++ sortBySort complete
              ++ sortBySort removed)));;
      hideComplete
  end.

(** [parent.insertBefore(node, ref)] for two children given by position:
    the node leaves its place and is put just before [ref]; nothing moves
    when [ref] is the node itself. *)
Definition insertBefore {A} (i j : nat) (l : list A) : list A :=
  match l !! i with
  | None => l
  | Some x =>
      if decide (i = j) then l
      else
        let rest := delete i l in
        let j' := if decide (i < j)%nat then pred j else j in
        take j' rest ++ x :: drop j' rest
  end.

(** [parent.appendChild(node)] for a child given by position. *)
Definition appendChild {A} (i : nat) (l : list A) : list A :=
  match l !! i with
  | None => l
  | Some x => delete i l ++ [x]
  end.

(** [orderLinesEl.querySelector('.line[data-group="g"]')] *)
Definition firstOfGroup (g : Group) (l : list LineEl) : option nat :=
  findIndex (fun el => bool_decide (el_group el = g)) l.

Definition moveLineToCompleteEnd (i : nat) (l : list LineEl) : list LineEl :=
  match firstOfGroup Removed l with
  | Some j => insertBefore i j l
  | None => appendChild i l
  end.

Definition moveLineToIncompletePosition (i : nat) (l : list LineEl)
  : list LineEl :=
  match l !! i with
  | None => l
  | Some lineEl =>
      let sortIndex := el_sortIndex lineEl in
      match findIndexFrom
              (fun j el => bool_decide (j ≠ i)
                           && bool_decide (el_group el = Incomplete)
                           && (sortIndex <? el_sortIndex el)) l 0 with
      | Some j => insertBefore i j l
      | None =>
          match firstOfGroup Complete l with
          | Some j => insertBefore i j l
          | None =>
              match firstOfGroup Removed l with
              | Some j => insertBefore i j l
              | None => appendChild i l
              end
          end
      end
  end.

Definition moveLineToGroupEnd (i : nat) (group : Group) (l : list LineEl)
  : list LineEl :=
  match group with
  | Removed => appendChild i l
  | Complete => moveLineToCompleteEnd i l
  | Incomplete => moveLineToIncompletePosition i l
  end.

(** [updateLineUI] on the children of [orderLinesEl]. *)
Definition updateLineEls (line : Line) (l : list LineEl) : list LineEl :=
  match findIndex (fun el => bool_decide (el_lineId el = idStr (line_id line)))
          l with
  | None => l
  | Some i =>
      match l !! i with
      | None => l
      | Some el =>
          let wasDone := el_done el in
          let nowDone := isLineDone line in
          let prevGroup := el_group el in
          let nextGroup := groupOf (is_removed line) nowDone in
          let l1 :=
            <[i := mkLineEl (el_lineId el) (intOr0 (sort_index line)) nowDone
                     nextGroup line]> l in
          if negb wasDone && nowDone then moveLineToCompleteEnd i l1
          else if wasDone && negb nowDone
               then moveLineToIncompletePosition i l1
          else if bool_decide (prevGroup ≠ nextGroup)
               then moveLineToGroupEnd i nextGroup l1
          else l1
      end
  end.

Definition updateLineUI (line : Line) : P unit :=
  modifyPage (fun pg => set_orderLines (updateLineEls line (orderLines pg)) pg).

Definition getLineQtyFromState (st : State) (lineId : Id) : Num :=
  match orderDetail st with
  | None => Num.zero
  | Some dt =>
      match find (fun x => bool_decide (line_id x = lineId)) (d_lines dt) with
      | Some l => numOr0 (qty_collected l)
      | None => Num.zero
      end
  end.

(* ===================================================================== *)
(** ** reconciliation of the store with a response *)
(* ===================================================================== *)

Definition loadOrderDetail (orderId : Id) : P unit :=
  res ← apiFetch (ReqOrder orderId);
  if negb (ok res) then throw (Failed (text res))
  else
    dt ← json_detail res;
    modifyState (set_orderDetail (Some dt));;
    modifyState (set_activeOrderId (Some orderId));;
    renderOrderDetail.

(** [state.orders.findIndex((w) => w.order && w.order.id === id)] *)
Definition findOrder (id : Id) (ws : list Wrapper) : option nat :=
  findIndex (fun w => match w_order w with
                      | Some o => bool_decide (order_id o = id)
                      | None => false
                      end) ws.

(** [lines.findIndex((l) => l.id === id)] *)
Definition findLine (id : Id) (ls : list Line) : option nat :=
  findIndex (fun l => bool_decide (line_id l = id)) ls.

(** [lines[idx] = line] when [idx >= 0] *)
Definition setLine (line : Line) (ls : list Line) : list Line :=
  match findLine (line_id line) ls with
  | Some idx => <[idx := line]> ls
  | None => ls
  end.

(** The block "Update local state" of [patchLine]. *)
Definition patchDetail (data : PatchData) (st : State) : State :=
  match orderDetail st with
  | Some dt =>
      set_orderDetail
        (Some (mkDetail (pd_order data) (setLine (pd_line data) (d_lines dt))))
        st
  | None => st
  end.

(** The block "Also update the board cache" of [patchLine]. *)
Definition patchBoard (data : PatchData) (st : State) : State :=
  match findOrder (order_id (pd_order data)) (orders st) with
  | Some wIdx =>
      set_orders
        (alter (fun w => mkWrapper (Some (pd_order data))
                           (setLine (pd_line data) (w_lines w)))
           wIdx (orders st)) st
  | None => st
  end.

(** [state.orders[wIdx].order = order] when [wIdx >= 0] *)
Definition setBoardOrder (order : Order) (st : State) : State :=
  match findOrder (order_id order) (orders st) with
  | Some wIdx =>
      set_orders
        (alter (fun w => mkWrapper (Some order) (w_lines w)) wIdx (orders st))
        st
  | None => st
  end.

Definition closeOrderView : P unit :=
  modifyState (set_activeOrderId None);;
  modifyState (set_orderDetail None);;
  hide OrderView;;
  show AppView;;
  hideComplete;;
  startPolling.

(** The callback given to [setTimeout] by [patchLine]. *)
Definition autoClose : P unit :=
  ignoreErrors (closeOrderView;; loadOrders).

Definition patchLine (orderId : option Id) (lineId : Id) (qty : Num)
  : P PatchData :=
  res ← apiFetch (ReqPatchLine orderId lineId qty);
  if negb (ok res) then throw (Failed (text res))
  else
    data ← json_patch res;
    (* Update local state *)
    modifyState (patchDetail data);;
    (* Also update the board cache for progress previews *)
    modifyState (patchBoard data);;
    (* Update UI incrementally *)
    updateOrderDetailHeader (pd_order data);;
    updateOrderCardOnBoard (pd_order data);;
    updateLineUI (pd_line data);;
    (if pd_order_completed_now data
     then showComplete;; setTimeout
     else mret tt);;
    mret data.

Definition completeOrder : P unit :=
  st ← getState;
  match orderDetail st with
  | None => mret tt
  | Some dt0 =>
      let orderId := order_id (d_order dt0) in
      ignoreErrors (
        res ← apiFetch (ReqComplete orderId);
        if negb (ok res) then throw (Failed (text res))
        else
          data ← json_order res;
          match data with
          | None => mret tt
          | Some order =>
              st' ← getState;
              match orderDetail st' with
              | None => throw TypeError
              | Some dt =>
                  modifyState
                    (set_orderDetail (Some (mkDetail order (d_lines dt))));;
                  updateOrderDetailHeader order;;
                  modifyState (setBoardOrder order);;
                  renderBoard
              end
          end)
  end.

(* ===================================================================== *)
(** ** polling, order view, lifecycle *)
(* ===================================================================== *)

(** [!state.activeOrderId] *)
Definition noActiveOrder (st : State) : bool :=
  match activeOrderId st with
  | Some id => negb (idTruthy id)
  | None => true
  end.

(** The callback given to [setInterval] by [startPolling]. *)
Definition pollTick : P unit :=
  st ← getState;
  if noActiveOrder st then
    ignoreErrors loadOrders  (* ignore periodic errors *)
  else mret tt.

Definition openOrder (orderId : Id) : P unit :=
  stopPolling;;
  (* Mark as "picking" *)
  ignoreErrors (
    res ← apiFetch (ReqOpen orderId);
    if ok res then
      data ← json_order res;
      match data with
      | Some order =>
          st ← getState;
          match findOrder (order_id order) (orders st) with
          | Some _ => modifyState (setBoardOrder order);; renderBoard
          | None => mret tt
          end
      | None => mret tt
      end
    else mret tt);;
  loadOrderDetail orderId;;
  hide AppView;;
  show OrderView.

(** [bootApp]; its last statement, [syncNow().then(loadOrders).catch(...)],
    is not awaited and is outside the reach of the surrounding [catch]. *)
Definition bootApp : P unit :=
  started ← tryCatch
    (loadConfig;;
     show AppView;;
     hide LoginView;;
     loadOrders;;
     startPolling;;
     mret true)
    (fun _ =>
       (* If config failed (auth invalid), force logout *)
       logout;; mret false);
  if started : bool then ignoreErrors (syncNow;; loadOrders) else mret tt.

(* ===================================================================== *)
(** ** event bindings and the event loop *)
(* ===================================================================== *)

(** [Number(x)] on a numeric field; a missing field is [undefined]. *)
Definition numOf (x : option Num) : Num := default NaN x.

Definition onLoginClick (pwd : string) : P unit :=
  tryCatch (login pwd;; hide LoginError;; bootApp)
           (fun _ => show LoginError).

Definition onRefreshClick : P unit := ignoreErrors (syncNow;; loadOrders).

(** The three buttons of a line; [line] is the line the element was
    rendered from, and [step] was inferred from it then. *)
Definition onFillClick (line : Line) : P unit :=
  ignoreErrors (
    st ← getState;
    let ordered := numOr0 (qty_ordered line) in
    patchLine (activeOrderId st) (line_id line) ordered;; mret tt).

Definition onMinusClick (line : Line) : P unit :=
  let step := inferStep (numOf (qty_ordered line)) in
  ignoreErrors (
    st ← getState;
    let cur := getLineQtyFromState st (line_id line) in
    let next := clampAndRound (Num.sub cur step) (numOf (qty_ordered line))
                  step in
    patchLine (activeOrderId st) (line_id line) next;; mret tt).

Definition onPlusClick (line : Line) : P unit :=
  let step := inferStep (numOf (qty_ordered line)) in
  ignoreErrors (
    st ← getState;
    let cur := getLineQtyFromState st (line_id line) in
    let next := clampAndRound (Num.add cur step) (numOf (qty_ordered line))
                  step in
    patchLine (activeOrderId st) (line_id line) next;; mret tt).

Inductive Event : Type :=
  | EvLoginClick (pwd : string)
  | EvLogoutClick
  | EvRefreshClick
  | EvCardClick (orderId : Id)
  | EvBackClick
  | EvCompleteClick
  | EvFillClick (line : Line)
  | EvMinusClick (line : Line)
  | EvPlusClick (line : Line)
  | EvTick (t : positive)               (* an interval timer fires *)
  | EvTimeout                           (* a registered timeout fires *)
  | EvResponse (i : nat) (res : Response).  (* an awaited request settles *)

(** The running system: the world, the asynchronous functions suspended at
    an [await], and the requests sent so far. *)
Record Sys : Type := mkSys {
  world : World;
  pending : list (Response -> World -> Run unit);
  sent : list Request
}.

Definition settle (r : Run unit) (tasks : list (Response -> World -> Run unit))
    (reqs : list Request) : Sys :=
  match r with
  | Finished _ w => mkSys w tasks reqs
  | Waiting req w k => mkSys w (tasks ++ [k]) (reqs ++ [req])
  end.

(** Run a handler until it settles or reaches its first [await]. *)
Definition start (h : P unit) (s : Sys) : Sys :=
  settle (h (world s)) (pending s) (sent s).

Definition exec (ev : Event) (s : Sys) : Sys :=
  match ev with
  | EvLoginClick pwd => start (onLoginClick pwd) s
  | EvLogoutClick => start logout s
  | EvRefreshClick => start onRefreshClick s
  | EvCardClick orderId => start (openOrder orderId) s
  | EvBackClick => start closeOrderView s
  | EvCompleteClick => start completeOrder s
  | EvFillClick line => start (onFillClick line) s
  | EvMinusClick line => start (onMinusClick line) s
  | EvPlusClick line => start (onPlusClick line) s
  | EvTick t =>
      if bool_decide (t ∈ intervals (world s)) then start pollTick s else s
  | EvTimeout =>
      match timeouts (world s) with
      | O => s
      | S n =>
          let w := world s in
          settle (autoClose (mkWorld (state w) (page w) (intervals w)
                               (nextTimer w) n))
                 (pending s) (sent s)
      end
  | EvResponse i res =>
      match pending s !! i with
      | None => s
      | Some k => settle (k res (world s)) (delete i (pending s)) (sent s)
      end
  end.

(** The state literal at the top of the script, and the page before the
    script has run. *)
Definition state0 : State := mkState None [] None None None.
Definition page0 : Page := mkPage false true true true true [] None [].
Definition world0 : World := mkWorld state0 page0 [] 1%positive 0.

(** The script ends with a call of [logout()]: start in login state. *)
Definition init : Sys := start logout (mkSys world0 [] []).

Inductive reachable : Sys -> Prop :=
  | reach_init : reachable init
  | reach_step s ev : reachable s -> reachable (exec ev s).

(** The system after a sequence of events. *)
Definition runEvents (evs : list Event) : Sys :=
  foldl (fun s ev => exec ev s) init evs.


(* ===================================================================== *)
(** ** Vocabulary of the statements *)
(* ===================================================================== *)

Section Vocabulary.

Import Num.

(** [z / 10^e] is in canonical form. *)
Definition canon (z : Z) (e : nat) : Prop := e = O \/ z mod 10 <> 0.





(** [q] is within 1e-9 of an integer, as [inferStep] tests it. *)
Definition nearInt (q : Num) : bool :=
  ltb (abs (sub q (round q))) (pow10neg 9).

End Vocabulary.

(** Decimal literals of the examples. *)
Definition dec (z : Z) (e : nat) : Num := Num.mk z e.


(** A small session used as a concrete instance: order 7 with two lines,
    open in the detail view and present on the board. *)
Definition sampleOrder (collected : Z) : Order :=
  mkOrder (IdNum 7) None (Some (Num.ofZ 10)) (Some (Num.ofZ collected)) None
    None None None None None.

Definition sampleLine (id collected sortIndex : Z) : Line :=
  mkLine (IdNum id) (Some (Num.ofZ 5)) (Some (Num.ofZ collected)) None false
    false "item" None (Some sortIndex).

Definition sampleState : State :=
  mkState (Some [])
    [mkWrapper (Some (sampleOrder 8)) [sampleLine 1 5 1; sampleLine 2 3 2];
     mkWrapper (Some (mkOrder (IdNum 9) None None None None None None None
                        None None)) [sampleLine 3 0 1]]
    (Some (mkDetail (sampleOrder 8) [sampleLine 1 5 1; sampleLine 2 3 2]))
    (Some (IdNum 7)) None.

Definition sampleWorld : World := mkWorld sampleState page0 [] 1%positive 0.

Definition samplePatch : PatchData :=
  mkPatchData (sampleOrder 10) (sampleLine 2 5 2) true.

(** The detail view of the sample order after line 2 has been completed:
    lines 1 and 3 incomplete, line 2 in the complete group. *)
Definition sampleEls : list LineEl :=
  [renderLine (sampleLine 1 0 1); renderLine (sampleLine 3 0 3);
   renderLine (sampleLine 2 5 2)].

Definition sampleView : World :=
  mkWorld sampleState (set_orderLines sampleEls page0) [] 1%positive 0.

(** A run of the client in which a poll request is still in flight when an
    order is opened: login, boot and background sync complete; the poll
    timer fires on the board; the user opens order 7, whose "open" and
    detail requests complete. *)
Definition raceEvents : list Event :=
  [EvLoginClick "pw";
   EvResponse 0 (mkResponse 200 BAck);
   EvResponse 0 (mkResponse 200 (BConfig []));
   EvResponse 0 (mkResponse 200 (BOrders [mkWrapper (Some (sampleOrder 8)) []]));
   EvResponse 0 (mkResponse 200 BAck);
   EvResponse 0 (mkResponse 200 (BOrders [mkWrapper (Some (sampleOrder 8)) []]));
   EvTick 1;
   EvCardClick (IdNum 7);
   EvResponse 1 (mkResponse 200 (BOrder None));
   EvResponse 1 (mkResponse 200 (BDetail (mkDetail (sampleOrder 8) [])))].

(** The late answer to the poll request. *)
Definition raceAnswer : Event :=
  EvResponse 0 (mkResponse 200 (BOrders [mkWrapper (Some (sampleOrder 9)) []])).

(** The run resumed with a response, from the world at that time. *)
Definition resume {A} (r : Run A) (res : Response) (w : World) : Run A :=
  match r with
  | Waiting _ _ k => k res w
  | Finished _ _ => r
  end.

(** The world a run leaves behind when it settles or suspends. *)
Definition worldOf {A} (r : Run A) : World :=
  match r with
  | Finished _ w => w
  | Waiting _ w _ => w
  end.

(** The run is suspended at a request. *)
Definition isWaiting {A} (r : Run A) : Prop :=
  match r with
  | Waiting _ _ _ => True
  | Finished _ _ => False
  end.




(** The live interval timers are exactly the one recorded in
    [state.pollTimer], if any. *)
Definition timerInv (w : World) : Prop :=
  intervals w = match pollTimer (state w) with
                | Some t => [t]
                | None => []
                end.

(** A run keeps [timerInv]: it holds where the run settles or suspends, and
    again after every resumption from a world in which it holds. *)
Fixpoint runInv {A} (r : Run A) : Prop :=
  match r with
  | Finished _ w => timerInv w
  | Waiting _ w k =>
      timerInv w /\ forall res w', timerInv w' -> runInv (k res w')
  end.

(** An asynchronous function keeps [timerInv]. *)
Definition preserves {A} (p : P A) : Prop :=
  forall w, timerInv w -> runInv (p w).

(** The invariant of the running system: the world satisfies [timerInv]
    and so will every suspended function when it resumes. *)
Definition sysInv (s : Sys) : Prop :=
  timerInv (world s)
  /\ Forall (fun k => forall res w, timerInv w -> runInv (k res w)) (pending s).

(** The position in [l] of the element found at [j'] once the child at [i]
    has been taken out. *)
Definition unskip (i j' : nat) : nat := if (j' <? i)%nat then j' else S j'.

(** [x] put at position [j] of [rest]. *)
Definition insertAt {A} (j : nat) (x : A) (rest : list A) : list A :=
  take j rest ++ x :: drop j rest.

(** The order of [dataset.sortIndex]. *)
Definition bySortIndex (a b : LineEl) : Prop :=
  el_sortIndex a <= el_sortIndex b.

(** The children of [orderLinesEl] as [renderOrderDetail] lays them out:
    the incomplete lines by ascending sort index, then the complete ones,
    then the removed ones. *)
Record Layout (inc comp rem : list LineEl) : Prop := mkLayout {
  lay_inc : Forall (fun el => el_group el = Incomplete /\ el_done el = false)
              inc;
  lay_comp : Forall (fun el => el_group el = Complete) comp;
  lay_rem : Forall (fun el => el_group el = Removed) rem;
  lay_sorted : StronglySorted bySortIndex inc
}.

(** The order of [bySort]. *)
Definition byKey (a b : Line) : Prop :=
  intOr0 (sort_index a) <= intOr0 (sort_index b).

(** *** Vocabulary of the further properties *)

(** What [escapeHtml] writes for one character. *)
Definition escapeChar (c : ascii) : str :=
  if Ascii.eqb c "&" then lit "&amp;"
  else if Ascii.eqb c "<" then lit "&lt;"
  else if Ascii.eqb c ">" then lit "&gt;"
  else if Ascii.eqb c quot then lit "&quot;"
  else if Ascii.eqb c "'" then lit "&#039;"
  else [c].

(** The characters with a meaning in HTML text and attribute values. *)
Definition htmlSpecial (c : ascii) : bool :=
  Ascii.eqb c "&" || Ascii.eqb c "<" || Ascii.eqb c ">"
  || Ascii.eqb c quot || Ascii.eqb c "'".

(** The characters of a printed number. *)
Definition numChar (c : ascii) : bool :=
  isDigit c || Ascii.eqb c "." || Ascii.eqb c "-" || Ascii.eqb c "+"
  || Ascii.eqb c "e".

(** A run keeps the property [I] of the world: [I] holds where the run
    settles or suspends, and again after every resumption from a world in
    which it holds. *)
Fixpoint runKeeps {A} (I : World -> Prop) (r : Run A) : Prop :=
  match r with
  | Finished _ w => I w
  | Waiting _ w k => I w /\ forall res w', I w' -> runKeeps I (k res w')
  end.

(** An asynchronous function keeps [I]. *)
Definition keeps {A} (I : World -> Prop) (p : P A) : Prop :=
  forall w, I w -> runKeeps I (p w).

(** [I] holds of the world and will hold whenever a suspended function
    resumes and when it settles. *)
Definition sysKeeps (I : World -> Prop) (s : Sys) : Prop :=
  I (world s)
  /\ Forall (fun k => forall res w, I w -> runKeeps I (k res w)) (pending s).

(** The order view and the store go together: [state.orderDetail] and
    [state.activeOrderId] are both set or both [null], the header shows the
    order of [state.orderDetail], and one of the three views is visible. *)
Definition viewInv (w : World) : Prop :=
  (orderDetail (state w) = None <-> activeOrderId (state w) = None)
  /\ (forall dt, orderDetail (state w) = Some dt ->
        header (page w) = Some (d_order dt))
  /\ loginView_hidden (page w) && appView_hidden (page w)
     && orderView_hidden (page w) = false.

(** The sort key of [bySort]. *)
Definition sortKey (l : Line) : Z := intOr0 (sort_index l).

(** The card of a board entry and the column it goes to; an entry without
    an [order] has none. *)
Definition cardOf (w : Wrapper) : option (Column * Card) :=
  o ← w_order w; Some (getOrderColumn o, renderOrderCard o w).

(** The card of a board entry, if it goes to column [c]. *)
Definition cardIn (c : Column) (w : Wrapper) : option Card :=
  o ← w_order w;
  if decide (getOrderColumn o = c) then Some (renderOrderCard o w) else None.

(** The request a run is suspended at. *)
Definition requestOf {A} (r : Run A) : option Request :=
  match r with
  | Waiting req _ _ => Some req
  | Finished _ _ => None
  end.

(** The card shows an order with a numeric id, under that id. *)
Definition cardKeyed (cd : Card) : Prop :=
  card_orderId cd = idStr (order_id (card_order cd))
  /\ exists n, order_id (card_order cd) = IdNum n.

(* ===================================================================== *)
(** * Facts about the number model *)
(* ===================================================================== *)

#[global] Arguments digitChar : simpl never.
#[global] Arguments digitVal : simpl never.
#[global] Arguments isDigit : simpl never.
#[global] Arguments Num.pow10 : simpl never.
#[global] Arguments Z.pow : simpl never.
#[global] Arguments Z.mul : simpl never.
#[global] Arguments Z.div : simpl never.
#[global] Arguments Z.modulo : simpl never.

Section NumFacts.

Import Num.

Lemma pow10_pos n : 0 < pow10 n.
Proof. unfold pow10. apply Z.pow_pos_nonneg; lia. Qed.

Lemma pow10_S n : pow10 (S n) = 10 * pow10 n.
Proof.
  unfold pow10. rewrite Nat2Z.inj_succ, Z.pow_succ_r by lia. reflexivity.
Qed.

Lemma pow10_0 : pow10 0 = 1.
Proof. reflexivity. Qed.

Lemma pow10_add a b : pow10 (a + b) = pow10 a * pow10 b.
Proof.
  unfold pow10. rewrite Nat2Z.inj_add, Z.pow_add_r by lia. reflexivity.
Qed.

Lemma norm_value z e z' e' :
  norm z e = (z', e') -> z * pow10 e' = z' * pow10 e /\ (e' <= e)%nat.
Proof.
  revert z. induction e as [|e IH]; intros z H; simpl in H.
  - inversion H; subst. split; [reflexivity | lia].
  - destruct (z mod 10 =? 0) eqn:Hm.
    + apply Z.eqb_eq in Hm. apply IH in H as [H1 H2]. split; [|lia].
      rewrite pow10_S.
      assert (Hz : z = 10 * (z / 10)) by (pose proof (Z.div_mod z 10); lia).
      rewrite Hz at 1. nia.
    + inversion H; subst. split; [reflexivity | lia].
Qed.

Lemma norm_canon z e z' e' : norm z e = (z', e') -> canon z' e'.
Proof.
  revert z. induction e as [|e IH]; intros z H; simpl in H.
  - inversion H; subst. left; reflexivity.
  - destruct (z mod 10 =? 0) eqn:Hm.
    + eauto.
    + inversion H; subst. right. apply Z.eqb_neq in Hm. exact Hm.
Qed.

Lemma norm_of_canon z e : canon z e -> norm z e = (z, e).
Proof.
  intros [->|H]; [reflexivity|].
  destruct e; [reflexivity|]. simpl.
  apply Z.eqb_neq in H. rewrite H. reflexivity.
Qed.



Lemma mk_spec z e :
  exists z' e', mk z e = Fin z' e' /\ canon z' e'
                /\ z * pow10 e' = z' * pow10 e /\ (e' <= e)%nat.
Proof.
  unfold mk. destruct (norm z e) as [z' e'] eqn:H.
  exists z', e'. pose proof (norm_value _ _ _ _ H) as [? ?].
  eauto using norm_canon.
Qed.


Lemma mk_canon z e : canon z e -> mk z e = Fin z e.
Proof. intros C. unfold mk. rewrite norm_of_canon by done. done. Qed.


(** *** Decimal digits *)

Lemma digit_cases d : 0 <= d < 10 ->
  d = 0 \/ d = 1 \/ d = 2 \/ d = 3 \/ d = 4 \/ d = 5 \/ d = 6 \/ d = 7
  \/ d = 8 \/ d = 9.
Proof. lia. Qed.

Lemma digitVal_digitChar d : 0 <= d < 10 -> digitVal (digitChar d) = d.
Proof.
  intros H. destruct (digit_cases d H) as [->|[->|[->|[->|[->|[->|[->|[->|[->| ->]]]]]]]]];
    reflexivity.
Qed.

Lemma isDigit_digitChar d : 0 <= d < 10 -> isDigit (digitChar d) = true.
Proof.
  intros H. destruct (digit_cases d H) as [->|[->|[->|[->|[->|[->|[->|[->|[->| ->]]]]]]]]];
    reflexivity.
Qed.

Lemma digitChar_0 d : 0 <= d < 10 ->
  Ascii.eqb (digitChar d) "0" = (d =? 0).
Proof.
  intros H. destruct (digit_cases d H) as [->|[->|[->|[->|[->|[->|[->|[->|[->| ->]]]]]]]]];
    reflexivity.
Qed.

Lemma mod10_range z : 0 <= z mod 10 < 10.
Proof. apply Z.mod_pos_bound. lia. Qed.

Lemma length_digitsN n z : length (digitsN n z) = n.
Proof. induction n; cbn [length digitsN]; congruence. Qed.

Lemma digitsN_isDigit n z : forallb isDigit (digitsN n z) = true.
Proof.
  induction n; cbn [forallb digitsN]; [reflexivity|].
  rewrite isDigit_digitChar by apply mod10_range. exact IHn.
Qed.

Lemma mod_pow10_S z n :
  z mod pow10 (S n) = (z / pow10 n) mod 10 * pow10 n + z mod pow10 n.
Proof.
  rewrite pow10_S, (Z.mul_comm 10).
  pose proof (pow10_pos n).
  rewrite Z.rem_mul_r by lia. ring.
Qed.

Lemma fold_digitsN n z a :
  fold_left (fun a c => 10 * a + digitVal c) (digitsN n z) a
  = a * pow10 n + z mod pow10 n.
Proof.
  revert a. induction n as [|n IH]; intros a; cbn [fold_left digitsN].
  - rewrite pow10_0, Z.mod_1_r. lia.
  - rewrite IH, digitVal_digitChar by apply mod10_range.
    change (10 ^ Z.of_nat n) with (pow10 n).
    rewrite mod_pow10_S, pow10_S. ring.
Qed.

Lemma digitsVal_digitsN n z : digitsVal (digitsN n z) = z mod pow10 n.
Proof. unfold digitsVal. rewrite fold_digitsN. lia. Qed.


Lemma ndigits_fuel_pos f z : (1 <= ndigits_fuel f z)%nat.
Proof. destruct f; cbn [ndigits_fuel]; [lia|]. destruct (z <? 10); lia. Qed.

Lemma ndigits_fuel_upper f z :
  0 <= z -> Z.log2 z <= Z.of_nat f -> z < pow10 (ndigits_fuel f z).
Proof.
  revert z. induction f as [|f IH]; intros z Hz Hl; cbn [ndigits_fuel].
  - assert (z < 2); [|change (pow10 1) with 10; lia].
    destruct (decide (z <= 1)); [lia|].
    assert (1 <= Z.log2 z).
    { apply Z.log2_le_pow2; [lia|]. change (2 ^ 1) with 2. lia. }
    lia.
  - destruct (z <? 10) eqn:H10.
    + apply Z.ltb_lt in H10. change (pow10 1) with 10. lia.
    + apply Z.ltb_ge in H10.
      assert (Hd : z / 10 < pow10 (ndigits_fuel f (z / 10))).
      { apply IH; [apply Z.div_pos; lia|].
        assert (Z.log2 (z / 10) <= Z.log2 (z / 2)).
        { apply Z.log2_le_mono.
          apply Z.div_le_compat_l; lia. }
        assert (Z.log2 (z / 2) = Z.log2 z - 1).
        { assert (1 <= Z.log2 z).
          { apply Z.log2_le_pow2; [lia|]. change (2 ^ 1) with 2. lia. }
          rewrite <- Z.div2_div, Z.div2_spec, Z.log2_shiftr by lia.
          rewrite Z.max_r; lia. }
        lia. }
      rewrite pow10_S.
      pose proof (Z.div_mod z 10). pose proof (mod10_range z). lia.
Qed.

Lemma ndigits_fuel_lower f z :
  0 < z -> pow10 (ndigits_fuel f z - 1) <= z.
Proof.
  revert z. induction f as [|f IH]; intros z Hz; cbn [ndigits_fuel].
  - change (pow10 (1 - 1)) with 1. lia.
  - destruct (z <? 10) eqn:H10.
    + change (pow10 (1 - 1)) with 1. lia.
    + apply Z.ltb_ge in H10.
      assert (Hd : pow10 (ndigits_fuel f (z / 10) - 1) <= z / 10).
      { apply IH. apply Z.div_str_pos. lia. }
      pose proof (ndigits_fuel_pos f (z / 10)).
      replace (S (ndigits_fuel f (z / 10)) - 1)%nat
        with (S (ndigits_fuel f (z / 10) - 1)) by lia.
      rewrite pow10_S.
      pose proof (Z.div_mod z 10). pose proof (mod10_range z). lia.
Qed.

Lemma ndigits_pos z : (1 <= ndigits z)%nat.
Proof. apply ndigits_fuel_pos. Qed.

Lemma ndigits_upper z : 0 <= z -> z < pow10 (ndigits z).
Proof.
  intros Hz. apply ndigits_fuel_upper; [done|].
  pose proof (Z.log2_nonneg z). lia.
Qed.

Lemma ndigits_lower z : 0 < z -> pow10 (ndigits z - 1) <= z.
Proof. apply ndigits_fuel_lower. Qed.

Lemma digitsVal_natStr z : 0 <= z -> digitsVal (natStr z) = z.
Proof.
  intros Hz. unfold natStr. rewrite digitsVal_digitsN.
  apply Z.mod_small. split; [done|]. by apply ndigits_upper.
Qed.

Lemma natStr_isDigit z : forallb isDigit (natStr z) = true.
Proof. apply digitsN_isDigit. Qed.

Lemma natStr_cons z : exists c r, natStr z = c :: r /\ isDigit c = true.
Proof.
  unfold natStr. pose proof (ndigits_pos z).
  destruct (ndigits z) as [|n]; [lia|]. cbn [digitsN].
  eexists _, _. split; [reflexivity|].
  apply isDigit_digitChar, mod10_range.
Qed.



(** *** Reading back what [toFixed] and [String] print *)

Lemma isDigit_not c x : isDigit c = true -> isDigit x = false ->
  Ascii.eqb c x = false.
Proof.
  intros Hc Hx. destruct (Ascii.eqb_spec c x) as [->|]; congruence.
Qed.









Lemma stripZeros_canon fuel z t0 :
  z mod 10 <> 0 -> stripZeros fuel z t0 = (z, t0).
Proof.
  intros H. destruct fuel; cbn [stripZeros]; [reflexivity|].
  apply Z.eqb_neq in H. rewrite H. reflexivity.
Qed.




(** *** Rounding to [f] decimals is monotone and idempotent *)












(** *** Clamping to [[0, max]] *)

















(** *** The fraction digits read by [inferStep] *)

Lemma digitsN_last n z :
  digitsN (S n) z = digitsN n (z / 10) ++ [digitChar (z mod 10)].
Proof.
  induction n as [|n IH].
  - cbn [digitsN app]. change (10 ^ Z.of_nat 0) with 1.
    by rewrite Z.div_1_r.
  - change (digitsN (S (S n)) z)
      with (digitChar ((z / pow10 (S n)) mod 10) :: digitsN (S n) z).
    rewrite IH.
    change (digitsN (S n) (z / 10))
      with (digitChar ((z / 10 / pow10 n) mod 10) :: digitsN n (z / 10)).
    pose proof (pow10_pos n).
    rewrite Z.div_div, <- pow10_S by lia. reflexivity.
Qed.

Lemma trimTrailing0_digitsN n z :
  z mod 10 <> 0 -> trimTrailing0 (digitsN n z) = digitsN n z.
Proof.
  intros H. destruct n as [|n]; [reflexivity|].
  rewrite digitsN_last. unfold trimTrailing0.
  rewrite rev_app_distr. cbn [rev app dropWhile0].
  rewrite digitChar_0 by apply mod10_range.
  apply Z.eqb_neq in H. rewrite H.
  change (digitChar (z mod 10) :: rev (digitsN n (z / 10)))
    with (rev [digitChar (z mod 10)] ++ rev (digitsN n (z / 10))).
  by rewrite <- rev_app_distr, rev_involutive.
Qed.

Lemma countLeading0_digitsN n z :
  0 < z mod pow10 n ->
  let p := countLeading0 (digitsN n z) in
  (p < n)%nat /\ pow10 (n - S p) <= z mod pow10 n < pow10 (n - p).
Proof.
  induction n as [|n IH]; intros Hpos.
  - rewrite pow10_0, Z.mod_1_r in Hpos. lia.
  - cbn [digitsN countLeading0].
    rewrite digitChar_0 by apply mod10_range.
    change (10 ^ Z.of_nat n) with (pow10 n).
    pose proof (mod_pow10_S z n) as Hm.
    pose proof (mod10_range (z / pow10 n)) as Hd.
    pose proof (pow10_pos n) as Hp.
    pose proof (Z.mod_pos_bound z (pow10 n) Hp) as Hr.
    destruct ((z / pow10 n) mod 10 =? 0) eqn:Hz.
    + apply Z.eqb_eq in Hz. rewrite Hz in Hm.
      destruct IH as [H1 H2]; [lia|].
      cbv zeta. split; [lia|].
      replace (S n - S (S (countLeading0 (digitsN n z))))%nat
        with (n - S (countLeading0 (digitsN n z)))%nat by lia.
      replace (S n - S (countLeading0 (digitsN n z)))%nat
        with (n - countLeading0 (digitsN n z))%nat by lia.
      lia.
    + apply Z.eqb_neq in Hz. cbv zeta. split; [lia|].
      replace (S n - 1)%nat with n by lia.
      replace (S n - 0)%nat with (S n) by lia.
      rewrite Hm, pow10_S.
      set (dg := (z / pow10 n) mod 10) in *. nia.
Qed.

Lemma includes_digits c ds :
  isDigit c = false -> forallb isDigit ds = true -> includes c ds = false.
Proof.
  intros Hc Hd. unfold includes.
  induction ds as [|x ds IH]; [reflexivity|].
  cbn [existsb forallb] in *. apply andb_true_iff in Hd as [Hx Hd].
  rewrite IH by done. rewrite Ascii.eqb_sym, (isDigit_not x c) by done.
  reflexivity.
Qed.

Lemma includes_app c a b : includes c (a ++ b) = includes c a || includes c b.
Proof. apply existsb_app. Qed.

Lemma includes_mid c a b : includes c (a ++ c :: b) = true.
Proof.
  rewrite includes_app. unfold includes at 2. cbn [existsb].
  rewrite Ascii.eqb_refl. apply orb_true_r.
Qed.

Lemma splitAt_digits c ds :
  isDigit c = false -> forallb isDigit ds = true ->
  splitAt c ds = (ds, None).
Proof.
  intros Hc Hd. induction ds as [|x ds IH]; [reflexivity|].
  cbn [splitAt forallb] in *. apply andb_true_iff in Hd as [Hx Hd].
  rewrite (isDigit_not x c), IH by done. reflexivity.
Qed.

Lemma splitAt_app c ds r :
  isDigit c = false -> forallb isDigit ds = true ->
  splitAt c (ds ++ c :: r) = (ds, Some r).
Proof.
  intros Hc Hd. induction ds as [|x ds IH].
  - cbn [app splitAt]. by rewrite Ascii.eqb_refl.
  - cbn [app splitAt forallb] in *. apply andb_true_iff in Hd as [Hx Hd].
    rewrite (isDigit_not x c), IH by done. reflexivity.
Qed.

Lemma splitSnd_dot ip fp :
  forallb isDigit ip = true -> forallb isDigit fp = true ->
  splitSnd "." (ip ++ "."%char :: fp) = Some fp.
Proof.
  intros Hi Hf. unfold splitSnd.
  rewrite splitAt_app by done. cbn [snd].
  rewrite splitAt_digits by done. reflexivity.
Qed.

(** [String(q)] for a fraction printed without exponent. *)
Lemma toString_positional z e :
  canon z e -> (0 < e)%nat -> 0 < z ->
  pow10 e <= z * pow10 6 -> z < pow10 21 * pow10 e ->
  toString (Fin z e) = natStr (z / pow10 e) ++ "."%char :: digitsN e z.
Proof.
  intros C He Hz Hlo Hhi. unfold toString.
  replace (z =? 0) with false by (symmetry; apply Z.eqb_neq; lia).
  replace (z <? 0) with false by (symmetry; apply Z.ltb_ge; lia).
  unfold posToString, sciParts. rewrite norm_of_canon by done.
  destruct C as [->|C]; [lia|].
  rewrite stripZeros_canon by done.
  pose proof (ndigits_upper z ltac:(lia)) as Hup.
  pose proof (ndigits_lower z Hz) as Hlow.
  pose proof (ndigits_pos z) as Hk.
  set (k := ndigits z) in *.
  assert (H1 : (e < k + 6)%nat).
  { destruct (decide (e < k + 6)%nat); [done|]. exfalso.
    assert (pow10 (k + 6) <= pow10 e)
      by (apply Z.pow_le_mono_r; lia).
    rewrite pow10_add in *. pose proof (pow10_pos 6). nia. }
  assert (H2 : (k - 1 < 21 + e)%nat).
  { destruct (decide (k - 1 < 21 + e)%nat); [done|]. exfalso.
    assert (pow10 (21 + e) <= pow10 (k - 1))
      by (apply Z.pow_le_mono_r; lia).
    rewrite pow10_add in *. lia. }
  replace ((-6 <? Z.of_nat k + 0 - Z.of_nat e)
           && (Z.of_nat k + 0 - Z.of_nat e <=? 21)) with true.
  2:{ symmetry. apply andb_true_iff. split;
      [apply Z.ltb_lt|apply Z.leb_le]; lia. }
  destruct e; [lia|]. reflexivity.
Qed.

Lemma nearInt_integer z : nearInt (Fin z 0) = true.
Proof.
  unfold nearInt, round. rewrite pow10_0.
  replace ((2 * z + 1) / (2 * 1)) with z
    by (apply (Z.div_unique _ 2 z 1); lia).
  destruct ((z =? 0) && (z <? 0)) eqn:E.
  - apply andb_true_iff in E as [E1 E2].
    apply Z.eqb_eq in E1. apply Z.ltb_lt in E2. lia.
  - unfold sub. rewrite pow10_0.
    replace (z * 1 - z * 1) with 0 by lia. reflexivity.
Qed.

Lemma canon_frac_pos z e :
  canon z e -> (0 < e)%nat -> 0 < z mod pow10 e.
Proof.
  intros [->|C] He; [lia|].
  pose proof (pow10_pos e) as Hp.
  pose proof (Z.mod_pos_bound z (pow10 e) Hp).
  destruct (decide (z mod pow10 e = 0)) as [E|]; [|lia].
  exfalso. apply C.
  destruct e as [|e]; [lia|]. rewrite pow10_S in E.
  pose proof (pow10_pos e).
  apply Z.mod_divide in E; [|lia]. destruct E as [k ->].
  replace (k * (10 * pow10 e)) with (k * pow10 e * 10) by ring.
  apply Z.mod_mul. lia.
Qed.

Lemma inferStep_positional z e :
  canon z e -> 0 < z ->
  pow10 e <= z * pow10 6 -> z < pow10 21 * pow10 e ->
  nearInt (Fin z e) = false ->
  inferStep (Fin z e) = pow10neg (S (countLeading0 (digitsN e z)))
  /\ (0 < e)%nat.
Proof.
  intros C Hz Hlo Hhi Hni.
  assert (He : (0 < e)%nat).
  { destruct e; [|lia]. by rewrite nearInt_integer in Hni. }
  split; [|done].
  unfold inferStep. fold (nearInt (Fin z e)). rewrite Hni.
  replace (negb (isFinite (Fin z e)) || leb (Fin z e) zero) with false.
  2:{ symmetry. unfold leb, cmp, zero. cbn [isFinite negb orb].
      rewrite pow10_0. pose proof (pow10_pos e).
      destruct (Z.compare_spec (z * 1) (0 * pow10 e)); try done; lia. }
  rewrite toString_positional by done.
  pose proof (natStr_isDigit (z / pow10 e)) as Hi.
  pose proof (digitsN_isDigit e z) as Hf.
  rewrite !includes_app. cbn [includes existsb].
  fold (includes "e" (natStr (z / pow10 e))).
  fold (includes "E" (natStr (z / pow10 e))).
  fold (includes "." (natStr (z / pow10 e))).
  fold (includes "e" (digitsN e z)).
  fold (includes "E" (digitsN e z)).
  fold (includes "." (digitsN e z)).
  rewrite (includes_digits "e" (natStr _)), (includes_digits "e" (digitsN _ _)),
    (includes_digits "E" (natStr _)), (includes_digits "E" (digitsN _ _))
    by done.
  change (Ascii.eqb "e" ".") with false.
  change (Ascii.eqb "E" ".") with false.
  change (Ascii.eqb "." ".") with true.
  cbn [orb negb]. rewrite includes_mid. cbn [negb].
  rewrite splitSnd_dot by done.
  destruct C as [->|C]; [lia|].
  rewrite trimTrailing0_digitsN by done.
  destruct (countLeading0_digitsN e z) as [Hp _].
  { apply canon_frac_pos; [by right|done]. }
  pose proof (length_digitsN e z) as Hl.
  destruct (digitsN e z) as [|c ds] eqn:Ed; [cbn [length] in Hl; lia|].
  rewrite Hl.
  replace (e <=? countLeading0 (c :: ds))%nat with false
    by (symmetry; apply Nat.leb_gt; lia).
  by rewrite Nat.add_1_r.
Qed.


(** *** Comparison and magnitude of canonical forms *)

Lemma mod10_abs z : (Z.abs z mod 10 =? 0) = (z mod 10 =? 0).
Proof.
  destruct (Z.abs_eq_or_opp z) as [->| ->]; [done|].
  destruct (z mod 10 =? 0) eqn:E.
  - apply Z.eqb_eq in E. apply Z.eqb_eq. by apply Z.mod_opp_l_z.
  - apply Z.eqb_neq in E. apply Z.eqb_neq. intros H. apply E.
    apply Z.mod_opp_l_z in H; [|lia]. by rewrite Z.opp_involutive in H.
Qed.

Lemma div10_abs z : z mod 10 = 0 -> Z.abs z / 10 = Z.abs (z / 10).
Proof.
  intros H. apply Z.mod_divide in H; [|lia]. destruct H as [k ->].
  rewrite Z.div_mul by lia. rewrite Z.abs_mul.
  change (Z.abs 10) with 10. by rewrite Z.div_mul by lia.
Qed.

Lemma abs_mk z e : abs (mk z e) = mk (Z.abs z) e.
Proof.
  unfold mk. revert z. induction e as [|e IH]; intros z; cbn [norm].
  - reflexivity.
  - rewrite mod10_abs. destruct (z mod 10 =? 0) eqn:E; [|reflexivity].
    apply Z.eqb_eq in E. rewrite div10_abs by done. apply IH.
Qed.


Lemma compare_cross a p b q a' p' :
  0 < p -> 0 < q -> 0 < p' -> a * p' = a' * p ->
  (a' * q ?= b * p') = (a * q ?= b * p).
Proof.
  intros Hp Hq Hp' Hv.
  rewrite (Zmult_compare_compat_r (a' * q) (b * p') p) by lia.
  rewrite (Zmult_compare_compat_r (a * q) (b * p) p') by lia.
  f_equal; [|ring].
  replace (a' * q * p) with (a' * p * q) by ring. rewrite <- Hv. ring.
Qed.

Lemma cmp_mk_l a ea b eb :
  cmp (mk a ea) (Fin b eb) = Some (a * pow10 eb ?= b * pow10 ea).
Proof.
  destruct (mk_spec a ea) as (a' & ea' & -> & _ & V & _).
  cbn [cmp]. f_equal.
  apply compare_cross; auto using pow10_pos.
Qed.

Lemma cmp_mk_r a ea b eb :
  cmp (Fin a ea) (mk b eb) = Some (a * pow10 eb ?= b * pow10 ea).
Proof.
  destruct (mk_spec b eb) as (b' & eb' & -> & _ & V & _).
  cbn [cmp]. f_equal.
  rewrite (Z.compare_antisym (b * pow10 ea)), (Z.compare_antisym (b' * pow10 ea)).
  f_equal. apply compare_cross; auto using pow10_pos.
Qed.

Lemma pow10neg_Fin n : pow10neg n = Fin 1 n.
Proof.
  unfold pow10neg. apply mk_canon. destruct n; [by left|by right].
Qed.

(** *** The steps of [inferStep] have at most nine decimals *)

Lemma nearInt_false_frac z e :
  0 < z -> nearInt (Fin z e) = false ->
  pow10 e <= (z mod pow10 e) * pow10 9.
Proof.
  intros Hz Hni. pose proof (pow10_pos e) as Hp.
  pose proof (pow10_pos 9) as H9.
  pose proof (Z.mod_pos_bound z (pow10 e) Hp) as Hr.
  pose proof (Z.div_mod z (pow10 e) ltac:(lia)) as Hdm.
  destruct (Z_lt_dec (2 * (z mod pow10 e)) (pow10 e)) as [Hlow|Hhigh].
  2:{ assert (2 <= pow10 9) by (vm_compute; discriminate). nia. }
  destruct (Z_le_dec (pow10 e) (z mod pow10 e * pow10 9)) as [|Hlt];
    [done|exfalso].
  assert (Hround : (2 * z + pow10 e) / (2 * pow10 e) = z / pow10 e).
  { symmetry. apply (Z.div_unique _ _ _ (2 * (z mod pow10 e) + pow10 e));
      lia. }
  assert (Hq : 0 <= z / pow10 e) by (apply Z.div_pos; lia).
  unfold nearInt, round in Hni. rewrite Hround in Hni.
  replace ((z / pow10 e =? 0) && (z <? 0)) with false in Hni.
  2:{ symmetry. apply andb_false_iff. right. apply Z.ltb_ge. lia. }
  unfold sub in Hni. rewrite abs_mk, pow10neg_Fin in Hni.
  unfold ltb in Hni. rewrite cmp_mk_l, pow10_0, Nat.add_0_r in Hni.
  assert (Hv : z * 1 - z / pow10 e * pow10 e = z mod pow10 e) by lia.
  rewrite Hv, Z.abs_eq in Hni by lia.
  destruct (Z.compare_spec (z mod pow10 e * pow10 9) (1 * pow10 e));
    try done; lia.
Qed.

Lemma stepDecimals_pow10neg k :
  (k <= 10)%nat -> stepDecimals (pow10neg k) = k.
Proof.
  intros Hk.
  do 11 (destruct k as [|k]; [vm_compute; reflexivity|]). lia.
Qed.

Lemma inferStep_step_decimals z e :
  canon z e -> 0 < z ->
  pow10 e <= z * pow10 6 -> z < pow10 21 * pow10 e ->
  nearInt (Fin z e) = false ->
  (stepDecimals (inferStep (Fin z e)) <= 9)%nat.
Proof.
  intros C Hz Hlo Hhi Hni.
  destruct (inferStep_positional z e C Hz Hlo Hhi Hni) as [-> He].
  destruct (countLeading0_digitsN e z (canon_frac_pos z e C He))
    as [Hp [_ H2]].
  pose proof (nearInt_false_frac z e Hz Hni) as Hfrac.
  set (p := countLeading0 (digitsN e z)) in *.
  assert (p < 9)%nat.
  { destruct (decide (p < 9)%nat); [done|]. exfalso.
    assert (pow10 9 <= pow10 p) by (apply Z.pow_le_mono_r; lia).
    assert (pow10 e = pow10 (e - p) * pow10 p) as Hsplit
      by (rewrite <- pow10_add; f_equal; lia).
    pose proof (pow10_pos p). pose proof (pow10_pos (e - p)).
    pose proof (pow10_pos 9).
    assert (z mod pow10 e * pow10 9 < pow10 (e - p) * pow10 p); [|lia].
    apply Z.lt_le_trans with (pow10 (e - p) * pow10 9).
    - apply Z.mul_lt_mono_pos_r; lia.
    - apply Z.mul_le_mono_nonneg_l; lia. }
  rewrite stepDecimals_pow10neg by lia. lia.
Qed.

End NumFacts.

(* ===================================================================== *)
(** * Facts about the store and the asynchronous functions *)
(* ===================================================================== *)

#[global] Arguments patchDetail : simpl never.
#[global] Arguments patchBoard : simpl never.
#[global] Arguments setBoardOrder : simpl never.
#[global] Arguments updateLineEls : simpl never.
#[global] Arguments findIndex : simpl never.
#[global] Arguments boardCards : simpl never.
#[global] Arguments idStr : simpl never.
#[global] Arguments isLineDone : simpl never.
#[global] Arguments sortBySort : simpl never.

Ltac unfold_prog :=
  unfold mbind, P_bind, mret, P_ret, throw, tryCatch, ignoreErrors,
    getState, modifyState, getPage, modifyPage, show, hide, showComplete,
    hideComplete, updateOrderDetailHeader, updateOrderCardOnBoard,
    updateLineUI, setTimeout, setInterval, clearInterval, renderBoard,
    json_patch, json_order, json_orders, json_detail, json_config,
    json_any in *.

Ltac run_prog :=
  repeat (progress (unfold_prog;
                    cbn [bindRun catchRun page state intervals withState
                           withPage] in *)).

Section StoreFacts.

Lemma resume_bind {A B} (p : P A) (f : A -> P B) w0 res w :
  isWaiting (p w0) ->
  resume ((p ≫= f) w0) res w = bindRun (resume (p w0) res w) f.
Proof.
  unfold mbind, P_bind. destruct (p w0); [done|]. reflexivity.
Qed.


Lemma apiFetch_waiting req w0 :
  apiFetch req w0
  = Waiting req w0 (fun res w => resume (apiFetch req w0) res w).
Proof. reflexivity. Qed.

Lemma apiFetch_isWaiting req w0 : isWaiting (apiFetch req w0).
Proof. done. Qed.

Lemma apiFetch_resume req w0 res w :
  resume (apiFetch req w0) res w
  = if status res =? 401
    then Finished (Throw Unauthorized) (worldOf (logout w))
    else Finished (Ok res) w.
Proof.
  unfold apiFetch, mbind, P_bind, fetch, mret, P_ret.
  cbn [resume bindRun].
  destruct (status res =? 401); [|reflexivity].
  unfold logout, stopPolling, getState, modifyState, hide, show, modifyPage,
    clearInterval, throw, mbind, P_bind.
  cbn [bindRun state withState set_pollTimer pollTimer set_activeOrderId
       set_orderDetail set_orders set_config].
  destruct (pollTimer (state w)); reflexivity.
Qed.

Lemma ok_not_401 res : ok res = true -> (status res =? 401) = false.
Proof.
  unfold ok. intros H. apply andb_true_iff in H as [_ H].
  apply Z.leb_le in H. apply Z.eqb_neq. lia.
Qed.

(** *** [findIndex] *)

Lemma findIndexFrom_Some {A} (p : nat -> A -> bool) l j i :
  findIndexFrom p l j = Some i ->
  (j <= i)%nat /\ exists x, l !! (i - j)%nat = Some x /\ p i x = true
  /\ forall k y, (k < i - j)%nat -> l !! k = Some y -> p (j + k)%nat y = false.
Proof.
  revert j. induction l as [|x l IH]; intros j H; cbn [findIndexFrom] in H.
  - done.
  - destruct (p j x) eqn:Hp.
    + injection H as <-. split; [lia|]. exists x.
      rewrite Nat.sub_diag. repeat split; [done|]. intros k y Hk. lia.
    + apply IH in H as (Hle & y & Hy & Hpy & Hbefore).
      split; [lia|]. exists y.
      replace (i - j)%nat with (S (i - S j)) by lia.
      repeat split; [done|done|].
      intros k z Hk Hz. destruct k as [|k].
      * injection Hz as <-. by rewrite Nat.add_0_r.
      * replace (j + S k)%nat with (S j + k)%nat by lia.
        apply Hbefore; [lia|done].
Qed.

Lemma findIndexFrom_None {A} (p : nat -> A -> bool) l j :
  findIndexFrom p l j = None ->
  forall k y, l !! k = Some y -> p (j + k)%nat y = false.
Proof.
  revert j. induction l as [|x l IH]; intros j H k y Hy; [done|].
  cbn [findIndexFrom] in H. destruct (p j x) eqn:Hp; [done|].
  destruct k as [|k].
  - injection Hy as <-. by rewrite Nat.add_0_r.
  - replace (j + S k)%nat with (S j + k)%nat by lia. by apply (IH (S j)).
Qed.

Lemma findIndex_Some {A} (p : A -> bool) l i :
  findIndex p l = Some i ->
  exists x, l !! i = Some x /\ p x = true
  /\ forall k y, (k < i)%nat -> l !! k = Some y -> p y = false.
Proof.
  intros H. apply findIndexFrom_Some in H as (_ & x & Hx & Hp & Hb).
  rewrite Nat.sub_0_r in *. eauto.
Qed.

Lemma findIndex_None {A} (p : A -> bool) l :
  findIndex p l = None -> forall k y, l !! k = Some y -> p y = false.
Proof. intros H k y. by apply (findIndexFrom_None _ _ _ H). Qed.

(** *** [patchLine]: what it replaces and what it leaves alone *)

Lemma setLine_length line ls : length (setLine line ls) = length ls.
Proof.
  unfold setLine. destruct (findLine _ _); [apply length_insert|done].
Qed.

Lemma setLine_other line ls i l :
  ls !! i = Some l -> line_id l <> line_id line ->
  setLine line ls !! i = Some l.
Proof.
  intros Hl Hne. unfold setLine.
  destruct (findLine _ _) as [idx|] eqn:E; [|done].
  apply findIndex_Some in E as (x & Hx & Hp & _).
  apply bool_decide_eq_true in Hp.
  rewrite list_lookup_insert_ne; [done|].
  intros ->. congruence.
Qed.

Lemma setLine_found line ls idx :
  findLine (line_id line) ls = Some idx ->
  setLine line ls !! idx = Some line.
Proof.
  intros E. unfold setLine. rewrite E.
  apply findIndex_Some in E as (x & Hx & _).
  apply list_lookup_insert_eq. by eapply lookup_lt_Some.
Qed.

Lemma patchLine_resume oid lid qty w0 res w data :
  ok res = true -> body res = BPatch data ->
  exists w',
    resume (patchLine oid lid qty w0) res w = Finished (Ok data) w'
    /\ state w' = patchBoard data (patchDetail data (state w))
    /\ intervals w' = intervals w.
Proof.
  intros Hok Hb. unfold patchLine.
  rewrite resume_bind, apiFetch_resume, (ok_not_401 _ Hok) by done.
  cbn [bindRun]. rewrite Hok. cbn [negb].
  unfold_prog. rewrite Hb. run_prog.
  destruct (findIndex _ (board _)); destruct (pd_order_completed_now data);
    run_prog; eexists; (split; [reflexivity|split; reflexivity]).
Qed.

Lemma patchBoard_fields data st :
  config (patchBoard data st) = config st
  /\ orderDetail (patchBoard data st) = orderDetail st
  /\ activeOrderId (patchBoard data st) = activeOrderId st
  /\ pollTimer (patchBoard data st) = pollTimer st.
Proof.
  unfold patchBoard. destruct (findOrder _ _); repeat split; reflexivity.
Qed.

Lemma patchDetail_fields data st :
  config (patchDetail data st) = config st
  /\ orders (patchDetail data st) = orders st
  /\ activeOrderId (patchDetail data st) = activeOrderId st
  /\ pollTimer (patchDetail data st) = pollTimer st.
Proof.
  unfold patchDetail. destruct (orderDetail st); repeat split; reflexivity.
Qed.

Lemma patchDetail_detail data st :
  orderDetail (patchDetail data st)
  = (fun dt => mkDetail (pd_order data) (setLine (pd_line data) (d_lines dt)))
      <$> orderDetail st.
Proof.
  unfold patchDetail. destruct (orderDetail st) eqn:E; [reflexivity|].
  by rewrite E.
Qed.

Lemma findOrder_Some id ws j :
  findOrder id ws = Some j ->
  exists wr o, ws !! j = Some wr /\ w_order wr = Some o /\ order_id o = id
  /\ forall k wr' o', (k < j)%nat -> ws !! k = Some wr' ->
       w_order wr' = Some o' -> order_id o' <> id.
Proof.
  intros H. apply findIndex_Some in H as (wr & Hwr & Hp & Hb).
  destruct (w_order wr) as [o|] eqn:Ho; [|done].
  apply bool_decide_eq_true in Hp.
  exists wr, o. repeat split; try done.
  intros k wr' o' Hk Hl Ho' Hid. specialize (Hb k wr' Hk Hl).
  rewrite Ho' in Hb. by apply bool_decide_eq_false in Hb.
Qed.


Lemma patchBoard_orders data st j wr :
  orders st !! j = Some wr ->
  exists wr',
    orders (patchBoard data st) !! j = Some wr'
    /\ length (w_lines wr') = length (w_lines wr)
    /\ (forall i l, w_lines wr !! i = Some l ->
          line_id l <> line_id (pd_line data) -> w_lines wr' !! i = Some l)
    /\ (order_id <$> w_order wr <> Some (order_id (pd_order data)) ->
        wr' = wr)
    /\ (findOrder (order_id (pd_order data)) (orders st) = Some j ->
        w_order wr' = Some (pd_order data)
        /\ forall idx, findLine (line_id (pd_line data)) (w_lines wr)
                       = Some idx ->
                       w_lines wr' !! idx = Some (pd_line data)).
Proof.
  intros Hj. unfold patchBoard.
  destruct (findOrder _ _) as [wIdx|] eqn:E.
  - destruct (findOrder_Some _ _ _ E) as (wr0 & o & Hw & Ho & Hid & _).
    cbn [orders set_orders]. destruct (decide (j = wIdx)) as [->|Hne].
    + rewrite Hw in Hj. injection Hj as ->.
      eexists. split; [by rewrite list_lookup_alter_eq, Hw|].
      cbn [w_lines w_order]. split; [apply setLine_length|].
      split; [by apply setLine_other|]. split.
      * rewrite Ho. cbn. congruence.
      * intros _. split; [done|]. intros idx. apply setLine_found.
    + exists wr. rewrite list_lookup_alter_ne by done.
      split; [done|]. split; [done|]. split; [done|]. split; [done|].
      intros [= ->]. done.
  - exists wr. split; [done|]. split; [done|]. split; [done|].
    split; [done|]. intros [=].
Qed.

Lemma patchBoard_length data st :
  length (orders (patchBoard data st)) = length (orders st).
Proof.
  unfold patchBoard. destruct (findOrder _ _); [|done].
  cbn [orders set_orders]. apply length_alter.
Qed.

Lemma findIndex_intro {A} (p : A -> bool) l i x :
  l !! i = Some x -> p x = true ->
  (forall k y, (k < i)%nat -> l !! k = Some y -> p y = false) ->
  findIndex p l = Some i.
Proof.
  intros Hx Hp Hb. destruct (findIndex p l) as [j|] eqn:E.
  - apply findIndex_Some in E as (y & Hy & Hpy & Hbj).
    destruct (lt_eq_lt_dec i j) as [[Hlt|Heq]|Hgt].
    + specialize (Hbj i x Hlt Hx). congruence.
    + by subst.
    + specialize (Hb j y Hgt Hy). congruence.
  - pose proof (findIndex_None _ _ E i x Hx). congruence.
Qed.

Lemma findOrder_replaced order ws wIdx (g : Wrapper -> list Line) :
  findOrder (order_id order) ws = Some wIdx ->
  findOrder (order_id order)
    (alter (fun w => mkWrapper (Some order) (g w)) wIdx ws) = Some wIdx.
Proof.
  intros E. apply findIndex_Some in E as (wr & Hw & Hp & Hb).
  apply (findIndex_intro _ _ wIdx (mkWrapper (Some order) (g wr))).
  - by rewrite list_lookup_alter_eq, Hw.
  - cbn [w_order]. by apply bool_decide_eq_true_2.
  - intros k y Hk Hy. rewrite list_lookup_alter_ne in Hy by lia.
    by apply (Hb k y Hk).
Qed.




(** *** Order Detail and Board Cache agree after a merge *)





(** *** Tearing the session down *)

Lemma logout_world w :
  exists w',
    logout w = Finished (Ok tt) w'
    /\ config (state w') = None /\ orders (state w') = []
    /\ orderDetail (state w') = None /\ activeOrderId (state w') = None
    /\ pollTimer (state w') = None
    /\ loginView_hidden (page w') = false
    /\ appView_hidden (page w') = true
    /\ orderView_hidden (page w') = true
    /\ intervals w' = match pollTimer (state w) with
                      | Some t => filter (fun x => x ≠ t) (intervals w)
                      | None => intervals w
                      end
    /\ nextTimer w' = nextTimer w /\ timeouts w' = timeouts w.
Proof.
  unfold logout, stopPolling. run_prog.
  cbn [pollTimer set_activeOrderId set_orderDetail set_orders set_config].
  destruct (pollTimer (state w)) eqn:E; run_prog;
    (eexists; split; [reflexivity|]);
    cbn [state page intervals nextTimer timeouts withState withPage
         set_pollTimer set_activeOrderId set_orderDetail set_orders
         set_config config orders orderDetail activeOrderId pollTimer
         set_hidden loginView_hidden appView_hidden orderView_hidden];
    rewrite ?E; repeat split; reflexivity.
Qed.

(** *** At most one poll timer *)

Lemma runInv_bind {A B} (r : Run A) (f : A -> P B) :
  runInv r -> (forall a, preserves (f a)) -> runInv (bindRun r f).
Proof.
  intros Hr Hf. induction r as [[a|e] w|req w k IH]; cbn [bindRun runInv] in *.
  - by apply Hf.
  - done.
  - destruct Hr as [Hw Hk]. split; [done|]. intros res w' Hw'.
    apply IH. by apply Hk.
Qed.

Lemma runInv_catch {A} (r : Run A) (h : Err -> P A) :
  runInv r -> (forall e, preserves (h e)) -> runInv (catchRun r h).
Proof.
  intros Hr Hh. induction r as [[a|e] w|req w k IH]; cbn [catchRun runInv] in *.
  - done.
  - by apply Hh.
  - destruct Hr as [Hw Hk]. split; [done|]. intros res w' Hw'.
    apply IH. by apply Hk.
Qed.

Lemma preserves_bind {A B} (p : P A) (f : A -> P B) :
  preserves p -> (forall a, preserves (f a)) -> preserves (p ≫= f).
Proof. intros Hp Hf w Hw. apply runInv_bind; [by apply Hp|done]. Qed.

Lemma preserves_ret {A} (a : A) : preserves (mret a).
Proof. intros w Hw. exact Hw. Qed.

Lemma preserves_throw {A} e : preserves (@throw A e).
Proof. intros w Hw. exact Hw. Qed.

Lemma preserves_tryCatch {A} (p : P A) h :
  preserves p -> (forall e, preserves (h e)) -> preserves (tryCatch p h).
Proof. intros Hp Hh w Hw. apply runInv_catch; [by apply Hp|done]. Qed.

Lemma preserves_ignoreErrors p : preserves p -> preserves (ignoreErrors p).
Proof.
  intros Hp. apply preserves_tryCatch; [done|]. intros _.
  apply preserves_ret.
Qed.

Lemma preserves_fetch req : preserves (fetch req).
Proof. intros w Hw. split; [done|]. intros res w' Hw'. exact Hw'. Qed.

Lemma preserves_getState : preserves getState.
Proof. intros w Hw. exact Hw. Qed.

Lemma preserves_getPage : preserves getPage.
Proof. intros w Hw. exact Hw. Qed.

Lemma preserves_modifyPage f : preserves (modifyPage f).
Proof. intros w Hw. exact Hw. Qed.

Lemma preserves_setTimeout : preserves setTimeout.
Proof. intros w Hw. exact Hw. Qed.

Lemma preserves_modifyState f :
  (forall st, pollTimer (f st) = pollTimer st) -> preserves (modifyState f).
Proof.
  intros Hf w Hw. unfold timerInv in *. cbn [modifyState runInv].
  unfold timerInv. cbn [withState state intervals]. by rewrite Hf.
Qed.

Lemma preserves_stopPolling : preserves stopPolling.
Proof.
  intros w Hw. unfold stopPolling. run_prog. unfold timerInv in Hw.
  destruct (pollTimer (state w)) as [t|] eqn:E; run_prog.
  - unfold runInv, timerInv. cbn [intervals state pollTimer set_pollTimer].
    rewrite Hw. cbn [filter list_filter]. rewrite decide_False; [done|].
    intros H. by apply H.
  - unfold runInv, timerInv. by rewrite E.
Qed.

Lemma startPolling_world w :
  timerInv w ->
  exists w', startPolling w = Finished (Ok tt) w'
             /\ intervals w' = [nextTimer w]
             /\ pollTimer (state w') = Some (nextTimer w)
             /\ activeOrderId (state w') = activeOrderId (state w).
Proof.
  intros Hw. unfold startPolling, stopPolling. run_prog. unfold timerInv in Hw.
  destruct (pollTimer (state w)) as [t|] eqn:E; run_prog;
    (eexists; split; [reflexivity|]);
    cbn [intervals state pollTimer set_pollTimer activeOrderId];
    rewrite Hw; repeat split; try reflexivity.
  cbn [filter list_filter]. rewrite decide_False; [done|].
  intros H. by apply H.
Qed.

Lemma preserves_startPolling : preserves startPolling.
Proof.
  intros w Hw. destruct (startPolling_world w Hw) as (w' & -> & Hi & Hp & _).
  unfold runInv, timerInv. by rewrite Hi, Hp.
Qed.

Lemma pollTimer_patchDetail data st :
  pollTimer (patchDetail data st) = pollTimer st.
Proof. apply patchDetail_fields. Qed.

Lemma pollTimer_patchBoard data st :
  pollTimer (patchBoard data st) = pollTimer st.
Proof. apply patchBoard_fields. Qed.

Lemma pollTimer_setBoardOrder order st :
  pollTimer (setBoardOrder order st) = pollTimer st.
Proof. unfold setBoardOrder. destruct (findOrder _ _); reflexivity. Qed.

Ltac pres :=
  repeat first
    [ assumption
    | apply preserves_ret
    | apply preserves_throw
    | apply preserves_fetch
    | apply preserves_getState
    | apply preserves_getPage
    | apply preserves_modifyPage
    | apply preserves_setTimeout
    | apply preserves_stopPolling
    | apply preserves_startPolling
    | apply preserves_modifyState; intros ?;
      first [ reflexivity | apply pollTimer_patchDetail
            | apply pollTimer_patchBoard | apply pollTimer_setBoardOrder ]
    | apply preserves_ignoreErrors
    | apply preserves_tryCatch; [|intros ?]
    | apply preserves_bind; [|intros ?]
    | match goal with
      | |- preserves (if ?b then _ else _) => destruct b
      | |- preserves (match ?x with _ => _ end) => destruct x
      end
    | progress unfold show, hide, showComplete, hideComplete,
        updateOrderDetailHeader, updateOrderCardOnBoard, updateLineUI,
        renderBoard, renderOrderDetail, json_patch, json_order, json_orders,
        json_detail, json_config, json_any ].

Lemma preserves_logout : preserves logout.
Proof. unfold logout. pres. Qed.

Lemma preserves_apiFetch req : preserves (apiFetch req).
Proof. unfold apiFetch. pres; try apply preserves_logout. Qed.

Lemma preserves_loadConfig : preserves loadConfig.
Proof. unfold loadConfig. pres; try apply preserves_apiFetch. Qed.

Lemma preserves_login pwd : preserves (login pwd).
Proof. unfold login. pres. Qed.

Lemma preserves_syncNow : preserves syncNow.
Proof. unfold syncNow. pres; try apply preserves_apiFetch. Qed.

Lemma preserves_loadOrders : preserves loadOrders.
Proof. unfold loadOrders. pres; try apply preserves_apiFetch. Qed.

Lemma preserves_loadOrderDetail id : preserves (loadOrderDetail id).
Proof. unfold loadOrderDetail. pres; try apply preserves_apiFetch. Qed.

Lemma preserves_closeOrderView : preserves closeOrderView.
Proof. unfold closeOrderView. pres. Qed.

Lemma preserves_autoClose : preserves autoClose.
Proof.
  unfold autoClose. pres;
    try first [apply preserves_closeOrderView | apply preserves_loadOrders].
Qed.

Lemma preserves_patchLine oid lid qty : preserves (patchLine oid lid qty).
Proof. unfold patchLine. pres; try apply preserves_apiFetch. Qed.

Lemma preserves_completeOrder : preserves completeOrder.
Proof. unfold completeOrder. pres; try apply preserves_apiFetch. Qed.

Lemma preserves_pollTick : preserves pollTick.
Proof. unfold pollTick. pres; try apply preserves_loadOrders. Qed.

Lemma preserves_openOrder id : preserves (openOrder id).
Proof.
  unfold openOrder. pres;
    try first [apply preserves_apiFetch | apply preserves_loadOrderDetail].
Qed.

Lemma preserves_bootApp : preserves bootApp.
Proof.
  unfold bootApp. pres;
    try first [ apply preserves_loadConfig | apply preserves_loadOrders
          | apply preserves_logout | apply preserves_syncNow ].
Qed.

Lemma preserves_onLoginClick pwd : preserves (onLoginClick pwd).
Proof.
  unfold onLoginClick. pres;
    try first [apply preserves_login | apply preserves_bootApp].
Qed.

Lemma preserves_onRefreshClick : preserves onRefreshClick.
Proof.
  unfold onRefreshClick. pres;
    try first [apply preserves_syncNow | apply preserves_loadOrders].
Qed.

Lemma preserves_onFillClick line : preserves (onFillClick line).
Proof. unfold onFillClick. pres; try apply preserves_patchLine. Qed.

Lemma preserves_onMinusClick line : preserves (onMinusClick line).
Proof. unfold onMinusClick. pres; try apply preserves_patchLine. Qed.

Lemma preserves_onPlusClick line : preserves (onPlusClick line).
Proof. unfold onPlusClick. pres; try apply preserves_patchLine. Qed.

Lemma settle_inv r tasks reqs :
  runInv r ->
  Forall (fun k => forall res w, timerInv w -> runInv (k res w)) tasks ->
  sysInv (settle r tasks reqs).
Proof.
  intros Hr Ht. destruct r as [x w|req w k]; cbn [settle runInv] in *.
  - by split.
  - destruct Hr as [Hw Hk]. split; [done|].
    cbn [pending]. apply Forall_app. split; [done|].
    by apply Forall_singleton.
Qed.

Lemma start_inv h s : preserves h -> sysInv s -> sysInv (start h s).
Proof.
  intros Hh [Hw Hp]. unfold start. apply settle_inv; [by apply Hh|done].
Qed.

Lemma exec_inv ev s : sysInv s -> sysInv (exec ev s).
Proof.
  intros Hs. destruct ev; cbn [exec].
  - apply start_inv; [apply preserves_onLoginClick|done].
  - apply start_inv; [apply preserves_logout|done].
  - apply start_inv; [apply preserves_onRefreshClick|done].
  - apply start_inv; [apply preserves_openOrder|done].
  - apply start_inv; [apply preserves_closeOrderView|done].
  - apply start_inv; [apply preserves_completeOrder|done].
  - apply start_inv; [apply preserves_onFillClick|done].
  - apply start_inv; [apply preserves_onMinusClick|done].
  - apply start_inv; [apply preserves_onPlusClick|done].
  - destruct (bool_decide _); [|done].
    apply start_inv; [apply preserves_pollTick|done].
  - destruct (timeouts (world s)) eqn:E; [done|].
    destruct Hs as [Hw Hp]. apply settle_inv; [|done].
    apply preserves_autoClose. exact Hw.
  - destruct (pending s !! i) as [k|] eqn:E; [|done].
    destruct Hs as [Hw Hp]. apply settle_inv.
    + rewrite Forall_lookup in Hp. by apply (Hp i k E).
    + by apply Forall_delete.
Qed.

Lemma init_inv : sysInv init.
Proof.
  unfold init. apply start_inv; [apply preserves_logout|].
  split; [reflexivity|]. apply Forall_nil_2.
Qed.

Lemma reachable_inv s : reachable s -> sysInv s.
Proof.
  induction 1 as [|s ev _ IH]; [apply init_inv|by apply exec_inv].
Qed.

Lemma stopPolling_world w :
  timerInv w ->
  exists w', stopPolling w = Finished (Ok tt) w'
             /\ intervals w' = [] /\ pollTimer (state w') = None
             /\ nextTimer w' = nextTimer w.
Proof.
  intros Hw. unfold stopPolling. run_prog. unfold timerInv in Hw.
  destruct (pollTimer (state w)) as [t|] eqn:E; run_prog;
    (eexists; split; [reflexivity|]);
    cbn [intervals state pollTimer set_pollTimer nextTimer];
    rewrite ?Hw, ?E; repeat split; try reflexivity.
  cbn [filter list_filter]. rewrite decide_False; [done|].
  intros H. by apply H.
Qed.

Lemma openOrder_world id w :
  timerInv w -> intervals (worldOf (openOrder id w)) = [].
Proof.
  intros Hw. destruct (stopPolling_world w Hw) as (w' & Hs & Hi & _).
  unfold openOrder.
  unfold mbind at 1, P_bind at 1. rewrite Hs. cbn [bindRun].
  unfold mbind at 1, P_bind at 1, ignoreErrors, tryCatch.
  unfold mbind at 1, P_bind at 1, apiFetch.
  unfold mbind at 1, P_bind at 1, fetch.
  cbn [bindRun catchRun worldOf]. exact Hi.
Qed.

Lemma closeOrderView_world w :
  timerInv w ->
  exists t, intervals (worldOf (closeOrderView w)) = [t]
            /\ activeOrderId (state (worldOf (closeOrderView w))) = None.
Proof.
  intros Hw. unfold closeOrderView. run_prog.
  set (w1 := withPage _ _).
  assert (H1 : timerInv w1) by exact Hw.
  destruct (startPolling_world w1 H1) as (w' & Hs & Hi & _ & Ha).
  change (bindRun (stopPolling w1) _) with (startPolling w1).
  rewrite Hs. cbn [worldOf]. exists (nextTimer w1). split; [done|].
  rewrite Ha. reflexivity.
Qed.

End StoreFacts.

(* ===================================================================== *)
(** * Facts about the line elements *)
(* ===================================================================== *)

Section LineElFacts.

Lemma findIndexFrom_ext {A} (p p' : nat -> A -> bool) l k :
  (forall j x, l !! j = Some x -> p (k + j)%nat x = p' (k + j)%nat x) ->
  findIndexFrom p l k = findIndexFrom p' l k.
Proof.
  revert k. induction l as [|x l IH]; intros k H; [done|].
  cbn [findIndexFrom].
  pose proof (H 0%nat x eq_refl) as H0. rewrite Nat.add_0_r in H0.
  rewrite H0. destruct (p' k x); [done|]. apply IH.
  intros j y Hy. replace (S k + j)%nat with (k + S j)%nat by lia.
  by apply H.
Qed.

Lemma findIndexFrom_S {A} (q : A -> bool) l k :
  findIndexFrom (fun _ => q) l (S k) = S <$> findIndexFrom (fun _ => q) l k.
Proof.
  revert k. induction l as [|x l IH]; intros k; [done|].
  cbn [findIndexFrom]. destruct (q x); [done|]. apply IH.
Qed.

Lemma findIndexFrom_ge {A} (p : nat -> A -> bool) l k j :
  findIndexFrom p l k = Some j -> (k <= j)%nat.
Proof. intros H. by apply findIndexFrom_Some in H as [? _]. Qed.

Lemma findIndexFrom_skip {A} (q : A -> bool) l i k :
  (k <= i)%nat ->
  findIndexFrom (fun j x => bool_decide (j ≠ i) && q x) l k
  = unskip i <$> findIndexFrom (fun _ => q) (delete (i - k)%nat l) k.
Proof.
  revert k. induction l as [|x l IH]; intros k Hk.
  - by destruct (i - k)%nat.
  - cbn [findIndexFrom]. destruct (decide (k = i)) as [->|Hne].
    + rewrite Nat.sub_diag. cbn [delete list_delete].
      rewrite bool_decide_eq_false_2 by (intros H; by apply H).
      cbn [andb].
      rewrite (findIndexFrom_ext _ (fun _ => q)).
      2:{ intros j y _. rewrite bool_decide_eq_true_2 by lia. done. }
      rewrite findIndexFrom_S.
      destruct (findIndexFrom (fun _ => q) l i) as [j|] eqn:E; [|done].
      apply findIndexFrom_ge in E. cbn. unfold unskip.
      replace (j <? i)%nat with false by (symmetry; apply Nat.ltb_ge; lia).
      done.
    + rewrite bool_decide_eq_true_2 by done. cbn [andb].
      replace (i - k)%nat with (S (i - S k)) by lia.
      cbn [delete list_delete findIndexFrom].
      destruct (q x).
      * cbn. unfold unskip.
        replace (k <? i)%nat with true by (symmetry; apply Nat.ltb_lt; lia).
        done.
      * apply IH. lia.
Qed.

Lemma findIndex_skip {A} (q : A -> bool) l i x :
  l !! i = Some x -> q x = false ->
  findIndex q l = unskip i <$> findIndex q (delete i l).
Proof.
  intros Hx Hq. unfold findIndex.
  replace (delete i l) with (delete (i - 0)%nat l) by (by rewrite Nat.sub_0_r).
  rewrite <- findIndexFrom_skip by lia.
  apply findIndexFrom_ext. intros j y Hy. cbn.
  destruct (decide (j = i)) as [->|Hne].
  - rewrite Hx in Hy. injection Hy as <-.
    rewrite Hq. by rewrite andb_false_r.
  - by rewrite bool_decide_eq_true_2.
Qed.

Lemma insertBefore_unskip {A} (l : list A) i j' x :
  l !! i = Some x ->
  insertBefore i (unskip i j') l = insertAt j' x (delete i l).
Proof.
  intros Hx. unfold insertBefore, unskip, insertAt. rewrite Hx.
  destruct (j' <? i)%nat eqn:E.
  - apply Nat.ltb_lt in E. rewrite decide_False by lia.
    rewrite decide_False by lia. done.
  - apply Nat.ltb_ge in E. rewrite decide_False by lia.
    rewrite decide_True by lia. done.
Qed.

(** [moveLineToIncompletePosition] in terms of the other children. *)
Lemma moveLineToIncompletePosition_rest l i x :
  l !! i = Some x -> el_group x = Incomplete ->
  let rest := delete i l in
  moveLineToIncompletePosition i l =
    match findIndex (fun el => bool_decide (el_group el = Incomplete)
                               && (el_sortIndex x <? el_sortIndex el)) rest
    with
    | Some j => insertAt j x rest
    | None =>
        match firstOfGroup Complete rest with
        | Some j => insertAt j x rest
        | None =>
            match firstOfGroup Removed rest with
            | Some j => insertAt j x rest
            | None => rest ++ [x]
            end
        end
    end.
Proof.
  intros Hx Hg rest. unfold moveLineToIncompletePosition. rewrite Hx.
  rewrite (findIndexFrom_ext _
    (fun j el => bool_decide (j ≠ i)
                 && (bool_decide (el_group el = Incomplete)
                     && (el_sortIndex x <? el_sortIndex el)))).
  2:{ intros j y _. by rewrite andb_assoc. }
  rewrite findIndexFrom_skip by lia. rewrite Nat.sub_0_r.
  fold (findIndex (fun el => bool_decide (el_group el = Incomplete)
                             && (el_sortIndex x <? el_sortIndex el))
          (delete i l)).
  fold rest. destruct (findIndex _ rest) as [j|]; cbn [fmap option_fmap option_map].
  { by apply insertBefore_unskip. }
  unfold firstOfGroup.
  rewrite (findIndex_skip _ l i x Hx)
    by (rewrite Hg; by apply bool_decide_eq_false_2).
  fold rest. destruct (findIndex _ rest) as [j|];
    cbn [fmap option_fmap option_map].
  { by apply insertBefore_unskip. }
  rewrite (findIndex_skip _ l i x Hx)
    by (rewrite Hg; by apply bool_decide_eq_false_2).
  fold rest. destruct (findIndex _ rest) as [j|];
    cbn [fmap option_fmap option_map].
  { by apply insertBefore_unskip. }
  unfold appendChild. by rewrite Hx.
Qed.

Lemma findIndex_nil {A} (p : A -> bool) : findIndex p [] = None.
Proof. reflexivity. Qed.

Lemma findIndex_cons {A} (p : A -> bool) x l :
  findIndex p (x :: l) = if p x then Some 0%nat else S <$> findIndex p l.
Proof.
  unfold findIndex. cbn [findIndexFrom]. destruct (p x); [done|].
  apply findIndexFrom_S.
Qed.

Lemma findIndex_all_false {A} (p : A -> bool) l :
  Forall (fun x => p x = false) l -> findIndex p l = None.
Proof.
  induction 1 as [|x l Hx _ IH]; [done|].
  by rewrite findIndex_cons, Hx, IH.
Qed.

Lemma findIndex_app {A} (p : A -> bool) l1 l2 :
  findIndex p (l1 ++ l2)
  = match findIndex p l1 with
    | Some j => Some j
    | None => (fun j => (length l1 + j)%nat) <$> findIndex p l2
    end.
Proof.
  induction l1 as [|x l1 IH]; cbn [app length].
  - rewrite findIndex_nil. by destruct (findIndex p l2).
  - rewrite !findIndex_cons. destruct (p x); [done|]. rewrite IH.
    destruct (findIndex p l1); [done|]. by destruct (findIndex p l2).
Qed.

Lemma findIndex_first {A} (p : A -> bool) l1 x l2 :
  Forall (fun y => p y = false) l1 -> p x = true ->
  findIndex p (l1 ++ x :: l2) = Some (length l1).
Proof.
  intros H1 Hx. rewrite findIndex_app, (findIndex_all_false p l1) by done.
  rewrite findIndex_cons, Hx. cbn. by rewrite Nat.add_0_r.
Qed.

Lemma delete_insert_same {A} (l : list A) i x :
  delete i (<[i := x]> l) = delete i l.
Proof.
  revert i. induction l as [|y l IH]; intros [|i]; cbn; try done.
  by rewrite IH.
Qed.

Lemma delete_app_ge {A} (l1 l2 : list A) i :
  (length l1 <= i)%nat ->
  delete i (l1 ++ l2) = l1 ++ delete (i - length l1)%nat l2.
Proof.
  revert i. induction l1 as [|y l1 IH]; intros i Hi; cbn [app length] in *.
  - by rewrite Nat.sub_0_r.
  - destruct i as [|i]; [lia|]. cbn [delete list_delete]. rewrite IH by lia.
    done.
Qed.

Lemma tail_delete comp rem k :
  Forall (fun el => el_group el = Complete) comp ->
  Forall (fun el => el_group el = Removed) rem ->
  exists comp' rem',
    delete k (comp ++ rem) = comp' ++ rem'
    /\ Forall (fun el => el_group el = Complete) comp'
    /\ Forall (fun el => el_group el = Removed) rem'.
Proof.
  intros Hc Hr. destruct (decide (k < length comp)%nat).
  - exists (delete k comp), rem. split.
    + revert k l. clear Hc. induction comp as [|y comp IH]; intros k Hk;
        cbn [length app] in *; [lia|].
      destruct k as [|k]; [done|]. cbn [delete list_delete].
      rewrite IH by lia. done.
    + split; [by apply Forall_delete|done].
  - exists comp, (delete (k - length comp)%nat rem). split.
    + apply delete_app_ge. lia.
    + split; [done|by apply Forall_delete].
Qed.

Lemma insert_position inc comp' rem' x :
  Forall (fun el => el_group el = Incomplete /\ el_done el = false) inc ->
  Forall (fun el => el_group el = Complete) comp' ->
  Forall (fun el => el_group el = Removed) rem' ->
  StronglySorted bySortIndex inc ->
  el_group x = Incomplete ->
  let rest := inc ++ comp' ++ rem' in
  exists inc1 inc2,
    inc = inc1 ++ inc2
    /\ match findIndex (fun el => bool_decide (el_group el = Incomplete)
                                  && (el_sortIndex x <? el_sortIndex el)) rest
       with
       | Some j => insertAt j x rest
       | None =>
           match firstOfGroup Complete rest with
           | Some j => insertAt j x rest
           | None =>
               match firstOfGroup Removed rest with
               | Some j => insertAt j x rest
               | None => rest ++ [x]
               end
           end
       end = inc1 ++ x :: inc2 ++ comp' ++ rem'
    /\ Forall (fun el => el_sortIndex el <= el_sortIndex x) inc1
    /\ Forall (fun el => el_sortIndex x < el_sortIndex el) inc2.
Proof.
  intros Hi Hc Hr Hs Hx rest.
  set (q := fun el => bool_decide (el_group el = Incomplete)
                      && (el_sortIndex x <? el_sortIndex el)).
  assert (Hq_tail : Forall (fun el => q el = false) (comp' ++ rem')).
  { apply Forall_app. split.
    - eapply Forall_impl; [exact Hc|]. intros el He. unfold q.
      rewrite bool_decide_eq_false_2; [done|]. by rewrite He.
    - eapply Forall_impl; [exact Hr|]. intros el He. unfold q.
      rewrite bool_decide_eq_false_2; [done|]. by rewrite He. }
  assert (Hinc_c : Forall (fun el => bool_decide (el_group el = Complete)
                                     = false) inc).
  { eapply Forall_impl; [exact Hi|]. intros el [He _].
    apply bool_decide_eq_false_2. by rewrite He. }
  assert (Hinc_r : Forall (fun el => bool_decide (el_group el = Removed)
                                     = false) inc).
  { eapply Forall_impl; [exact Hi|]. intros el [He _].
    apply bool_decide_eq_false_2. by rewrite He. }
  subst rest. rewrite findIndex_app.
  destruct (findIndex q inc) as [j|] eqn:E.
  - (* an incomplete line with a larger sort index exists *)
    apply findIndex_Some in E as (y & Hy & Hqy & Hbefore).
    exists (take j inc), (drop j inc).
    split; [by rewrite take_drop|].
    assert (Hj : (j < length inc)%nat) by (by eapply lookup_lt_Some).
    split.
    { unfold insertAt. by rewrite take_app_le, drop_app_le by lia. }
    split.
    + apply Forall_forall. intros z Hz.
      apply list_elem_of_lookup in Hz as [k Hk].
      apply lookup_take_Some in Hk as [Hk Hkj].
      specialize (Hbefore k z Hkj Hk). unfold q in Hbefore.
      rewrite Forall_forall in Hi.
      destruct (Hi z) as [Hg _]; [by eapply list_elem_of_lookup_2|].
      rewrite bool_decide_eq_true_2 in Hbefore by done.
      cbn [andb] in Hbefore. apply Z.ltb_ge in Hbefore. done.
    + unfold q in Hqy. apply andb_true_iff in Hqy as [_ Hlt].
      apply Z.ltb_lt in Hlt.
      rewrite <- (take_drop j inc) in Hs.
      apply StronglySorted_app in Hs as (_ & _ & Hs).
      rewrite (drop_S _ y) in * by done.
      apply StronglySorted_cons in Hs as [Hall _].
      apply Forall_cons. split; [done|].
      eapply Forall_impl; [exact Hall|]. unfold bySortIndex.
      intros z Hz. cbv beta in Hz. lia.
  - (* none: the line goes right after the incomplete group *)
    rewrite (findIndex_all_false q (comp' ++ rem')) by done.
    cbn [fmap option_fmap option_map].
    exists inc, []. split; [by rewrite app_nil_r|].
    split.
    { unfold firstOfGroup. destruct comp' as [|c comp'].
      - cbn [app]. destruct rem' as [|r rem'].
        + rewrite app_nil_r.
          rewrite !(findIndex_all_false _ inc) by done. done.
        + rewrite (findIndex_all_false _ (inc ++ r :: rem')).
          2:{ apply Forall_app. split; [done|].
              eapply Forall_impl; [exact Hr|]. intros el He.
              apply bool_decide_eq_false_2. by rewrite He. }
          apply Forall_cons in Hr as [Hr0 _].
          rewrite (findIndex_first _ inc r rem') by
            (done || by apply bool_decide_eq_true_2).
          unfold insertAt. by rewrite take_app_length, drop_app_length.
      - cbn [app]. apply Forall_cons in Hc as [Hc0 _].
        rewrite (findIndex_first _ inc c (comp' ++ rem')) by
          (done || by apply bool_decide_eq_true_2).
        unfold insertAt. by rewrite take_app_length, drop_app_length. }
    split; [|apply Forall_nil_2].
    apply Forall_forall. intros z Hz.
    apply list_elem_of_lookup in Hz as [k Hk].
    pose proof (findIndex_None _ _ E k z Hk) as Hqz. unfold q in Hqz.
    rewrite Forall_forall in Hi.
    destruct (Hi z) as [Hg _]; [by eapply list_elem_of_lookup_2|].
    rewrite bool_decide_eq_true_2 in Hqz by done.
    cbn [andb] in Hqz. apply Z.ltb_ge in Hqz. done.
Qed.

Lemma updateLineEls_undone inc comp rem line i el :
  Layout inc comp rem ->
  let l := inc ++ comp ++ rem in
  findIndex (fun x => bool_decide (el_lineId x = idStr (line_id line))) l
  = Some i ->
  l !! i = Some el -> el_done el = true ->
  isLineDone line = false -> is_removed line = false ->
  let el' := mkLineEl (el_lineId el) (intOr0 (sort_index line)) false
               Incomplete line in
  exists inc1 inc2 comp' rem',
    inc = inc1 ++ inc2
    /\ delete (i - length inc)%nat (comp ++ rem) = comp' ++ rem'
    /\ updateLineEls line l = (inc1 ++ el' :: inc2) ++ comp' ++ rem'
    /\ Forall (fun x => el_sortIndex x <= el_sortIndex el') inc1
    /\ Forall (fun x => el_sortIndex el' < el_sortIndex x) inc2
    /\ Layout (inc1 ++ el' :: inc2) comp' rem'.
Proof.
  intros [Hi Hc Hr Hs] l Hfind Hl Hdone Hnow Hrm el'.
  assert (Hge : (length inc <= i)%nat).
  { destruct (decide (length inc <= i)%nat); [done|]. exfalso.
    subst l. rewrite lookup_app_l in Hl by lia.
    rewrite Forall_forall in Hi.
    destruct (Hi el) as [_ Hd]; [by eapply list_elem_of_lookup_2|].
    congruence. }
  assert (Hlt : (i < length l)%nat) by (by eapply lookup_lt_Some).
  destruct (tail_delete comp rem (i - length inc)%nat Hc Hr)
    as (comp' & rem' & Htail & Hc' & Hr').
  assert (Hrest : delete i (<[i := el']> l) = inc ++ comp' ++ rem').
  { rewrite delete_insert_same. subst l.
    rewrite delete_app_ge by done. by rewrite Htail. }
  assert (Hup : updateLineEls line l
                = moveLineToIncompletePosition i (<[i := el']> l)).
  { unfold updateLineEls. fold l. rewrite Hfind, Hl, Hdone, Hnow, Hrm.
    reflexivity. }
  rewrite Hup.
  rewrite (moveLineToIncompletePosition_rest _ i el');
    [|by apply list_lookup_insert_eq|done].
  cbv zeta. rewrite Hrest.
  destruct (insert_position inc comp' rem' el' Hi Hc' Hr' Hs eq_refl)
    as (inc1 & inc2 & Hsplit & Hres & H1 & H2).
  cbv zeta in Hres. exists inc1, inc2, comp', rem'.
  split; [done|]. split; [done|].
  split; [by rewrite Hres, <- app_assoc|].
  split; [done|]. split; [done|].
  subst inc. apply Forall_app in Hi as [Hi1 Hi2].
  apply StronglySorted_app in Hs as (H12 & Hs1 & Hs2).
  split; [|done|done|].
  - apply Forall_app. split; [done|]. apply Forall_cons. by split.
  - apply StronglySorted_app. split; [|split; [done|]].
    + intros a b Ha Hb. apply elem_of_cons in Hb as [->|Hb].
      * rewrite Forall_forall in H1. by apply H1.
      * by apply H12.
    + apply StronglySorted_cons. split; [|done].
      eapply Forall_impl; [exact H2|]. unfold bySortIndex.
      intros z Hz. cbv beta in Hz. lia.
Qed.

(** *** What [renderOrderDetail] lays out *)

Lemma insertBySort_Forall (P : Line -> Prop) x l :
  P x -> Forall P l -> Forall P (insertBySort x l).
Proof.
  intros Hx. induction 1 as [|y l Hy Hl IH]; cbn [insertBySort].
  - by apply Forall_singleton.
  - destruct (_ <=? _); repeat (apply Forall_cons; split); done.
Qed.

Lemma sortBySort_Forall (P : Line -> Prop) l :
  Forall P l -> Forall P (sortBySort l).
Proof.
  unfold sortBySort. induction 1 as [|x l Hx Hl IH]; cbn [foldr]; [done|].
  by apply insertBySort_Forall.
Qed.

Lemma insertBySort_sorted x l :
  StronglySorted byKey l -> StronglySorted byKey (insertBySort x l).
Proof.
  induction l as [|y l IH]; intros Hs; cbn [insertBySort].
  - apply StronglySorted_cons. split; [apply Forall_nil_2|done].
  - apply StronglySorted_cons in Hs as [Hy Hs].
    destruct (_ <=? _) eqn:E.
    + apply Z.leb_le in E. apply StronglySorted_cons. split.
      * apply Forall_cons. split; [done|].
        eapply Forall_impl; [exact Hy|]. unfold byKey. intros z Hz.
        cbv beta in Hz. lia.
      * apply StronglySorted_cons. by split.
    + apply Z.leb_gt in E. apply StronglySorted_cons. split; [|by apply IH].
      apply insertBySort_Forall; [unfold byKey; lia|done].
Qed.

Lemma sortBySort_sorted l : StronglySorted byKey (sortBySort l).
Proof.
  unfold sortBySort. induction l as [|x l IH]; cbn [foldr].
  - apply SSorted_nil.
  - by apply insertBySort_sorted.
Qed.

Lemma renderLine_sorted l :
  StronglySorted byKey l -> StronglySorted bySortIndex (renderLine <$> l).
Proof.
  induction 1 as [|x l Hs IH Hx]; cbn [fmap list_fmap].
  - apply SSorted_nil.
  - apply SSorted_cons; [done|]. apply Forall_fmap.
    eapply Forall_impl; [exact Hx|]. intros z Hz. exact Hz.
Qed.

Lemma renderOrderDetail_layout w dt :
  orderDetail (state w) = Some dt ->
  exists w' inc comp rem,
    renderOrderDetail w = Finished (Ok tt) w'
    /\ orderLines (page w') = inc ++ comp ++ rem
    /\ Layout inc comp rem.
Proof.
  intros Hd. unfold renderOrderDetail. run_prog. rewrite Hd. run_prog.
  eexists _, _, _, _. split; [reflexivity|].
  split.
  { cbn [orderLines set_hidden set_orderLines withPage page].
    rewrite !fmap_app. reflexivity. }
  split.
  - apply Forall_fmap, sortBySort_Forall, Forall_forall.
    intros x Hx. apply list_elem_of_filter in Hx as [[Hr Hdn] _].
    unfold renderLine. cbn [el_group el_done compose]. rewrite Hr, Hdn. done.
  - apply Forall_fmap, sortBySort_Forall, Forall_forall.
    intros x Hx. apply list_elem_of_filter in Hx as [[Hr Hdn] _].
    unfold renderLine. cbn [el_group el_done compose]. rewrite Hr, Hdn. done.
  - apply Forall_fmap, sortBySort_Forall, Forall_forall.
    intros x Hx. apply list_elem_of_filter in Hx as [Hr _].
    unfold renderLine. cbn [el_group el_done compose]. rewrite Hr. done.
  - apply renderLine_sorted, sortBySort_sorted.
Qed.

End LineElFacts.

(* ===================================================================== *)
(** * The properties of the specification *)
(* ===================================================================== *)

Section Claims.

Import Num.










(** C4.  For every store state and every authoritative order+line
    response: applying the response of a line patch for line X leaves
    config, active order id and poll timer as they are; in Order Detail it
    replaces the order and the line with X's id and leaves every other line
    in place and unchanged; in the Board Cache it leaves every entry of
    another order unchanged, and in an entry of that order every other
    preview line unchanged; the first entry of that order receives the
    order and the line. *)
Theorem C4_patchLine_frame oid lid qty w0 res w data :
  ok res = true -> body res = BPatch data ->
  exists w',
    resume (patchLine oid lid qty w0) res w = Finished (Ok data) w'
    /\ config (state w') = config (state w)
    /\ activeOrderId (state w') = activeOrderId (state w)
    /\ pollTimer (state w') = pollTimer (state w)
    /\ match orderDetail (state w) with
       | None => orderDetail (state w') = None
       | Some dt =>
           exists dt',
             orderDetail (state w') = Some dt'
             /\ d_order dt' = pd_order data
             /\ length (d_lines dt') = length (d_lines dt)
             /\ (forall i l, d_lines dt !! i = Some l ->
                   line_id l <> line_id (pd_line data) ->
                   d_lines dt' !! i = Some l)
             /\ (forall idx,
                   findLine (line_id (pd_line data)) (d_lines dt) = Some idx ->
                   d_lines dt' !! idx = Some (pd_line data))
       end
    /\ length (orders (state w')) = length (orders (state w))
    /\ forall j wr,
         orders (state w) !! j = Some wr ->
         exists wr',
           orders (state w') !! j = Some wr'
           /\ length (w_lines wr') = length (w_lines wr)
           /\ (forall i l, w_lines wr !! i = Some l ->
                 line_id l <> line_id (pd_line data) ->
                 w_lines wr' !! i = Some l)
           /\ (order_id <$> w_order wr <> Some (order_id (pd_order data)) ->
               wr' = wr)
           /\ (findOrder (order_id (pd_order data)) (orders (state w))
               = Some j ->
               w_order wr' = Some (pd_order data)
               /\ forall idx,
                    findLine (line_id (pd_line data)) (w_lines wr) = Some idx ->
                    w_lines wr' !! idx = Some (pd_line data)).
Proof.
  intros Hok Hb.
  destruct (patchLine_resume oid lid qty w0 res w data Hok Hb)
    as (w' & Hrun & Hst & _).
  exists w'. split; [done|]. rewrite Hst.
  destruct (patchBoard_fields data (patchDetail data (state w)))
    as (Hc & Hd & Ha & Hp).
  destruct (patchDetail_fields data (state w)) as (Hc' & Ho' & Ha' & Hp').
  split; [congruence|]. split; [congruence|]. split; [congruence|].
  split.
  { rewrite Hd, patchDetail_detail.
    destruct (orderDetail (state w)) as [dt|]; [|done].
    eexists. split; [reflexivity|]. cbn [d_order d_lines].
    split; [done|]. split; [apply setLine_length|].
    split; [by apply setLine_other|apply setLine_found]. }
  split; [by rewrite patchBoard_length, Ho'|].
  intros j wr Hj. rewrite <- Ho' in Hj.
  destruct (patchBoard_orders data (patchDetail data (state w)) j wr Hj)
    as (wr' & H1 & H2 & H3 & H4 & H5).
  exists wr'. rewrite <- Ho'. done.
Qed.

Lemma C4_patchLine_frame_witness :
  exists w',
    resume (patchLine (Some (IdNum 7)) (IdNum 2) (ofZ 5) sampleWorld)
      (mkResponse 200 (BPatch samplePatch)) sampleWorld
    = Finished (Ok samplePatch) w'
    /\ orders (state w') !! 1%nat = orders sampleState !! 1%nat
    /\ (d_lines <$> orderDetail (state w'))
       = Some [sampleLine 1 5 1; sampleLine 2 5 2].
Proof.
  destruct (C4_patchLine_frame (Some (IdNum 7)) (IdNum 2) (ofZ 5) sampleWorld
              (mkResponse 200 (BPatch samplePatch)) sampleWorld samplePatch
              eq_refl eq_refl) as (w' & Hrun & _).
  exists w'. split; [exact Hrun|].
  vm_compute in Hrun. injection Hrun as <-. vm_compute. done.
Defined.




(** C7.  For every request issued through [apiFetch] and every state of
    the session when its response arrives: on a 401 response the config,
    the Board Cache, Order Detail and the active order id are cleared, the
    poll timer recorded in the state is cancelled and forgotten (so no
    interval timer is live, by the invariant of C8), the login view is
    shown and the application and order views are hidden; only then is
    the error thrown, and the rest of the calling function is not run. *)
Theorem C7_unauthorized_tears_down req w0 res w :
  status res = 401 ->
  exists w',
    resume (apiFetch req w0) res w = Finished (Throw Unauthorized) w'
    /\ (forall B (f : Response -> P B),
          resume ((apiFetch req ≫= f) w0) res w
          = Finished (Throw Unauthorized) w')
    /\ config (state w') = None /\ orders (state w') = []
    /\ orderDetail (state w') = None /\ activeOrderId (state w') = None
    /\ pollTimer (state w') = None
    /\ (forall t, pollTimer (state w) = Some t -> t ∉ intervals w')
    /\ (timerInv w -> intervals w' = [])
    /\ loginView_hidden (page w') = false
    /\ appView_hidden (page w') = true
    /\ orderView_hidden (page w') = true.
Proof.
  intros H401.
  destruct (logout_world w)
    as (w' & Hl & Hc & Ho & Hd & Ha & Hp & Hlv & Hav & Hov & Hi & _).
  exists w'.
  assert (Hrun : resume (apiFetch req w0) res w
                 = Finished (Throw Unauthorized) w').
  { rewrite apiFetch_resume, H401, Hl. reflexivity. }
  split; [done|]. split.
  { intros B f. rewrite resume_bind by done. by rewrite Hrun. }
  repeat (split; [done|]). split; [|split; [|done]].
  - intros t Ht. rewrite Hi, Ht. intros Hin.
    apply list_elem_of_filter in Hin as [Hne _]. by apply Hne.
  - intros Hw. rewrite Hi. unfold timerInv in Hw.
    destruct (pollTimer (state w)) as [t|]; [|done].
    rewrite Hw. cbn [filter list_filter]. rewrite decide_False; [done|].
    intros H. by apply H.
Qed.

Lemma C7_unauthorized_tears_down_witness :
  exists w',
    resume (apiFetch ReqOrders sampleWorld) (mkResponse 401 (BText EmptyString))
      sampleWorld = Finished (Throw Unauthorized) w'
    /\ orders (state w') = [] /\ orderDetail (state w') = None
    /\ loginView_hidden (page w') = false.
Proof.
  destruct (C7_unauthorized_tears_down ReqOrders sampleWorld
              (mkResponse 401 (BText EmptyString)) sampleWorld eq_refl)
    as (w' & Hrun & _ & _ & Ho & Hd & _ & _ & _ & _ & Hl & _).
  exists w'. repeat split; assumption.
Defined.

(** C8.  In every state the client can reach, whatever the events and the
    order in which responses arrive, at most one interval timer is live,
    and it is the one recorded in [state.pollTimer].  From such a state
    [startPolling] leaves exactly one live timer, the first step of
    [openOrder] (up to its first request) leaves none, and
    [closeOrderView] leaves exactly one. *)
Theorem C8_single_poll_timer s :
  reachable s ->
  (length (intervals (world s)) <= 1)%nat
  /\ intervals (world s) = match pollTimer (state (world s)) with
                           | Some t => [t]
                           | None => []
                           end
  /\ (exists t, intervals (worldOf (startPolling (world s))) = [t])
  /\ (forall id, intervals (world (exec (EvCardClick id) s)) = [])
  /\ (exists t, intervals (world (exec EvBackClick s)) = [t]).
Proof.
  intros Hr. destruct (reachable_inv s Hr) as [Hw _].
  split; [|split; [exact Hw|split; [|split]]].
  - rewrite Hw. destruct (pollTimer _); cbn; lia.
  - destruct (startPolling_world _ Hw) as (w' & -> & Hi & _).
    by exists (nextTimer (world s)).
  - intros id. pose proof (openOrder_world id _ Hw) as H.
    cbn [exec]. unfold start. destruct (openOrder id (world s)); exact H.
  - destruct (closeOrderView_world _ Hw) as (t & H & _). exists t.
    cbn [exec]. unfold start. destruct (closeOrderView (world s)); exact H.
Qed.

Lemma C8_single_poll_timer_witness :
  (length (intervals (world
     (exec EvBackClick (exec (EvCardClick (IdNum 7))
        (exec EvBackClick (exec (EvCardClick (IdNum 7)) init)))))) <= 1)%nat.
Proof.
  apply (C8_single_poll_timer
           (exec EvBackClick (exec (EvCardClick (IdNum 7))
              (exec EvBackClick (exec (EvCardClick (IdNum 7)) init))))).
  apply reach_step, reach_step, reach_step, reach_step, reach_init.
Defined.

(** C9.  For every list of line elements laid out as [renderOrderDetail]
    does (incomplete lines by ascending sort index, then complete, then
    removed) and every line, not removed, whose element was done and that
    is not done after the update: [updateLineUI] takes the element out of
    its place and puts it in the incomplete group after the incomplete
    lines whose sort index is at most its own and before those whose sort
    index is larger, so the group stays in ascending order; every other
    element keeps its place relative to the others. *)
Theorem C9_undone_line_reinserted_in_order w inc comp rem line i el :
  orderLines (page w) = inc ++ comp ++ rem ->
  Layout inc comp rem ->
  findIndex (fun x => bool_decide (el_lineId x = idStr (line_id line)))
    (inc ++ comp ++ rem) = Some i ->
  (inc ++ comp ++ rem) !! i = Some el ->
  el_done el = true -> isLineDone line = false -> is_removed line = false ->
  let el' := mkLineEl (el_lineId el) (intOr0 (sort_index line)) false
               Incomplete line in
  exists inc1 inc2 comp' rem' w',
    updateLineUI line w = Finished (Ok tt) w'
    /\ orderLines (page w') = (inc1 ++ el' :: inc2) ++ comp' ++ rem'
    /\ inc = inc1 ++ inc2
    /\ delete (i - length inc)%nat (comp ++ rem) = comp' ++ rem'
    /\ Forall (fun x => el_sortIndex x <= el_sortIndex el') inc1
    /\ Forall (fun x => el_sortIndex el' < el_sortIndex x) inc2
    /\ Layout (inc1 ++ el' :: inc2) comp' rem'.
Proof.
  intros Hl Hlay Hfind Hi Hdone Hnow Hrm el'.
  destruct (updateLineEls_undone inc comp rem line i el Hlay Hfind Hi Hdone
              Hnow Hrm)
    as (inc1 & inc2 & comp' & rem' & H1 & H2 & H3 & H4 & H5 & H6).
  exists inc1, inc2, comp', rem'. eexists. split; [reflexivity|].
  split; [|done].
  cbn [page withPage orderLines set_orderLines]. by rewrite Hl, H3.
Qed.

Lemma C9_undone_line_reinserted_in_order_witness :
  exists w',
    updateLineUI (sampleLine 2 3 2) sampleView = Finished (Ok tt) w'
    /\ (el_line <$> orderLines (page w'))
       = [sampleLine 1 0 1; sampleLine 2 3 2; sampleLine 3 0 3].
Proof.
  destruct (C9_undone_line_reinserted_in_order sampleView
              [renderLine (sampleLine 1 0 1); renderLine (sampleLine 3 0 3)]
              [renderLine (sampleLine 2 5 2)] [] (sampleLine 2 3 2) 2%nat
              (renderLine (sampleLine 2 5 2)))
    as (inc1 & inc2 & comp' & rem' & w' & Hrun & _).
  - reflexivity.
  - split.
    + repeat constructor.
    + repeat constructor.
    + constructor.
    + repeat constructor. unfold bySortIndex. vm_compute. discriminate.
  - vm_compute. reflexivity.
  - reflexivity.
  - vm_compute. reflexivity.
  - vm_compute. reflexivity.
  - reflexivity.
  - exists w'. split; [exact Hrun|].
    vm_compute in Hrun. injection Hrun as <-. vm_compute. reflexivity.
Defined.

(** C10, as the code has it.  For every state of the system in which a
    poll tick fires while [state.activeOrderId] holds an order id (a truthy
    value: not 0, not the empty string), the tick sends no request,
    suspends nothing and leaves the whole world - config, Board Cache,
    Order Detail, page and timers - unchanged: a board reload is never
    started by a tick while an order is open.  (The answer to a poll
    request sent before the order was opened is still applied when it
    arrives: see the counterexample.) *)
Theorem C10_poll_tick_guarded s t id :
  activeOrderId (state (world s)) = Some id -> idTruthy id = true ->
  pollTick (world s) = Finished (Ok tt) (world s)
  /\ exec (EvTick t) s = s.
Proof.
  intros Ha Hid.
  assert (Hp : pollTick (world s) = Finished (Ok tt) (world s)).
  { unfold pollTick, noActiveOrder. run_prog. by rewrite Ha, Hid. }
  split; [exact Hp|].
  cbn [exec]. destruct (bool_decide _); [|done].
  unfold start. rewrite Hp. by destruct s.
Qed.

Lemma C10_poll_tick_guarded_witness :
  pollTick sampleWorld = Finished (Ok tt) sampleWorld
  /\ exec (EvTick 1) (mkSys sampleWorld [] []) = mkSys sampleWorld [] [].
Proof.
  exact (C10_poll_tick_guarded (mkSys sampleWorld [] []) 1%positive (IdNum 7)
           eq_refl eq_refl).
Defined.

(** C10 as stated fails in its last part: a board reload that the poll
    timer started can take place while an order is open.  In the run
    [raceEvents] nothing is pending when the timer fires on the board; the
    tick sends [GET /api/orders] and suspends; the user opens order 7,
    which stops the timer and loads the detail; when the answer to the
    poll request then arrives, the order is open, no timer is live, and the
    Board Cache is replaced. *)
Lemma C10_counterexample :
  let before := runEvents (take 6 raceEvents) in
  let ticked := runEvents (take 7 raceEvents) in
  let opened := runEvents raceEvents in
  let after := exec raceAnswer opened in
  (length (pending before) = 0%nat
   /\ activeOrderId (state (world before)) = None
   /\ intervals (world before) = [1%positive])
  /\ (length (pending ticked) = 1%nat
      /\ sent ticked = sent before ++ [ReqOrders])
  /\ (activeOrderId (state (world opened)) = Some (IdNum 7)
      /\ intervals (world opened) = []
      /\ length (pending opened) = 1%nat
      /\ orders (state (world opened))
         = [mkWrapper (Some (sampleOrder 8)) []])
  /\ (activeOrderId (state (world after)) = Some (IdNum 7)
      /\ orders (state (world after)) = [mkWrapper (Some (sampleOrder 9)) []]
      /\ orders (state (world after)) <> orders (state (world opened))
      /\ sent after = sent opened).
Proof.
  vm_compute. repeat split; try reflexivity. discriminate.
Qed.

End Claims.

(* ===================================================================== *)
(** * Facts about the formatting helpers *)
(* ===================================================================== *)

Section TextFacts.

Import Num.

Lemma replaceAll_app c r a b :
  replaceAll c r (a ++ b) = replaceAll c r a ++ replaceAll c r b.
Proof. unfold replaceAll. apply flat_map_app. Qed.

Lemma replaceAll_flat_map c r (f : ascii -> str) s :
  replaceAll c r (flat_map f s) = flat_map (fun x => replaceAll c r (f x)) s.
Proof.
  induction s as [|x s IH]; [reflexivity|].
  cbn [flat_map]. by rewrite replaceAll_app, IH.
Qed.

Lemma replaceAll_one c r x :
  replaceAll c r [x] = if Ascii.eqb x c then r else [x].
Proof. unfold replaceAll. cbn [flat_map]. apply app_nil_r. Qed.

Lemma escapeChar_steps x :
  replaceAll "'" (lit "&#039;")
    (replaceAll quot (lit "&quot;")
       (replaceAll ">" (lit "&gt;")
          (replaceAll "<" (lit "&lt;")
             (if Ascii.eqb x "&" then lit "&amp;" else [x]))))
  = escapeChar x.
Proof.
  unfold escapeChar.
  destruct (Ascii.eqb x "&") eqn:E1; [reflexivity|].
  rewrite replaceAll_one.
  destruct (Ascii.eqb x "<") eqn:E2; [reflexivity|].
  rewrite replaceAll_one.
  destruct (Ascii.eqb x ">") eqn:E3; [reflexivity|].
  rewrite replaceAll_one.
  destruct (Ascii.eqb x quot) eqn:E4; [reflexivity|].
  rewrite replaceAll_one.
  destruct (Ascii.eqb x "'") eqn:E5; reflexivity.
Qed.

(** The five replacements amount to one pass over the characters. *)
Lemma escapeHtml_chars s : escapeHtml s = flat_map escapeChar s.
Proof.
  unfold escapeHtml. unfold replaceAll at 5.
  rewrite !replaceAll_flat_map.
  induction s as [|x s IH]; [reflexivity|].
  cbn [flat_map]. rewrite IH. f_equal. apply escapeChar_steps.
Qed.

Lemma escapeChar_plain c : htmlSpecial c = false -> escapeChar c = [c].
Proof.
  unfold htmlSpecial, escapeChar. intros H.
  repeat (apply orb_false_iff in H as [H ?]).
  by repeat match goal with
            | E : Ascii.eqb _ _ = false |- _ => rewrite E; clear E
            end.
Qed.

Lemma escapeChar_safe c :
  forallb (fun x => negb (bool_decide
                            (x ∈ ["<"%char; ">"%char; quot; "'"%char])))
    (escapeChar c) = true.
Proof.
  unfold escapeChar.
  destruct (Ascii.eqb c "&") eqn:E1; [reflexivity|].
  destruct (Ascii.eqb c "<") eqn:E2; [reflexivity|].
  destruct (Ascii.eqb c ">") eqn:E3; [reflexivity|].
  destruct (Ascii.eqb c quot) eqn:E4; [reflexivity|].
  destruct (Ascii.eqb c "'") eqn:E5; [reflexivity|].
  cbn [forallb]. rewrite andb_true_r. apply negb_true_iff, bool_decide_eq_false.
  apply Ascii.eqb_neq in E2, E3, E4, E5.
  rewrite !elem_of_cons, elem_of_nil. tauto.
Qed.

Lemma escapeChar_inj x y a b :
  escapeChar x ++ a = escapeChar y ++ b -> x = y /\ a = b.
Proof.
  unfold escapeChar.
  destruct (Ascii.eqb_spec x "&") as [->|X1];
    [|destruct (Ascii.eqb_spec x "<") as [->|X2];
      [|destruct (Ascii.eqb_spec x ">") as [->|X3];
        [|destruct (Ascii.eqb_spec x quot) as [->|X4];
          [|destruct (Ascii.eqb_spec x "'") as [->|X5]]]]];
  (destruct (Ascii.eqb_spec y "&") as [->|Y1];
    [|destruct (Ascii.eqb_spec y "<") as [->|Y2];
      [|destruct (Ascii.eqb_spec y ">") as [->|Y3];
        [|destruct (Ascii.eqb_spec y quot) as [->|Y4];
          [|destruct (Ascii.eqb_spec y "'") as [->|Y5]]]]]);
  cbn [lit list_ascii_of_string app]; intros H;
  try discriminate H; try (injection H as H; subst; done);
  try (injection H as H1 H2; subst; done).
Qed.

Lemma escapeChar_not_nil x : escapeChar x <> [].
Proof.
  unfold escapeChar.
  repeat match goal with |- context [if ?b then _ else _] => destruct b end;
    done.
Qed.

(** *** [fmtQty] *)









Lemma In_dropWhile0 x l : In x (dropWhile0 l) -> In x l.
Proof.
  induction l as [|y l IH]; [done|]. cbn [dropWhile0].
  destruct (Ascii.eqb y "0"); [|done]. intros H. right. by apply IH.
Qed.

Lemma forallb_trimTrailing0 p s :
  forallb p s = true -> forallb p (trimTrailing0 s) = true.
Proof.
  rewrite !forallb_forall. intros H x Hx. apply H.
  unfold trimTrailing0 in Hx. apply in_rev in Hx.
  apply In_dropWhile0 in Hx. by apply in_rev.
Qed.

Lemma forallb_dropFinalDot p s :
  forallb p s = true -> forallb p (dropFinalDot s) = true.
Proof.
  rewrite !forallb_forall. intros H x Hx. apply H.
  unfold dropFinalDot in Hx. destruct (rev s) as [|c r] eqn:E; [done|].
  destruct (Ascii.eqb c "."); [|done].
  apply in_rev. rewrite E. right. by apply in_rev.
Qed.

Lemma numChar_digits ds :
  forallb isDigit ds = true -> forallb numChar ds = true.
Proof.
  rewrite !forallb_forall. intros H x Hx. unfold numChar.
  by rewrite (H x Hx).
Qed.

Lemma numChar_posToString z e : forallb numChar (posToString z e) = true.
Proof.
  unfold posToString. destruct (sciParts z e) as [s n].
  destruct ((-6 <? n) && (n <=? 21)).
  - destruct (norm z e) as [z1 e1]. destruct e1 as [|e1].
    + apply numChar_digits, natStr_isDigit.
    + rewrite forallb_app. cbn [forallb].
      rewrite !numChar_digits
        by (apply natStr_isDigit || apply digitsN_isDigit).
      reflexivity.
  - pose proof (numChar_digits _ (digitsN_isDigit (ndigits s) s)) as Hd.
    pose proof (numChar_digits _ (natStr_isDigit (Z.abs (n - 1)))) as Hx.
    destruct (digitsN (ndigits s) s) as [|d ds].
    + cbn [forallb]. rewrite Hx. by destruct (0 <=? n - 1).
    + cbn [forallb] in Hd. apply andb_true_iff in Hd as [Hd1 Hd2].
      destruct ds as [|d2 ds].
      * cbn [forallb]. rewrite Hd1, Hx. by destruct (0 <=? n - 1).
      * cbn [forallb app]. rewrite Hd1. cbn [andb].
        cbn [forallb] in Hd2. apply andb_true_iff in Hd2 as [Hd2 Hd3].
        rewrite Hd2. cbn [andb].
        rewrite forallb_app, Hd3. cbn [forallb]. rewrite Hx.
        by destruct (0 <=? n - 1).
Qed.

Lemma numChar_toString x :
  isFinite x = true -> forallb numChar (toString x) = true.
Proof.
  destruct x as [| | | |z e]; try done. intros _. unfold toString.
  destruct (z =? 0); [reflexivity|].
  destruct (z <? 0); [cbn [forallb]|]; by rewrite numChar_posToString.
Qed.

Lemma numChar_posToFixed z e f : forallb numChar (posToFixed z e f) = true.
Proof.
  unfold posToFixed. destruct (pow10 21 * pow10 e <=? z).
  - apply numChar_posToString.
  - destruct f as [|f].
    + apply numChar_digits, natStr_isDigit.
    + rewrite forallb_app. cbn [forallb].
      rewrite !numChar_digits
        by (apply natStr_isDigit || apply digitsN_isDigit).
      reflexivity.
Qed.

Lemma numChar_toFixed x f :
  isFinite x = true -> forallb numChar (toFixed x f) = true.
Proof.
  destruct x as [| | | |z e]; try done; intros _; unfold toFixed.
  - apply numChar_posToFixed.
  - destruct (z <? 0); [cbn [forallb]|]; by rewrite numChar_posToFixed.
Qed.

Lemma round_finite x : isFinite x = true -> isFinite (round x) = true.
Proof.
  destruct x as [| | | |z e]; try done. intros _. unfold round.
  by destruct ((_ =? 0) && (z <? 0)).
Qed.

Lemma numChar_fmtQty v : forallb numChar (fmtQty v) = true.
Proof.
  unfold fmtQty. destruct (isFinite v) eqn:Hf; [|reflexivity].
  cbn [negb]. destruct (ltb _ _).
  - by apply numChar_toString, round_finite.
  - by apply forallb_dropFinalDot, forallb_trimTrailing0, numChar_toFixed.
Qed.

Lemma numChar_plain c : numChar c = true -> htmlSpecial c = false.
Proof.
  unfold numChar, htmlSpecial. intros H.
  destruct (Ascii.eqb_spec c "&") as [->|]; [done|].
  destruct (Ascii.eqb_spec c "<") as [->|]; [done|].
  destruct (Ascii.eqb_spec c ">") as [->|]; [done|].
  destruct (Ascii.eqb_spec c quot) as [->|]; [done|].
  destruct (Ascii.eqb_spec c "'") as [->|]; [done|].
  reflexivity.
Qed.

Lemma escapeHtml_plain s :
  forallb (fun c => negb (htmlSpecial c)) s = true -> escapeHtml s = s.
Proof.
  rewrite escapeHtml_chars. induction s as [|c s IH]; [done|].
  cbn [forallb flat_map]. intros H. apply andb_true_iff in H as [Hc Hs].
  apply negb_true_iff in Hc. by rewrite escapeChar_plain, IH.
Qed.

End TextFacts.

Section TextExtras.

Import Num.

(** X2.  [escapeHtml]: the five successive replacements amount to one pass
    that writes the entity of each of the characters & < > double quote and
    apostrophe and copies every other character, so that nothing is escaped
    twice; the result holds none of the characters < > double quote and
    apostrophe, and the escape of a concatenation is the concatenation of the
    escapes. *)
Theorem X2_escapeHtml_one_pass (s t : str) :
  escapeHtml s = flat_map escapeChar s
  /\ Forall (fun c => c <> "<"%char /\ c <> ">"%char /\ c <> quot
                      /\ c <> "'"%char) (escapeHtml s)
  /\ escapeHtml (s ++ t) = escapeHtml s ++ escapeHtml t.
Proof.
  split; [apply escapeHtml_chars|]. split.
  - rewrite escapeHtml_chars. induction s as [|c s IH]; [constructor|].
    cbn [flat_map]. apply Forall_app. split; [|done].
    pose proof (escapeChar_safe c) as H.
    rewrite forallb_forall in H. apply Forall_forall. intros x Hx.
    apply list_elem_of_In, H, negb_true_iff, bool_decide_eq_false in Hx.
    rewrite !elem_of_cons, elem_of_nil in Hx. tauto.
  - rewrite !escapeHtml_chars. apply flat_map_app.
Qed.

(** X3.  [escapeHtml] is injective: two different texts never have the same
    escaped form. *)
Theorem X3_escapeHtml_injective (s t : str) :
  escapeHtml s = escapeHtml t -> s = t.
Proof.
  rewrite !escapeHtml_chars. revert t.
  induction s as [|x s IH]; intros [|y t]; cbn [flat_map]; intros H.
  - reflexivity.
  - symmetry in H. apply app_eq_nil in H as [H _].
    by apply escapeChar_not_nil in H.
  - apply app_eq_nil in H as [H _]. by apply escapeChar_not_nil in H.
  - apply escapeChar_inj in H as [-> H]. f_equal. by apply IH.
Qed.

Lemma X3_escapeHtml_injective_witness :
  lit "a<b & c" = lit "a<b & c".
Proof.
  apply (X3_escapeHtml_injective (lit "a<b & c") (lit "a<b & c")).
  reflexivity.
Defined.

(** X4.  Escaping a formatted quantity changes nothing: [fmtQty] writes only
    digits, the point, the signs and the exponent mark, whatever its
    argument. *)
Theorem X4_escapeHtml_fmtQty (v : Num) :
  forallb numChar (fmtQty v) = true /\ escapeHtml (fmtQty v) = fmtQty v.
Proof.
  split; [apply numChar_fmtQty|]. apply escapeHtml_plain.
  pose proof (numChar_fmtQty v) as H. rewrite forallb_forall in *.
  intros c Hc. by rewrite (numChar_plain c (H c Hc)).
Qed.



End TextExtras.

(* ===================================================================== *)
(** * Facts about quantities: ranges *)
(* ===================================================================== *)

Section QtyFacts.

Import Num.



Lemma numOr0_shape x :
  numOr0 x = PInf \/ numOr0 x = NInf \/ numOr0 x = Fin 0 0
  \/ exists z e, numOr0 x = Fin z e /\ z <> 0.
Proof.
  unfold numOr0. destruct x as [[| | | |z e]|]; cbn [truthy]; auto.
  destruct (z =? 0) eqn:E; cbn [negb]; auto.
  apply Z.eqb_neq in E. right. right. right. by exists z, e.
Qed.









End QtyFacts.

Section QtyExtras.

Import Num.

(** X8.  The width given to the progress bar is a finite number between 0
    and 100, whatever [progress_pct] holds: a missing value, [NaN] and
    negative values give 0, values above 100 and [Infinity] give 100. *)
Theorem X8_fillWidth_range (order : Order) :
  exists z e, fillWidth order = Fin z e /\ 0 <= z /\ z <= 100 * pow10 e.
Proof.
  unfold fillWidth, ofZ.
  destruct (numOr0_shape (progress_pct order))
    as [->|[->|[->|(z & e & -> & Hz)]]].
  - exists 100, 0%nat. rewrite pow10_0. done.
  - exists 0, 0%nat. rewrite pow10_0. done.
  - exists 0, 0%nat. rewrite pow10_0. done.
  - pose proof (pow10_pos e).
    cbv beta iota delta [max min cmp zero]. rewrite !pow10_0.
    destruct (Z.compare_spec (100 * pow10 e) (z * 1)).
    + exists 100, 0%nat. rewrite pow10_0. done.
    + exists 100, 0%nat. rewrite pow10_0. done.
    + cbv beta iota. destruct (Z.compare_spec (0 * pow10 e) (z * 1)).
      * lia.
      * exists z, e. split; [done|lia].
      * exists 0, 0%nat. rewrite pow10_0. done.
Qed.





End QtyExtras.

(* ===================================================================== *)
(** * The decimals of the inferred step *)
(* ===================================================================== *)

Section StepFacts.

Import Num.



Lemma one_pow10neg : one = pow10neg 0.
Proof. reflexivity. Qed.



End StepFacts.

Section StepExtras.

Import Num.



End StepExtras.

(* ===================================================================== *)
(** * Invariants of the event loop *)
(* ===================================================================== *)

Section KeepsFacts.

Context (I : World -> Prop).

Lemma runKeeps_bind {A B} (r : Run A) (f : A -> P B) :
  runKeeps I r -> (forall a, keeps I (f a)) -> runKeeps I (bindRun r f).
Proof.
  intros Hr Hf.
  induction r as [[a|e] w|req w k IH]; cbn [bindRun runKeeps] in *.
  - by apply Hf.
  - done.
  - destruct Hr as [Hw Hk]. split; [done|]. intros res w' Hw'.
    apply IH. by apply Hk.
Qed.

Lemma runKeeps_catch {A} (r : Run A) (h : Err -> P A) :
  runKeeps I r -> (forall e, keeps I (h e)) -> runKeeps I (catchRun r h).
Proof.
  intros Hr Hh.
  induction r as [[a|e] w|req w k IH]; cbn [catchRun runKeeps] in *.
  - done.
  - by apply Hh.
  - destruct Hr as [Hw Hk]. split; [done|]. intros res w' Hw'.
    apply IH. by apply Hk.
Qed.

Lemma keeps_bind {A B} (p : P A) (f : A -> P B) :
  keeps I p -> (forall a, keeps I (f a)) -> keeps I (p ≫= f).
Proof. intros Hp Hf w Hw. apply runKeeps_bind; [by apply Hp|done]. Qed.

Lemma keeps_ret {A} (a : A) : keeps I (mret a).
Proof. intros w Hw. exact Hw. Qed.

Lemma keeps_throw {A} e : keeps I (@throw A e).
Proof. intros w Hw. exact Hw. Qed.

Lemma keeps_tryCatch {A} (p : P A) h :
  keeps I p -> (forall e, keeps I (h e)) -> keeps I (tryCatch p h).
Proof. intros Hp Hh w Hw. apply runKeeps_catch; [by apply Hp|done]. Qed.

Lemma keeps_ignoreErrors p : keeps I p -> keeps I (ignoreErrors p).
Proof.
  intros Hp. apply keeps_tryCatch; [done|]. intros _. apply keeps_ret.
Qed.

Lemma keeps_fetch req : keeps I (fetch req).
Proof. intros w Hw. split; [done|]. intros res w' Hw'. exact Hw'. Qed.

Lemma keeps_getState : keeps I getState.
Proof. intros w Hw. exact Hw. Qed.

Lemma keeps_getPage : keeps I getPage.
Proof. intros w Hw. exact Hw. Qed.

Lemma settle_keeps r tasks reqs :
  runKeeps I r ->
  Forall (fun k => forall res w, I w -> runKeeps I (k res w)) tasks ->
  sysKeeps I (settle r tasks reqs).
Proof.
  intros Hr Ht. destruct r as [x w|req w k]; cbn [settle runKeeps] in *.
  - by split.
  - destruct Hr as [Hw Hk]. split; [done|].
    cbn [pending]. apply Forall_app. split; [done|].
    by apply Forall_singleton.
Qed.

Lemma start_keeps h s : keeps I h -> sysKeeps I s -> sysKeeps I (start h s).
Proof.
  intros Hh [Hw Hp]. unfold start. apply settle_keeps; [by apply Hh|done].
Qed.

(** An invariant of the handlers, which does not depend on the timeouts
    that are registered, is an invariant of the event loop. *)
Lemma exec_keeps ev s :
  (forall w n, I w ->
     I (mkWorld (state w) (page w) (intervals w) (nextTimer w) n)) ->
  (forall pwd, keeps I (onLoginClick pwd)) -> keeps I logout ->
  keeps I onRefreshClick -> (forall id, keeps I (openOrder id)) ->
  keeps I closeOrderView -> keeps I completeOrder ->
  (forall l, keeps I (onFillClick l)) -> (forall l, keeps I (onMinusClick l)) ->
  (forall l, keeps I (onPlusClick l)) -> keeps I pollTick ->
  keeps I autoClose ->
  sysKeeps I s -> sysKeeps I (exec ev s).
Proof.
  intros Ht H1 H2 H3 H4 H5 H6 H7 H8 H9 H10 H11 Hs.
  destruct ev; cbn [exec]; try (by apply start_keeps).
  - destruct (bool_decide _); [|done]. by apply start_keeps.
  - destruct (timeouts (world s)) eqn:E; [done|].
    destruct Hs as [Hw Hp]. apply settle_keeps; [|done].
    apply H11. by apply Ht.
  - destruct (pending s !! i) as [k|] eqn:E; [|done].
    destruct Hs as [Hw Hp]. apply settle_keeps.
    + rewrite Forall_lookup in Hp. by apply (Hp i k E).
    + by apply Forall_delete.
Qed.

End KeepsFacts.

Section ViewFacts.

Ltac vi_fields :=
  cbn [state page intervals nextTimer timeouts withState withPage
       config orders orderDetail activeOrderId pollTimer
       set_config set_orders set_orderDetail set_activeOrderId set_pollTimer
       header loginView_hidden appView_hidden orderView_hidden
       completeOverlay_hidden loginError_hidden board orderLines
       set_hidden set_board set_header set_orderLines d_order d_lines] in *.

Ltac vi :=
  unfold viewInv in *; vi_fields;
  repeat match goal with H : _ /\ _ |- _ => destruct H end;
  repeat split; try done; try tauto;
  try (intros; simplify_eq; done);
  try (by repeat match goal with
              | |- context [?f (page ?w)] =>
                  lazymatch type of (f (page w)) with
                  | bool => destruct (f (page w))
                  end
              end).

Lemma keeps_modifyState_frame f :
  (forall st, orderDetail (f st) = orderDetail st
              /\ activeOrderId (f st) = activeOrderId st) ->
  keeps viewInv (modifyState f).
Proof.
  intros Hf w Hw. unfold modifyState. cbn [runKeeps].
  destruct (Hf (state w)) as [H1 H2].
  unfold viewInv in *. cbn [state page withState]. rewrite H1, H2. done.
Qed.

Lemma keeps_modifyPage_frame f :
  (forall p, header (f p) = header p
             /\ loginView_hidden (f p) = loginView_hidden p
             /\ appView_hidden (f p) = appView_hidden p
             /\ orderView_hidden (f p) = orderView_hidden p) ->
  keeps viewInv (modifyPage f).
Proof.
  intros Hf w Hw. unfold modifyPage. cbn [runKeeps].
  destruct (Hf (page w)) as (H1 & H2 & H3 & H4).
  unfold viewInv in *. cbn [state page withPage]. rewrite H1, H2, H3, H4. done.
Qed.

Lemma keeps_show e : keeps viewInv (show e).
Proof.
  intros w Hw. unfold show, modifyPage. cbn [runKeeps].
  destruct e; vi.
Qed.

Lemma keeps_hide_overlay : keeps viewInv (hide CompleteOverlay).
Proof. apply keeps_modifyPage_frame. done. Qed.

Lemma keeps_hide_error : keeps viewInv (hide LoginError).
Proof. apply keeps_modifyPage_frame. done. Qed.

Lemma keeps_setTimeout : keeps viewInv setTimeout.
Proof. intros w Hw. exact Hw. Qed.

Lemma keeps_stopPolling : keeps viewInv stopPolling.
Proof.
  intros w Hw. unfold stopPolling. run_prog.
  destruct (pollTimer (state w)); run_prog; exact Hw.
Qed.

Lemma keeps_startPolling : keeps viewInv startPolling.
Proof.
  unfold startPolling. apply keeps_bind; [apply keeps_stopPolling|].
  intros _. apply keeps_bind; [intros w Hw; exact Hw|].
  intros t. apply keeps_modifyState_frame. done.
Qed.

Lemma keeps_logout : keeps viewInv logout.
Proof.
  intros w Hw. destruct (logout_world w)
    as (w' & -> & _ & _ & Hd & Ha & _ & Hl & _).
  cbn [runKeeps]. unfold viewInv. rewrite Hd, Ha, Hl. done.
Qed.

Ltac keep :=
  repeat first
    [ assumption
    | match goal with
      | |- keeps _ (mret _) => apply keeps_ret
      | |- keeps _ (throw _) => apply keeps_throw
      | |- keeps _ (fetch _) => apply keeps_fetch
      | |- keeps _ getState => apply keeps_getState
      | |- keeps _ getPage => apply keeps_getPage
      | |- keeps _ setTimeout => apply keeps_setTimeout
      | |- keeps _ stopPolling => apply keeps_stopPolling
      | |- keeps _ startPolling => apply keeps_startPolling
      | |- keeps _ logout => apply keeps_logout
      | |- keeps _ (show _) => apply keeps_show
      | |- keeps _ (hide CompleteOverlay) => apply keeps_hide_overlay
      | |- keeps _ (hide LoginError) => apply keeps_hide_error
      | |- keeps _ (modifyState _) =>
          apply keeps_modifyState_frame; intros ?;
          first [ done
                | split; [apply patchBoard_fields|apply patchBoard_fields]
                | unfold setBoardOrder; destruct (findOrder _ _); done ]
      | |- keeps _ (modifyPage _) =>
          apply keeps_modifyPage_frame; intros ?; done
      | |- keeps _ (ignoreErrors _) => apply keeps_ignoreErrors
      | |- keeps _ (tryCatch _ _) => apply keeps_tryCatch; [|intros ?]
      | |- keeps _ (_ ≫= _) => apply keeps_bind; [|intros ?]
      | |- keeps _ (if ?b then _ else _) => destruct b
      | |- keeps _ (match ?x with _ => _ end) => destruct x
      end
    | progress unfold showComplete, hideComplete, updateOrderCardOnBoard,
        updateLineUI, renderBoard, json_patch, json_order, json_orders,
        json_detail, json_config, json_any ].

Lemma keeps_apiFetch req : keeps viewInv (apiFetch req).
Proof. unfold apiFetch. keep. Qed.

Lemma keeps_loadConfig : keeps viewInv loadConfig.
Proof. unfold loadConfig. keep; try apply keeps_apiFetch. Qed.

Lemma keeps_login pwd : keeps viewInv (login pwd).
Proof. unfold login. keep. Qed.

Lemma keeps_syncNow : keeps viewInv syncNow.
Proof. unfold syncNow. keep; try apply keeps_apiFetch. Qed.

Lemma keeps_renderBoard : keeps viewInv renderBoard.
Proof. keep. Qed.

Lemma keeps_loadOrders : keeps viewInv loadOrders.
Proof. unfold loadOrders. keep; try apply keeps_apiFetch. Qed.

(** The statements of [loadOrderDetail] after the response has been read. *)
Lemma keeps_detail_block dt id :
  keeps viewInv
    (modifyState (set_orderDetail (Some dt));;
     modifyState (set_activeOrderId (Some id));;
     renderOrderDetail).
Proof.
  intros w Hw. unfold renderOrderDetail. run_prog.
  cbn [orderDetail set_activeOrderId set_orderDetail]. run_prog.
  cbn [runKeeps]. vi.
Qed.

Lemma keeps_loadOrderDetail id : keeps viewInv (loadOrderDetail id).
Proof.
  unfold loadOrderDetail.
  apply keeps_bind; [apply keeps_apiFetch|]. intros res.
  destruct (negb (ok res)); [apply keeps_throw|].
  apply keeps_bind; [keep|]. intros dt. apply keeps_detail_block.
Qed.

Lemma keeps_closeOrderView : keeps viewInv closeOrderView.
Proof.
  intros w Hw. unfold closeOrderView, hideComplete.
  unfold mbind, P_bind, modifyState, hide, show, modifyPage.
  cbn [bindRun].
  apply keeps_startPolling. vi.
Qed.

Lemma keeps_autoClose : keeps viewInv autoClose.
Proof.
  unfold autoClose. keep;
    try first [apply keeps_closeOrderView | apply keeps_loadOrders].
Qed.

Lemma orderDetail_patchDetail data st :
  orderDetail (patchDetail data st)
  = (fun dt => mkDetail (pd_order data) (setLine (pd_line data) (d_lines dt)))
      <$> orderDetail st.
Proof.
  unfold patchDetail. destruct (orderDetail st) eqn:E; [reflexivity|exact E].
Qed.

(** The statements of [patchLine] that bring the store and the header up to
    date with the response. *)
Lemma keeps_patch_block data :
  keeps viewInv
    (modifyState (patchDetail data);; modifyState (patchBoard data);;
     updateOrderDetailHeader (pd_order data)).
Proof.
  intros w Hw. run_prog. cbn [runKeeps].
  destruct (patchBoard_fields data (patchDetail data (state w)))
    as (_ & Hd & Ha & _).
  destruct (patchDetail_fields data (state w)) as (_ & _ & Ha' & _).
  pose proof (orderDetail_patchDetail data (state w)) as Hd'.
  unfold viewInv in *. cbn [state page withState withPage header set_header].
  rewrite Hd, Ha, Hd', Ha'. destruct Hw as (H1 & H2 & H3).
  destruct (orderDetail (state w)) as [dt|]; cbn [fmap option_fmap option_map].
  - split; [|split; [|exact H3]].
    + split; [done|]. intros Ha0. by apply H1 in Ha0.
    + intros dt' E. by injection E as <-.
  - split; [exact H1|]. split; [done|exact H3].
Qed.

Lemma keeps_patchLine oid lid qty : keeps viewInv (patchLine oid lid qty).
Proof.
  unfold patchLine.
  apply keeps_bind; [apply keeps_apiFetch|]. intros res.
  destruct (negb (ok res)); [apply keeps_throw|].
  apply keeps_bind; [keep|]. intros data.
  pose proof (keeps_patch_block data) as Hb.
  intros w Hw. specialize (Hb w Hw). revert Hb.
  unfold mbind at 1 2 3 4 5, P_bind at 1 2 3 4 5.
  unfold modifyState at 1 2, updateOrderDetailHeader at 1, modifyPage at 1.
  cbn [bindRun runKeeps].
  unfold mbind at 1 2, P_bind at 1 2.
  unfold modifyState at 1 2, updateOrderDetailHeader at 1, modifyPage at 1.
  cbn [bindRun runKeeps].
  intros Hb.
  assert (K : keeps viewInv
                (updateOrderCardOnBoard (pd_order data);;
                 updateLineUI (pd_line data);;
                 (if pd_order_completed_now data
                  then showComplete;; setTimeout else mret tt);;
                 mret data)) by keep.
  exact (K _ Hb).
Qed.

Lemma keeps_completeOrder : keeps viewInv completeOrder.
Proof.
  intros w0 Hw0. unfold completeOrder.
  unfold mbind at 1, P_bind at 1, getState at 1. cbn [bindRun].
  destruct (orderDetail (state w0)) as [dt0|]; [|exact Hw0].
  revert w0 Hw0. fold (keeps viewInv (ignoreErrors
    (res ← apiFetch (ReqComplete (order_id (d_order dt0)));
     (if negb (ok res) then throw (Failed (text res))
      else data ← json_order res;
           match data with
           | Some order =>
               st' ← getState;
               match orderDetail st' with
               | Some dt =>
                   modifyState
                     (set_orderDetail (Some (mkDetail order (d_lines dt))));;
                   updateOrderDetailHeader order;;
                   modifyState (setBoardOrder order);; renderBoard
               | None => throw TypeError
               end
           | None => mret ()
           end)))).
  apply keeps_ignoreErrors.
  apply keeps_bind; [apply keeps_apiFetch|]. intros res.
  destruct (negb (ok res)); [apply keeps_throw|].
  apply keeps_bind; [keep|]. intros [order|]; [|apply keeps_ret].
  intros w Hw. unfold mbind at 1, P_bind at 1, getState at 1. cbn [bindRun].
  destruct (orderDetail (state w)) as [dt|] eqn:E; [|exact Hw].
  unfold mbind at 1 2, P_bind at 1 2, modifyState at 1,
    updateOrderDetailHeader, modifyPage.
  cbn [bindRun].
  assert (K : keeps viewInv (modifyState (setBoardOrder order);; renderBoard))
    by keep.
  apply K. clear K. unfold viewInv in *; vi_fields. rewrite E in *.
  destruct Hw as (H1 & H2 & H3). split; [|split; [|exact H3]].
  - split; [done|]. intros Ha0. by apply H1 in Ha0.
  - intros dt' E'. by injection E' as <-.
Qed.

Lemma keeps_pollTick : keeps viewInv pollTick.
Proof. unfold pollTick. keep; try apply keeps_loadOrders. Qed.

Lemma keeps_openOrder id : keeps viewInv (openOrder id).
Proof.
  unfold openOrder.
  apply keeps_bind; [apply keeps_stopPolling|]. intros _.
  apply keeps_bind.
  { keep; try apply keeps_apiFetch. }
  intros _.
  apply keeps_bind; [apply keeps_loadOrderDetail|]. intros _.
  intros w Hw. unfold mbind, P_bind, hide, show, modifyPage.
  cbn [bindRun runKeeps]. vi.
Qed.

Lemma keeps_bootApp : keeps viewInv bootApp.
Proof.
  unfold bootApp. apply keeps_bind.
  - apply keeps_tryCatch; [|intros _; keep].
    apply keeps_bind; [apply keeps_loadConfig|]. intros _.
    intros w Hw. unfold mbind at 1 2, P_bind at 1 2, show at 1, hide at 1,
      modifyPage.
    cbn [bindRun].
    assert (K : keeps viewInv (loadOrders;; startPolling;; mret true))
      by (keep; apply keeps_loadOrders).
    apply K. vi.
  - intros [|]; keep; try first [apply keeps_syncNow | apply keeps_loadOrders].
Qed.

Lemma keeps_onLoginClick pwd : keeps viewInv (onLoginClick pwd).
Proof.
  unfold onLoginClick. keep;
    try first [apply keeps_login | apply keeps_bootApp].
Qed.

Lemma keeps_onRefreshClick : keeps viewInv onRefreshClick.
Proof.
  unfold onRefreshClick. keep;
    try first [apply keeps_syncNow | apply keeps_loadOrders].
Qed.

Lemma keeps_onFillClick line : keeps viewInv (onFillClick line).
Proof. unfold onFillClick. keep; try apply keeps_patchLine. Qed.

Lemma keeps_onMinusClick line : keeps viewInv (onMinusClick line).
Proof. unfold onMinusClick. keep; try apply keeps_patchLine. Qed.

Lemma keeps_onPlusClick line : keeps viewInv (onPlusClick line).
Proof. unfold onPlusClick. keep; try apply keeps_patchLine. Qed.

Lemma reachable_viewInv s : reachable s -> sysKeeps viewInv s.
Proof.
  induction 1 as [|s ev _ IH].
  - unfold init. apply start_keeps; [apply keeps_logout|].
    split; [|apply Forall_nil_2]. done.
  - apply exec_keeps; try done.
    + apply keeps_onLoginClick.
    + apply keeps_logout.
    + apply keeps_onRefreshClick.
    + apply keeps_openOrder.
    + apply keeps_closeOrderView.
    + apply keeps_completeOrder.
    + apply keeps_onFillClick.
    + apply keeps_onMinusClick.
    + apply keeps_onPlusClick.
    + apply keeps_pollTick.
    + apply keeps_autoClose.
Qed.

End ViewFacts.

Section ViewExtras.

(** X25.  In every state the client can reach, whatever the order of user
    actions, timer ticks, timeouts and responses, [state.orderDetail] and
    [state.activeOrderId] are both set or both [null]. *)
Theorem X25_detail_and_active_together (s : Sys) :
  reachable s ->
  (orderDetail (state (world s)) = None
   <-> activeOrderId (state (world s)) = None).
Proof. intros Hr. by destruct (reachable_viewInv s Hr) as [(H & _ & _) _]. Qed.

Lemma X25_detail_and_active_together_witness :
  orderDetail (state (world (runEvents raceEvents))) = None
  <-> activeOrderId (state (world (runEvents raceEvents))) = None.
Proof.
  apply (X25_detail_and_active_together (runEvents raceEvents)).
  unfold runEvents, raceEvents. cbn [foldl]. repeat apply reach_step.
  apply reach_init.
Defined.

(** X26.  In every state the client can reach, while an order is open the
    header of the order view shows the order held in [state.orderDetail]:
    every function that replaces that order also rewrites the header. *)
Theorem X26_header_shows_open_order (s : Sys) (dt : Detail) :
  reachable s ->
  orderDetail (state (world s)) = Some dt ->
  header (page (world s)) = Some (d_order dt).
Proof.
  intros Hr. destruct (reachable_viewInv s Hr) as [(_ & H & _) _]. apply H.
Qed.

Lemma X26_header_shows_open_order_witness :
  header (page (world (runEvents raceEvents))) = Some (sampleOrder 8).
Proof.
  apply (X26_header_shows_open_order (runEvents raceEvents)
           (mkDetail (sampleOrder 8) [])).
  - unfold runEvents, raceEvents. cbn [foldl]. repeat apply reach_step.
    apply reach_init.
  - vm_compute. reflexivity.
Defined.

(** X27.  In every state the client can reach, at least one of the login
    view, the board view and the order view is visible: every function that
    hides a view shows another one before it returns or awaits. *)
Theorem X27_some_view_visible (s : Sys) :
  reachable s ->
  loginView_hidden (page (world s)) && appView_hidden (page (world s))
  && orderView_hidden (page (world s)) = false.
Proof. intros Hr. by destruct (reachable_viewInv s Hr) as [(_ & _ & H) _]. Qed.

Lemma X27_some_view_visible_witness :
  loginView_hidden (page (world (runEvents raceEvents)))
  && appView_hidden (page (world (runEvents raceEvents)))
  && orderView_hidden (page (world (runEvents raceEvents))) = false.
Proof.
  apply (X27_some_view_visible (runEvents raceEvents)).
  unfold runEvents, raceEvents. cbn [foldl]. repeat apply reach_step.
  apply reach_init.
Defined.

End ViewExtras.

(* ===================================================================== *)
(** * Reading the store after a response *)
(* ===================================================================== *)

Section AsyncFacts.

Lemma find_insert_first {A} (p : A -> bool) l i x :
  findIndex p l = Some i -> p x = true -> find p (<[i := x]> l) = Some x.
Proof.
  intros H Hx. apply findIndex_Some in H as (y & Hy & Hp & Hb).
  revert i Hy Hb. induction l as [|a l IH]; intros i Hy Hb; [done|].
  destruct i as [|i]; cbn [insert list_insert find].
  - by rewrite Hx.
  - rewrite (Hb 0%nat a) by (done || lia).
    apply IH; [done|]. intros k z Hk Hz. apply (Hb (S k) z); [lia|done].
Qed.

Lemma find_insert_other {A} (p : A -> bool) l i x y :
  l !! i = Some y -> p y = false -> p x = false ->
  find p (<[i := x]> l) = find p l.
Proof.
  revert i. induction l as [|a l IH]; intros i Hy Hpy Hpx; [done|].
  destruct i as [|i]; cbn [insert list_insert find].
  - injection Hy as ->. by rewrite Hpy, Hpx.
  - destruct (p a); [done|]. by apply IH.
Qed.

Lemma find_findIndex_None {A} (p : A -> bool) l :
  findIndex p l = None -> find p l = None.
Proof.
  intros H. pose proof (findIndex_None _ _ H) as Hn.
  induction l as [|a l IH]; [done|]. cbn [find].
  rewrite (Hn 0%nat a) by done. apply IH.
  - destruct (findIndex p l) eqn:E; [|done].
    apply findIndex_Some in E as (y & Hy & Hp & _).
    specialize (Hn (S n) y Hy). congruence.
  - intros k y Hk. by apply (Hn (S k)).
Qed.

Lemma getLineQty_setLine_same line ls :
  find (fun x => bool_decide (line_id x = line_id line)) (setLine line ls)
  = match findLine (line_id line) ls with
    | Some _ => Some line
    | None => None
    end.
Proof.
  unfold setLine. destruct (findLine (line_id line) ls) as [idx|] eqn:E.
  - apply find_insert_first; [exact E|]. by apply bool_decide_eq_true_2.
  - by apply find_findIndex_None.
Qed.

Lemma getLineQty_setLine_other line ls id :
  id <> line_id line ->
  find (fun x => bool_decide (line_id x = id)) (setLine line ls)
  = find (fun x => bool_decide (line_id x = id)) ls.
Proof.
  intros Hne. unfold setLine.
  destruct (findLine (line_id line) ls) as [idx|] eqn:E; [|done].
  apply findIndex_Some in E as (y & Hy & Hp & _).
  apply bool_decide_eq_true in Hp.
  apply (find_insert_other _ _ _ _ y Hy);
    apply bool_decide_eq_false_2; congruence.
Qed.

Lemma findLine_replaced line ls idx :
  findLine (line_id line) ls = Some idx ->
  findLine (line_id line) (<[idx := line]> ls) = Some idx.
Proof.
  intros E. apply findIndex_Some in E as (y & Hy & Hp & Hb).
  apply (findIndex_intro _ _ idx line).
  - apply list_lookup_insert_eq. by eapply lookup_lt_Some.
  - by apply bool_decide_eq_true_2.
  - intros k z Hk Hz. rewrite list_lookup_insert_ne in Hz by lia.
    by apply (Hb k z Hk).
Qed.

Lemma setLine_idem line ls : setLine line (setLine line ls) = setLine line ls.
Proof.
  unfold setLine. destruct (findLine (line_id line) ls) as [idx|] eqn:E.
  - rewrite (findLine_replaced line ls idx E). apply list_insert_insert_eq.
  - by rewrite E.
Qed.

Lemma patchDetail_idem data st :
  patchDetail data (patchDetail data st) = patchDetail data st.
Proof.
  unfold patchDetail. destruct (orderDetail st) as [dt|] eqn:E.
  - cbn [orderDetail set_orderDetail d_lines].
    rewrite setLine_idem. reflexivity.
  - by rewrite E.
Qed.

Lemma patchBoard_idem data st :
  patchBoard data (patchBoard data st) = patchBoard data st.
Proof.
  unfold patchBoard.
  destruct (findOrder (order_id (pd_order data)) (orders st)) as [wIdx|] eqn:E.
  - cbn [orders set_orders].
    rewrite (findOrder_replaced (pd_order data) (orders st) wIdx
               (fun w => setLine (pd_line data) (w_lines w)) E).
    unfold set_orders. cbn [config orders orderDetail activeOrderId pollTimer].
    f_equal. rewrite list_alter_alter_eq. apply list_alter_ext; [|done].
    intros w _. cbn [compose w_lines]. by rewrite setLine_idem.
  - by rewrite E.
Qed.

Lemma patch_commute data st :
  patchDetail data (patchBoard data st) = patchBoard data (patchDetail data st).
Proof.
  unfold patchDetail, patchBoard.
  destruct (orderDetail st) as [dt|] eqn:Ed;
    destruct (findOrder _ (orders st)) as [wIdx|] eqn:Eo;
    cbn [orders orderDetail set_orders set_orderDetail]; rewrite ?Ed, ?Eo;
    reflexivity.
Qed.

End AsyncFacts.

Section AsyncExtras.

(** X11.  Reading a quantity back after a patch: once the response of
    [patchLine] has been applied, [getLineQtyFromState] gives, for the id of
    the patched line, the collected quantity of the response if Order
    Detail holds a line with that id, and 0 if it holds none or no order is
    open; for every other id it gives what it gave before. *)
Theorem X11_patch_then_read oid lid qty w0 res w data :
  ok res = true -> body res = BPatch data ->
  let st' := state (worldOf (resume (patchLine oid lid qty w0) res w)) in
  getLineQtyFromState st' (line_id (pd_line data))
  = match orderDetail (state w) with
    | Some dt =>
        match findLine (line_id (pd_line data)) (d_lines dt) with
        | Some _ => numOr0 (qty_collected (pd_line data))
        | None => Num.zero
        end
    | None => Num.zero
    end
  /\ forall id, id <> line_id (pd_line data) ->
       getLineQtyFromState st' id = getLineQtyFromState (state w) id.
Proof.
  intros Hok Hb.
  destruct (patchLine_resume oid lid qty w0 res w data Hok Hb)
    as (w' & -> & Hst & _).
  cbn [worldOf]. cbv zeta. rewrite Hst. unfold getLineQtyFromState.
  destruct (patchBoard_fields data (patchDetail data (state w)))
    as (_ & -> & _).
  unfold patchDetail.
  destruct (orderDetail (state w)) as [dt|] eqn:E;
    cbn [orderDetail set_orderDetail d_lines]; [|by rewrite E].
  split.
  - rewrite getLineQty_setLine_same. by destruct (findLine _ _).
  - intros id Hne. by rewrite getLineQty_setLine_other.
Qed.

Lemma X11_patch_then_read_witness :
  getLineQtyFromState
    (state (worldOf (resume (patchLine (Some (IdNum 7)) (IdNum 2) (Num.ofZ 5)
                               sampleWorld)
                       (mkResponse 200 (BPatch samplePatch)) sampleWorld)))
    (IdNum 2)
  = Num.ofZ 5.
Proof.
  exact (proj1 (X11_patch_then_read (Some (IdNum 7)) (IdNum 2) (Num.ofZ 5)
                  sampleWorld (mkResponse 200 (BPatch samplePatch))
                  sampleWorld samplePatch eq_refl eq_refl)).
Defined.

(** X12.  Applying the same patch response twice leaves the store as it is
    after the first time: the merge of a response into Order Detail and the
    Board Cache is idempotent. *)
Theorem X12_patch_idempotent oid lid qty w0 res w data :
  ok res = true -> body res = BPatch data ->
  let once := worldOf (resume (patchLine oid lid qty w0) res w) in
  let twice := worldOf (resume (patchLine oid lid qty w0) res once) in
  state twice = state once.
Proof.
  intros Hok Hb.
  destruct (patchLine_resume oid lid qty w0 res w data Hok Hb)
    as (w1 & -> & Hst1 & _).
  cbn [worldOf]. cbv zeta.
  destruct (patchLine_resume oid lid qty w0 res w1 data Hok Hb)
    as (w2 & -> & Hst2 & _).
  cbn [worldOf]. rewrite Hst2, Hst1.
  rewrite (patch_commute data (patchDetail data (state w))).
  rewrite patchDetail_idem. apply patchBoard_idem.
Qed.

Lemma X12_patch_idempotent_witness :
  let once := worldOf (resume (patchLine (Some (IdNum 7)) (IdNum 2) (Num.ofZ 5)
                                 sampleWorld)
                         (mkResponse 200 (BPatch samplePatch)) sampleWorld) in
  state (worldOf (resume (patchLine (Some (IdNum 7)) (IdNum 2) (Num.ofZ 5)
                            sampleWorld)
                    (mkResponse 200 (BPatch samplePatch)) once))
  = state once.
Proof.
  exact (X12_patch_idempotent (Some (IdNum 7)) (IdNum 2) (Num.ofZ 5)
           sampleWorld (mkResponse 200 (BPatch samplePatch))
           sampleWorld samplePatch eq_refl eq_refl).
Defined.

(** X9.  A request that fails with a status other than 401 changes
    nothing: [loadOrders], [loadOrderDetail], [patchLine] and [syncNow]
    throw and leave the store and the page as they are when the response
    arrives; the handlers of the refresh button, of the three buttons of a
    line and of the complete button, and the poll tick, swallow the error
    and send no further request. *)
Theorem X9_failed_request_changes_nothing (res : Response) (w : World) :
  ok res = false -> status res <> 401 ->
  (forall w0, exists e, resume (loadOrders w0) res w = Finished (Throw e) w)
  /\ (forall w0 id,
        exists e, resume (loadOrderDetail id w0) res w = Finished (Throw e) w)
  /\ (forall w0 oid lid qty,
        exists e,
          resume (patchLine oid lid qty w0) res w = Finished (Throw e) w)
  /\ (forall w0, exists e, resume (syncNow w0) res w = Finished (Throw e) w)
  /\ (forall w0, resume (onRefreshClick w0) res w = Finished (Ok tt) w)
  /\ (forall w0 line, resume (onFillClick line w0) res w = Finished (Ok tt) w)
  /\ (forall w0 line, resume (onMinusClick line w0) res w = Finished (Ok tt) w)
  /\ (forall w0 line, resume (onPlusClick line w0) res w = Finished (Ok tt) w)
  /\ (forall w0, noActiveOrder (state w0) = true ->
        resume (pollTick w0) res w = Finished (Ok tt) w)
  /\ (forall w0 dt0, orderDetail (state w0) = Some dt0 ->
        resume (completeOrder w0) res w = Finished (Ok tt) w).
Proof.
  intros Hok H401. apply Z.eqb_neq in H401.
  repeat split; intros w0.
  - unfold loadOrders, apiFetch, fetch. run_prog. cbn [resume].
    rewrite H401. run_prog. rewrite Hok. cbn [negb]. by eexists.
  - intros id. unfold loadOrderDetail, apiFetch, fetch. run_prog.
    cbn [resume]. rewrite H401. run_prog. rewrite Hok. cbn [negb].
    by eexists.
  - intros oid lid qty. unfold patchLine, apiFetch, fetch. run_prog.
    cbn [resume]. rewrite H401. run_prog. rewrite Hok. cbn [negb].
    by eexists.
  - unfold syncNow, apiFetch, fetch. run_prog. cbn [resume].
    rewrite H401. run_prog. rewrite Hok. cbn [negb]. by eexists.
  - unfold onRefreshClick, syncNow, apiFetch, fetch. run_prog. cbn [resume].
    rewrite H401. run_prog. rewrite Hok. cbn [negb]. run_prog. reflexivity.
  - intros line. unfold onFillClick, patchLine, apiFetch, fetch. run_prog.
    cbn [resume]. rewrite H401. run_prog. rewrite Hok. cbn [negb]. run_prog.
    reflexivity.
  - intros line. unfold onMinusClick, patchLine, apiFetch, fetch. run_prog.
    cbn [resume]. rewrite H401. run_prog. rewrite Hok. cbn [negb]. run_prog.
    reflexivity.
  - intros line. unfold onPlusClick, patchLine, apiFetch, fetch. run_prog.
    cbn [resume]. rewrite H401. run_prog. rewrite Hok. cbn [negb]. run_prog.
    reflexivity.
  - intros Hn. unfold pollTick. run_prog. rewrite Hn.
    unfold loadOrders, apiFetch, fetch. run_prog. cbn [resume].
    rewrite H401. run_prog. rewrite Hok. cbn [negb]. run_prog. reflexivity.
  - intros dt0 Hd. unfold completeOrder. run_prog. rewrite Hd.
    unfold apiFetch, fetch. run_prog. cbn [resume].
    rewrite H401. run_prog. rewrite Hok. cbn [negb]. run_prog. reflexivity.
Qed.

Lemma X9_failed_request_changes_nothing_witness :
  resume (onRefreshClick sampleWorld) (mkResponse 500 (BText "down"))
    sampleWorld
  = Finished (Ok tt) sampleWorld.
Proof.
  apply (X9_failed_request_changes_nothing (mkResponse 500 (BText "down"))
           sampleWorld); [reflexivity|discriminate].
Defined.

End AsyncExtras.

(* ===================================================================== *)
(** * Facts about sorting, the board and the moves of line elements *)
(* ===================================================================== *)

Section SortFacts.

Lemma insertBySort_perm x l : insertBySort x l ≡ₚ x :: l.
Proof.
  induction l as [|y l IH]; cbn [insertBySort]; [done|].
  destruct (_ <=? _); [done|]. rewrite IH. apply Permutation_swap.
Qed.

Lemma sortBySort_perm l : sortBySort l ≡ₚ l.
Proof.
  unfold sortBySort. induction l as [|x l IH]; cbn [foldr]; [done|].
  by rewrite insertBySort_perm, IH.
Qed.

(** [sort] is stable: the lines with a given key keep their order. *)
Lemma insertBySort_stable k x l :
  filter (fun y => sortKey y = k) (insertBySort x l)
  = filter (fun y => sortKey y = k) (x :: l).
Proof.
  induction l as [|y l IH]; cbn [insertBySort]; [done|].
  destruct (_ <=? _) eqn:E; [done|]. apply Z.leb_gt in E.
  rewrite filter_cons, IH, !filter_cons. fold (sortKey x) in E.
  fold (sortKey y) in E.
  destruct (decide (sortKey y = k)), (decide (sortKey x = k)); try done.
  lia.
Qed.

Lemma sortBySort_stable k l :
  filter (fun y => sortKey y = k) (sortBySort l)
  = filter (fun y => sortKey y = k) l.
Proof.
  unfold sortBySort. induction l as [|x l IH]; cbn [foldr]; [done|].
  by rewrite insertBySort_stable, !filter_cons, IH.
Qed.

(** Three filters that split a list put together are the list, up to the
    order. *)
Lemma filter3_perm {A} (P1 P2 P3 : A -> Prop)
    `{!forall x, Decision (P1 x)} `{!forall x, Decision (P2 x)}
    `{!forall x, Decision (P3 x)} (l : list A) :
  (forall x, (P1 x /\ ~ P2 x /\ ~ P3 x) \/ (~ P1 x /\ P2 x /\ ~ P3 x)
             \/ (~ P1 x /\ ~ P2 x /\ P3 x)) ->
  filter P1 l ++ filter P2 l ++ filter P3 l ≡ₚ l.
Proof.
  intros HP. induction l as [|x l IH]; [done|].
  rewrite !filter_cons.
  destruct (HP x) as [(Q1 & Q2 & Q3)|[(Q1 & Q2 & Q3)|(Q1 & Q2 & Q3)]];
    repeat case_decide; try tauto.
  - cbn [app]. by rewrite IH.
  - cbn [app]. rewrite <- Permutation_middle. by rewrite IH.
  - rewrite app_assoc, <- Permutation_middle, <- app_assoc. by rewrite IH.
Qed.

Lemma boardCards_good ws :
  Forall (fun w => w_order w <> None) ws ->
  boardCards ws = (omap cardOf ws, false).
Proof.
  induction 1 as [|w ws Hw _ IH]; [reflexivity|].
  unfold boardCards; fold boardCards. cbn [omap list_omap]. unfold cardOf at 1.
  destruct (w_order w) as [o|]; [|done]. rewrite IH. reflexivity.
Qed.

Lemma boardCards_bad ws i wr :
  ws !! i = Some wr -> w_order wr = None ->
  Forall (fun w => w_order w <> None) (take i ws) ->
  boardCards ws = (omap cardOf (take i ws), true).
Proof.
  revert i. induction ws as [|w ws IH]; intros i Hi Hn Hg; [done|].
  unfold boardCards; fold boardCards. destruct i as [|i].
  - injection Hi as ->. by rewrite Hn.
  - cbn [take] in *. apply Forall_cons in Hg as [Hw Hg].
    cbn [omap list_omap]. unfold cardOf at 1.
    destruct (w_order w) as [o|]; [|done].
    rewrite (IH i Hi Hn Hg). reflexivity.
Qed.

Lemma inColumn_cards c ws : inColumn c (omap cardOf ws) = omap (cardIn c) ws.
Proof.
  unfold inColumn. induction ws as [|w ws IH]; [reflexivity|].
  cbn [omap list_omap]. unfold cardOf at 1, cardIn at 1.
  destruct (w_order w) as [o|]; cbn [mbind option_bind]; [|exact IH].
  rewrite filter_cons. cbn [fst].
  destruct (decide (getOrderColumn o = c)); [|exact IH].
  rewrite fmap_cons. cbn [snd]. by rewrite <- IH.
Qed.

Lemma cardIn_Some c w o :
  w_order w = Some o ->
  cardIn c w = if decide (getOrderColumn o = c)
               then Some (renderOrderCard o w) else None.
Proof. intros E. unfold cardIn. by rewrite E. Qed.

Lemma cardIn_None c w : w_order w = None -> cardIn c w = None.
Proof. intros E. unfold cardIn. by rewrite E. Qed.

Lemma cardIn_orders ws :
  card_order <$> (omap (cardIn NotStarted) ws ++ omap (cardIn Picking) ws
                    ++ omap (cardIn Picked) ws)
  ≡ₚ omap w_order ws.
Proof.
  induction ws as [|w ws IH]; [done|].
  cbn [omap list_omap].
  destruct (w_order w) as [o|] eqn:E.
  - rewrite !(cardIn_Some _ w o E).
    destruct (getOrderColumn o); repeat (case_decide; try done);
      rewrite !fmap_app in *.
    + cbn [app fmap list_fmap renderOrderCard card_order]. by rewrite IH.
    + rewrite fmap_cons. cbn [app renderOrderCard card_order].
      rewrite <- Permutation_middle. by rewrite IH.
    + rewrite fmap_cons. cbn [renderOrderCard card_order].
      rewrite app_assoc, <- Permutation_middle, <- app_assoc. by rewrite IH.
  - by rewrite !(cardIn_None _ w E).
Qed.

Lemma cardIn_length ws :
  Forall (fun w => w_order w <> None) ws ->
  length (omap (cardIn NotStarted) ws ++ omap (cardIn Picking) ws
            ++ omap (cardIn Picked) ws) = length ws.
Proof.
  intros Hg. rewrite <- (length_fmap card_order), cardIn_orders.
  induction Hg as [|w ws Hw _ IH]; [done|].
  cbn [omap list_omap]. destruct (w_order w); [|done].
  cbn [length]. by rewrite IH.
Qed.

(** *** Moving a child keeps the children *)

Lemma insertBefore_perm {A} (i j : nat) (l : list A) :
  insertBefore i j l ≡ₚ l.
Proof.
  unfold insertBefore. destruct (l !! i) as [x|] eqn:E; [|done].
  destruct (decide (i = j)); [done|].
  rewrite <- Permutation_middle, take_drop.
  symmetry. by apply delete_Permutation.
Qed.

Lemma appendChild_perm {A} (i : nat) (l : list A) : appendChild i l ≡ₚ l.
Proof.
  unfold appendChild. destruct (l !! i) as [x|] eqn:E; [|done].
  rewrite <- Permutation_cons_append. symmetry. by apply delete_Permutation.
Qed.

Lemma moveLineToCompleteEnd_perm i l : moveLineToCompleteEnd i l ≡ₚ l.
Proof.
  unfold moveLineToCompleteEnd.
  destruct (firstOfGroup _ _); [apply insertBefore_perm|apply appendChild_perm].
Qed.

Lemma moveLineToIncompletePosition_perm i l :
  moveLineToIncompletePosition i l ≡ₚ l.
Proof.
  unfold moveLineToIncompletePosition. destruct (l !! i); [|done].
  repeat match goal with
         | |- context [match ?x with _ => _ end] => destruct x
         end; apply insertBefore_perm || apply appendChild_perm.
Qed.

Lemma moveLineToGroupEnd_perm i g l : moveLineToGroupEnd i g l ≡ₚ l.
Proof.
  destruct g; cbn [moveLineToGroupEnd].
  - apply moveLineToIncompletePosition_perm.
  - apply moveLineToCompleteEnd_perm.
  - apply appendChild_perm.
Qed.

Lemma updateLineEls_found line l i el :
  findIndex (fun x => bool_decide (el_lineId x = idStr (line_id line))) l
  = Some i ->
  l !! i = Some el ->
  let l1 := <[i := renderLine line]> l in
  updateLineEls line l
  = if negb (el_done el) && isLineDone line then moveLineToCompleteEnd i l1
    else if el_done el && negb (isLineDone line)
         then moveLineToIncompletePosition i l1
    else if bool_decide
              (el_group el ≠ groupOf (is_removed line) (isLineDone line))
         then moveLineToGroupEnd i
                (groupOf (is_removed line) (isLineDone line)) l1
    else l1.
Proof.
  intros Hf Hel. unfold updateLineEls. rewrite Hf, Hel.
  apply findIndex_Some in Hf as (x & Hx & Hp & _).
  rewrite Hel in Hx. injection Hx as <-. apply bool_decide_eq_true in Hp.
  unfold renderLine. rewrite Hp. reflexivity.
Qed.

Lemma firstOfGroup_Removed_layout inc comp rem :
  Forall (fun el => el_group el <> Removed) inc ->
  Forall (fun el => el_group el <> Removed) comp ->
  Forall (fun el => el_group el = Removed) rem ->
  firstOfGroup Removed (inc ++ comp ++ rem)
  = match rem with
    | [] => None
    | _ :: _ => Some (length inc + length comp)%nat
    end.
Proof.
  intros Hi Hc Hr. unfold firstOfGroup.
  assert (F : forall l, Forall (fun el => el_group el <> Removed) l ->
     findIndex (fun el => bool_decide (el_group el = Removed)) l = None).
  { intros l Hl. apply findIndex_all_false.
    eapply Forall_impl; [exact Hl|]. intros x Hx.
    by apply bool_decide_eq_false_2. }
  rewrite !findIndex_app, (F inc Hi), (F comp Hc).
  destruct rem as [|r rem]; [reflexivity|].
  apply Forall_cons in Hr as [Hr _].
  rewrite findIndex_cons, bool_decide_eq_true_2 by done.
  cbn [fmap option_fmap option_map]. f_equal. lia.
Qed.

Lemma delete_app_lt {A} (l1 l2 : list A) i :
  (i < length l1)%nat -> delete i (l1 ++ l2) = delete i l1 ++ l2.
Proof.
  revert i. induction l1 as [|y l1 IH]; intros i Hi; cbn [app length] in *;
    [lia|].
  destruct i as [|i]; [done|]. cbn [delete list_delete]. rewrite IH by lia.
  done.
Qed.

Lemma StronglySorted_delete {A} (R : A -> A -> Prop) l i :
  StronglySorted R l -> StronglySorted R (delete i l).
Proof.
  revert i. induction l as [|x l IH]; intros i Hs; [done|].
  apply StronglySorted_cons in Hs as [Hx Hs].
  destruct i as [|i]; cbn [delete list_delete]; [done|].
  apply StronglySorted_cons. split; [by apply Forall_delete|by apply IH].
Qed.

End SortFacts.

Section ListExtras.

(** X18.  [renderOrderDetail] shows every line of the open order exactly
    once.  The elements come in three groups: the lines that are neither
    removed nor done, those that are done and not removed, and the removed
    ones.  In each group the sort indices ascend, and lines with the same
    sort index keep the order they have in [state.orderDetail.lines].  The
    header shows the order, the completion overlay is hidden, and the store
    is left as it is. *)
Theorem X18_renderOrderDetail_groups (w : World) (dt : Detail) :
  orderDetail (state w) = Some dt ->
  exists w' inc comp rem,
    renderOrderDetail w = Finished (Ok tt) w'
    /\ orderLines (page w') = renderLine <$> (inc ++ comp ++ rem)
    /\ inc ++ comp ++ rem ≡ₚ d_lines dt
    /\ Forall (fun l => is_removed l = false /\ isLineDone l = false) inc
    /\ Forall (fun l => is_removed l = false /\ isLineDone l = true) comp
    /\ Forall (fun l => is_removed l = true) rem
    /\ StronglySorted byKey inc /\ StronglySorted byKey comp
    /\ StronglySorted byKey rem
    /\ (forall k g, g ∈ [inc; comp; rem] ->
          sublist (filter (fun l => sortKey l = k) g) (d_lines dt))
    /\ header (page w') = Some (d_order dt)
    /\ completeOverlay_hidden (page w') = true
    /\ state w' = state w.
Proof.
  intros Hd. unfold renderOrderDetail. run_prog. rewrite Hd. run_prog.
  set (lines := d_lines dt).
  set (P1 := fun l : Line => is_removed l = false /\ isLineDone l = false).
  set (P2 := fun l : Line => is_removed l = false /\ isLineDone l = true).
  set (P3 := fun l : Line => is_removed l = true).
  exists (withPage (set_hidden CompleteOverlay true)
            (withPage (set_orderLines
               (renderLine <$> sortBySort (filter P1 lines)
                  ++ sortBySort (filter P2 lines)
                  ++ sortBySort (filter P3 lines)))
               (withPage (set_header (Some (d_order dt))) w))),
    (sortBySort (filter P1 lines)), (sortBySort (filter P2 lines)),
    (sortBySort (filter P3 lines)).
  split; [reflexivity|]. split; [reflexivity|]. split.
  { rewrite !sortBySort_perm. apply filter3_perm. intros x.
    unfold P1, P2, P3.
    destruct (is_removed x), (isLineDone x); intuition congruence. }
  split; [apply sortBySort_Forall, Forall_forall; intros x Hx;
          by apply list_elem_of_filter in Hx as [Hx _]|].
  split; [apply sortBySort_Forall, Forall_forall; intros x Hx;
          by apply list_elem_of_filter in Hx as [Hx _]|].
  split; [apply sortBySort_Forall, Forall_forall; intros x Hx;
          by apply list_elem_of_filter in Hx as [Hx _]|].
  split; [apply sortBySort_sorted|]. split; [apply sortBySort_sorted|].
  split; [apply sortBySort_sorted|]. split; [|done].
  intros k g Hg. rewrite !elem_of_cons, elem_of_nil in Hg.
  destruct Hg as [->|[->|[->|[]]]]; rewrite sortBySort_stable;
    (etrans; [apply sublist_filter|apply sublist_filter]).
Qed.

Lemma X18_renderOrderDetail_groups_witness :
  exists w' inc comp rem,
    renderOrderDetail sampleWorld = Finished (Ok tt) w'
    /\ orderLines (page w') = renderLine <$> (inc ++ comp ++ rem).
Proof.
  destruct (X18_renderOrderDetail_groups sampleWorld
              (mkDetail (sampleOrder 8) [sampleLine 1 5 1; sampleLine 2 3 2])
              eq_refl)
    as (w' & inc & comp & rem & H1 & H2 & _).
  by exists w', inc, comp, rem.
Defined.

(** X15.  [renderBoard] puts one card on the board for every entry of the
    Board Cache: the cards of the column "not_started" first, then those of
    "picking", then those of "picked", each column in the order of the
    cache; an order whose [column] is missing or unknown goes to
    "not_started".  An entry without an [order] makes [renderBoard] throw,
    after the cards of the entries before it have been put on the board. *)
Theorem X15_renderBoard_cards (w : World) :
  let ws := orders (state w) in
  (Forall (fun wr => w_order wr <> None) ws ->
   exists w',
     renderBoard w = Finished (Ok tt) w'
     /\ state w' = state w
     /\ board (page w')
        = omap (cardIn NotStarted) ws ++ omap (cardIn Picking) ws
            ++ omap (cardIn Picked) ws
     /\ card_order <$> board (page w') ≡ₚ omap w_order ws
     /\ length (board (page w')) = length ws)
  /\ (forall i wr,
        ws !! i = Some wr -> w_order wr = None ->
        Forall (fun wr => w_order wr <> None) (take i ws) ->
        exists w',
          renderBoard w = Finished (Throw TypeError) w'
          /\ state w' = state w
          /\ board (page w')
             = omap (cardIn NotStarted) (take i ws)
                 ++ omap (cardIn Picking) (take i ws)
                 ++ omap (cardIn Picked) (take i ws)).
Proof.
  cbv zeta. split.
  - intros Hg. unfold renderBoard. run_prog.
    rewrite (boardCards_good _ Hg). run_prog.
    eexists. split; [reflexivity|]. split; [reflexivity|].
    cbn [page withPage board set_board]. rewrite !inColumn_cards.
    split; [reflexivity|]. split; [apply cardIn_orders|by apply cardIn_length].
  - intros i wr Hi Hn Hg. unfold renderBoard. run_prog.
    rewrite (boardCards_bad _ i wr Hi Hn Hg). run_prog.
    eexists. split; [reflexivity|]. split; [reflexivity|].
    cbn [page withPage board set_board]. by rewrite !inColumn_cards.
Qed.

Lemma X15_renderBoard_cards_witness :
  exists w', renderBoard sampleWorld = Finished (Ok tt) w'
             /\ length (board (page w')) = 2%nat.
Proof.
  destruct (proj1 (X15_renderBoard_cards sampleWorld))
    as (w' & H1 & _ & _ & _ & H2).
  - repeat constructor; done.
  - by exists w'.
Defined.

(** X19.  [updateLineUI] moves line elements but never drops or duplicates
    one.  If no element carries the id of the line, the list is left as it
    is; otherwise the first element with that id gets the data of a freshly
    rendered element, and the list afterwards holds that element and the
    other elements, each once. *)
Theorem X19_updateLineUI_keeps_elements (line : Line) (w : World) :
  let l := orderLines (page w) in
  exists w',
    updateLineUI line w = Finished (Ok tt) w'
    /\ state w' = state w
    /\ match findIndex
               (fun x => bool_decide (el_lineId x = idStr (line_id line))) l
       with
       | None => orderLines (page w') = l
       | Some i =>
           is_Some (l !! i)
           /\ orderLines (page w') ≡ₚ <[i := renderLine line]> l
           /\ length (orderLines (page w')) = length l
       end.
Proof.
  cbv zeta. unfold updateLineUI, modifyPage.
  eexists. split; [reflexivity|]. split; [reflexivity|].
  cbn [page withPage orderLines set_orderLines].
  set (l := orderLines (page w)).
  destruct (findIndex _ l) as [i|] eqn:Hf.
  - pose proof Hf as Hf'. apply findIndex_Some in Hf' as (el & Hel & _).
    split; [by exists el|].
    assert (Hp : updateLineEls line l ≡ₚ <[i := renderLine line]> l).
    { rewrite (updateLineEls_found line l i el Hf Hel). cbv zeta.
      destruct (negb (el_done el) && isLineDone line);
        [apply moveLineToCompleteEnd_perm|].
      destruct (el_done el && negb (isLineDone line));
        [apply moveLineToIncompletePosition_perm|].
      destruct (bool_decide _); [apply moveLineToGroupEnd_perm|done]. }
    split; [exact Hp|]. by rewrite Hp, length_insert.
  - unfold updateLineEls. by rewrite Hf.
Qed.

(** X20.  Where a line goes when it leaves the incomplete group.  On a list
    laid out as [renderOrderDetail] lays it out, an incomplete line that
    becomes done, and is not removed, is taken out of its place and put at
    the end of the complete group, just before the first removed line; the
    layout is kept.  An element that is not in the removed group, whose line
    becomes removed with its done flag unchanged, is put at the very end. *)
Theorem X20_line_moves_to_group_end :
  (forall inc comp rem line i,
      Layout inc comp rem ->
      findIndex (fun x => bool_decide (el_lineId x = idStr (line_id line)))
        (inc ++ comp ++ rem) = Some i ->
      (i < length inc)%nat ->
      isLineDone line = true -> is_removed line = false ->
      updateLineEls line (inc ++ comp ++ rem)
      = delete i inc ++ (comp ++ [renderLine line]) ++ rem
      /\ Layout (delete i inc) (comp ++ [renderLine line]) rem)
  /\ (forall l line i el,
        findIndex (fun x => bool_decide (el_lineId x = idStr (line_id line))) l
        = Some i ->
        l !! i = Some el -> el_group el <> Removed ->
        is_removed line = true -> isLineDone line = el_done el ->
        updateLineEls line l = delete i l ++ [renderLine line]).
Proof.
  split.
  - intros inc comp rem line i [Hinc Hcomp Hrem Hsort] Hf Hi Hdone Hnr.
    destruct (lookup_lt_is_Some_2 inc i Hi) as [el Hel].
    assert (Hel' : (inc ++ comp ++ rem) !! i = Some el)
      by (by rewrite lookup_app_l).
    rewrite Forall_lookup in Hinc. destruct (Hinc i el Hel) as [Hg Hd].
    rewrite (updateLineEls_found line _ i el Hf Hel'). cbv zeta.
    rewrite Hd, Hdone. cbn [negb andb].
    assert (Hgr : el_group (renderLine line) = Complete)
      by (unfold renderLine; cbn [el_group]; by rewrite Hnr, Hdone).
    rewrite insert_app_l by done.
    split.
    + unfold moveLineToCompleteEnd.
      rewrite firstOfGroup_Removed_layout.
      2:{ apply Forall_lookup. intros k x Hx.
          destruct (decide (k = i)) as [->|Hne].
          - rewrite list_lookup_insert_eq in Hx by done.
            injection Hx as <-. by rewrite Hgr.
          - rewrite list_lookup_insert_ne in Hx by done.
            destruct (Hinc k x Hx) as [-> _]. done. }
      2:{ eapply Forall_impl; [exact Hcomp|]. intros x ->. done. }
      2:{ done. }
      assert (Hl1 : (<[i:=renderLine line]> inc ++ comp ++ rem) !! i
                    = Some (renderLine line)).
      { rewrite lookup_app_l by (by rewrite length_insert).
        by apply list_lookup_insert_eq. }
      assert (Hdel : delete i (<[i:=renderLine line]> inc ++ comp ++ rem)
                     = delete i inc ++ comp ++ rem).
      { rewrite delete_app_lt by (by rewrite length_insert).
        by rewrite delete_insert_same. }
      destruct rem as [|r rem].
      * unfold appendChild. rewrite Hl1, Hdel.
        by rewrite !app_nil_r, <- app_assoc.
      * unfold insertBefore. rewrite Hl1, Hdel.
        rewrite length_insert.
        rewrite decide_False by lia. rewrite decide_True by lia.
        assert (Hlen : pred (length inc + length comp)
                       = length (delete i inc ++ comp)).
        { rewrite length_app, length_delete by (by exists el). lia. }
        rewrite Hlen, app_assoc, take_app_length, drop_app_length.
        by rewrite <- !app_assoc.
    + split.
      * apply Forall_delete, Forall_lookup. exact Hinc.
      * apply Forall_app. split; [done|]. by apply Forall_singleton.
      * done.
      * by apply StronglySorted_delete.
  - intros l line i el Hf Hel Hg Hr Hd.
    rewrite (updateLineEls_found line l i el Hf Hel). cbv zeta.
    rewrite Hd. rewrite andb_negb_l, andb_negb_r.
    assert (Hgr : groupOf (is_removed line) (el_done el) = Removed)
      by (by rewrite Hr).
    rewrite Hgr, bool_decide_eq_true_2 by done.
    cbn [moveLineToGroupEnd]. unfold appendChild.
    assert (Hlt : (i < length l)%nat) by (by eapply lookup_lt_Some).
    rewrite list_lookup_insert_eq by done.
    by rewrite delete_insert_same.
Qed.

Lemma X20_line_moves_to_group_end_witness :
  updateLineEls (sampleLine 1 5 1) sampleEls
  = [renderLine (sampleLine 3 0 3); renderLine (sampleLine 2 5 2);
     renderLine (sampleLine 1 5 1)]
  /\ updateLineEls
       (mkLine (IdNum 1) (Some (Num.ofZ 5)) (Some (Num.ofZ 0)) None false true
          "item" None (Some 1)) sampleEls
     = [renderLine (sampleLine 3 0 3); renderLine (sampleLine 2 5 2);
        renderLine (mkLine (IdNum 1) (Some (Num.ofZ 5)) (Some (Num.ofZ 0))
                      None false true "item" None (Some 1))].
Proof.
  split.
  - apply (proj1 X20_line_moves_to_group_end
             [renderLine (sampleLine 1 0 1); renderLine (sampleLine 3 0 3)]
             [renderLine (sampleLine 2 5 2)] [] (sampleLine 1 5 1) 0%nat).
    + split.
      * repeat constructor.
      * repeat constructor.
      * constructor.
      * repeat constructor. unfold bySortIndex. vm_compute. discriminate.
    + vm_compute. reflexivity.
    + cbn [length]. lia.
    + vm_compute. reflexivity.
    + reflexivity.
  - apply (proj2 X20_line_moves_to_group_end sampleEls _ 0%nat
             (renderLine (sampleLine 1 0 1))).
    + vm_compute. reflexivity.
    + reflexivity.
    + vm_compute. discriminate.
    + reflexivity.
    + vm_compute. reflexivity.
Defined.

End ListExtras.

(* ===================================================================== *)
(** * The layout of the order view is kept *)
(* ===================================================================== *)

Section LayoutFacts.

(** Where an element of a laid-out list is. *)
Lemma layout_position inc comp rem i el :
  Layout inc comp rem -> (inc ++ comp ++ rem) !! i = Some el ->
  ((i < length inc)%nat /\ inc !! i = Some el
   /\ el_group el = Incomplete /\ el_done el = false)
  \/ ((length inc <= i)%nat /\ el_group el <> Incomplete).
Proof.
  intros [Hi Hc Hr _] Hl.
  destruct (decide (i < length inc)%nat) as [Hlt|Hge].
  - left. rewrite lookup_app_l in Hl by done.
    rewrite Forall_lookup in Hi. destruct (Hi i el Hl). done.
  - right. split; [lia|]. rewrite lookup_app_r in Hl by lia.
    apply list_elem_of_lookup_2, elem_of_app in Hl as [Hl|Hl].
    + rewrite Forall_forall in Hc. by rewrite (Hc el Hl).
    + rewrite Forall_forall in Hr. by rewrite (Hr el Hl).
Qed.

(** Taking an element out keeps the layout. *)
Lemma layout_delete inc comp rem i :
  Layout inc comp rem ->
  exists inc2 comp2 rem2,
    delete i (inc ++ comp ++ rem) = inc2 ++ comp2 ++ rem2
    /\ Layout inc2 comp2 rem2
    /\ ((length inc <= i)%nat -> inc2 = inc).
Proof.
  intros [Hi Hc Hr Hs].
  destruct (decide (i < length inc)%nat) as [Hlt|Hge].
  - exists (delete i inc), comp, rem. split; [by apply delete_app_lt|].
    split; [|lia]. split; try done.
    + by apply Forall_delete.
    + by apply StronglySorted_delete.
  - destruct (tail_delete comp rem (i - length inc)%nat Hc Hr)
      as (comp' & rem' & Htail & Hc' & Hr').
    exists inc, comp', rem'. split.
    + rewrite delete_app_ge by lia. by rewrite Htail.
    + split; [by split|done].
Qed.

(** [moveLineToCompleteEnd] in terms of the other children. *)
Lemma moveLineToCompleteEnd_rest l i x :
  l !! i = Some x -> el_group x <> Removed ->
  let rest := delete i l in
  moveLineToCompleteEnd i l
  = match firstOfGroup Removed rest with
    | Some j => insertAt j x rest
    | None => rest ++ [x]
    end.
Proof.
  intros Hx Hg rest. unfold moveLineToCompleteEnd, firstOfGroup.
  rewrite (findIndex_skip _ l i x Hx) by (by apply bool_decide_eq_false_2).
  fold rest. destruct (findIndex _ rest) as [j|];
    cbn [fmap option_fmap option_map].
  - by apply insertBefore_unskip.
  - unfold appendChild. by rewrite Hx.
Qed.

Lemma layout_groups_not_removed inc comp rem :
  Layout inc comp rem ->
  Forall (fun el => el_group el <> Removed) inc
  /\ Forall (fun el => el_group el <> Removed) comp.
Proof.
  intros [Hi Hc _ _]. split.
  - eapply Forall_impl; [exact Hi|]. intros x [-> _]. done.
  - eapply Forall_impl; [exact Hc|]. intros x ->. done.
Qed.

(** The element put at the end of the complete group. *)
Lemma move_complete_layout inc comp rem i x :
  Layout inc comp rem -> (i < length (inc ++ comp ++ rem))%nat ->
  el_group x = Complete ->
  exists inc' comp' rem',
    moveLineToCompleteEnd i (<[i := x]> (inc ++ comp ++ rem))
    = inc' ++ comp' ++ rem'
    /\ Layout inc' comp' rem'.
Proof.
  intros HL Hlt Hg.
  rewrite (moveLineToCompleteEnd_rest _ i x);
    [|by apply list_lookup_insert_eq|by rewrite Hg].
  cbv zeta. rewrite delete_insert_same.
  destruct (layout_delete inc comp rem i HL)
    as (inc2 & comp2 & rem2 & -> & HL2 & _).
  destruct (layout_groups_not_removed _ _ _ HL2) as [Hn1 Hn2].
  destruct HL2 as [Hi2 Hc2 Hr2 Hs2].
  rewrite firstOfGroup_Removed_layout by done.
  exists inc2, (comp2 ++ [x]), rem2. split.
  - destruct rem2 as [|r rem2].
    + by rewrite !app_nil_r, <- app_assoc.
    + unfold insertAt.
      replace (length inc2 + length comp2)%nat
        with (length (inc2 ++ comp2)) by (by rewrite length_app).
      rewrite app_assoc, take_app_length, drop_app_length.
      by rewrite <- !app_assoc.
  - split; try done. apply Forall_app. split; [done|].
    by apply Forall_singleton.
Qed.

(** The element put at the very end. *)
Lemma append_layout inc comp rem i x :
  Layout inc comp rem -> (i < length (inc ++ comp ++ rem))%nat ->
  el_group x = Removed ->
  exists inc' comp' rem',
    appendChild i (<[i := x]> (inc ++ comp ++ rem)) = inc' ++ comp' ++ rem'
    /\ Layout inc' comp' rem'.
Proof.
  intros HL Hlt Hg. unfold appendChild.
  rewrite list_lookup_insert_eq by done. rewrite delete_insert_same.
  destruct (layout_delete inc comp rem i HL)
    as (inc2 & comp2 & rem2 & -> & [Hi2 Hc2 Hr2 Hs2] & _).
  exists inc2, comp2, (rem2 ++ [x]). split; [by rewrite <- !app_assoc|].
  split; try done. apply Forall_app. split; [done|].
  by apply Forall_singleton.
Qed.

(** The element put back among the incomplete ones. *)
Lemma move_incomplete_layout inc comp rem i x :
  Layout inc comp rem -> (i < length (inc ++ comp ++ rem))%nat ->
  (length inc <= i)%nat ->
  el_group x = Incomplete -> el_done x = false ->
  exists inc' comp' rem',
    moveLineToIncompletePosition i (<[i := x]> (inc ++ comp ++ rem))
    = inc' ++ comp' ++ rem'
    /\ Layout inc' comp' rem'.
Proof.
  intros HL Hlt Hge Hg Hd.
  rewrite (moveLineToIncompletePosition_rest _ i x);
    [|by apply list_lookup_insert_eq|done].
  cbv zeta. rewrite delete_insert_same.
  destruct (layout_delete inc comp rem i HL)
    as (inc2 & comp2 & rem2 & -> & [Hi2 Hc2 Hr2 Hs2] & Hsame).
  destruct (insert_position inc2 comp2 rem2 x Hi2 Hc2 Hr2 Hs2 Hg)
    as (inc1 & inc3 & Hsplit & Hres & H1 & H2).
  cbv zeta in Hres. rewrite Hres.
  exists (inc1 ++ x :: inc3), comp2, rem2.
  split; [by rewrite <- app_assoc|].
  subst inc2. apply Forall_app in Hi2 as [Hi1 Hi3].
  apply StronglySorted_app in Hs2 as (H13 & Hs1 & Hs3).
  split; [|done|done|].
  - apply Forall_app. split; [done|]. apply Forall_cons. by split.
  - apply StronglySorted_app. split; [|split; [done|]].
    + intros a b Ha Hb. apply elem_of_cons in Hb as [->|Hb].
      * rewrite Forall_forall in H1. by apply H1.
      * by apply H13.
    + apply StronglySorted_cons. split; [|done].
      eapply Forall_impl; [exact H2|]. unfold bySortIndex.
      intros z Hz. cbv beta in Hz. lia.
Qed.

Lemma StronglySorted_insert_same inc i el x :
  StronglySorted bySortIndex inc -> inc !! i = Some el ->
  el_sortIndex x = el_sortIndex el ->
  StronglySorted bySortIndex (<[i := x]> inc).
Proof.
  revert i. induction inc as [|y inc IH]; intros i Hs Hel Hk; [done|].
  apply StronglySorted_cons in Hs as [Hy Hs].
  destruct i as [|i]; cbn [insert list_insert].
  - injection Hel as ->. apply StronglySorted_cons. split; [|done].
    eapply Forall_impl; [exact Hy|]. unfold bySortIndex. intros z Hz.
    cbv beta in Hz. lia.
  - apply StronglySorted_cons. split; [|by apply (IH i)].
    apply Forall_insert; [done|]. rewrite Forall_lookup in Hy.
    specialize (Hy i el Hel). unfold bySortIndex in *. lia.
Qed.

(** The element brought up to date where it is. *)
Lemma in_place_layout inc comp rem i el x :
  Layout inc comp rem -> (inc ++ comp ++ rem) !! i = Some el ->
  el_group x = el_group el ->
  (el_group el = Incomplete ->
   el_done x = false /\ el_sortIndex x = el_sortIndex el) ->
  exists inc' comp' rem',
    <[i := x]> (inc ++ comp ++ rem) = inc' ++ comp' ++ rem'
    /\ Layout inc' comp' rem'.
Proof.
  intros HL Hel Hg Hinc. pose proof HL as [Hi Hc Hr Hs].
  destruct (layout_position inc comp rem i el HL Hel)
    as [(Hlt & Hel' & Hgi & Hdi)|[Hge Hni]].
  - destruct (Hinc Hgi) as [Hd Hk].
    exists (<[i := x]> inc), comp, rem. split; [by apply insert_app_l|].
    split; try done.
    + apply Forall_insert; [done|]. split; [congruence|done].
    + by apply (StronglySorted_insert_same inc i el).
  - rewrite insert_app_r_alt by done.
    rewrite lookup_app_r in Hel by done.
    destruct (decide (i - length inc < length comp)%nat) as [Hlt|Hge2].
    + exists inc, (<[(i - length inc)%nat := x]> comp), rem.
      split; [by rewrite insert_app_l|].
      rewrite lookup_app_l in Hel by done.
      split; try done. apply Forall_insert; [done|].
      rewrite Forall_lookup in Hc. rewrite Hg. by apply (Hc _ _ Hel).
    + exists inc, comp, (<[(i - length inc - length comp)%nat := x]> rem).
      split; [by rewrite insert_app_r_alt by lia|].
      rewrite lookup_app_r in Hel by lia.
      split; try done. apply Forall_insert; [done|].
      rewrite Forall_lookup in Hr. rewrite Hg. by apply (Hr _ _ Hel).
Qed.

End LayoutFacts.

Section LayoutExtras.

(** X21.  [updateLineUI] keeps the layout of the order view.  On a list laid
    out as [renderOrderDetail] lays it out (the incomplete lines by ascending
    sort index, then the complete ones, then the removed ones), after the
    update of a line the list is laid out in the same way again, provided
    that a line that arrives removed has the done flag its element had, and
    that a line that stays incomplete has kept its sort index. *)
Theorem X21_updateLineUI_keeps_layout inc comp rem line i el :
  Layout inc comp rem ->
  findIndex (fun x => bool_decide (el_lineId x = idStr (line_id line)))
    (inc ++ comp ++ rem) = Some i ->
  (inc ++ comp ++ rem) !! i = Some el ->
  (is_removed line = true -> isLineDone line = el_done el) ->
  (el_group el = Incomplete -> isLineDone line = false ->
   is_removed line = false -> intOr0 (sort_index line) = el_sortIndex el) ->
  exists inc' comp' rem',
    updateLineEls line (inc ++ comp ++ rem) = inc' ++ comp' ++ rem'
    /\ Layout inc' comp' rem'.
Proof.
  intros HL Hf Hel Hrm Hsort.
  assert (Hlt : (i < length (inc ++ comp ++ rem))%nat)
    by (by eapply lookup_lt_Some).
  rewrite (updateLineEls_found line _ i el Hf Hel). cbv zeta.
  set (x := renderLine line).
  assert (Hxg : el_group x = groupOf (is_removed line) (isLineDone line))
    by reflexivity.
  assert (Hxd : el_done x = isLineDone line) by reflexivity.
  assert (Hxk : el_sortIndex x = intOr0 (sort_index line)) by reflexivity.
  clearbody x.
  destruct (layout_position inc comp rem i el HL Hel)
    as [(Hi & _ & Hgi & Hdi)|[Hge Hni]].
  - (* the element is in the incomplete group *)
    rewrite Hdi, Hgi. cbn [negb andb].
    destruct (is_removed line) eqn:Er.
    + rewrite (Hrm eq_refl), Hdi in *. cbn [groupOf andb] in *.
      rewrite bool_decide_eq_true_2 by done. cbn [moveLineToGroupEnd].
      by apply append_layout.
    + destruct (isLineDone line) eqn:Ed; cbn [groupOf andb] in *.
      * by apply move_complete_layout.
      * rewrite bool_decide_eq_false_2 by (intros H; by apply H).
        apply (in_place_layout inc comp rem i el x HL Hel); [congruence|].
        intros _. split; [done|]. rewrite Hxk. by apply Hsort.
  - (* the element is in the complete or in the removed group *)
    destruct (is_removed line) eqn:Er.
    + rewrite (Hrm eq_refl) in *. cbn [groupOf] in *.
      rewrite andb_negb_l, andb_negb_r.
      destruct (decide (el_group el = Removed)) as [Hg|Hg].
      * rewrite bool_decide_eq_false_2 by (intros H; by apply H).
        apply (in_place_layout inc comp rem i el x HL Hel); [congruence|].
        intros Hc. congruence.
      * rewrite bool_decide_eq_true_2 by done. cbn [moveLineToGroupEnd].
        by apply append_layout.
    + destruct (isLineDone line) eqn:Ed, (el_done el) eqn:Ew;
        cbn [groupOf negb andb] in *.
      * destruct (decide (el_group el = Complete)) as [Hg|Hg].
        -- rewrite bool_decide_eq_false_2 by (intros H; by apply H).
           apply (in_place_layout inc comp rem i el x HL Hel); [congruence|].
           intros Hc. congruence.
        -- rewrite bool_decide_eq_true_2 by done. cbn [moveLineToGroupEnd].
           by apply move_complete_layout.
      * by apply move_complete_layout.
      * by apply move_incomplete_layout.
      * rewrite bool_decide_eq_true_2 by done. cbn [moveLineToGroupEnd].
        by apply move_incomplete_layout.
Qed.

Lemma X21_updateLineUI_keeps_layout_witness :
  exists inc' comp' rem',
    updateLineEls (sampleLine 2 3 2) sampleEls = inc' ++ comp' ++ rem'
    /\ Layout inc' comp' rem'.
Proof.
  apply (X21_updateLineUI_keeps_layout
           [renderLine (sampleLine 1 0 1); renderLine (sampleLine 3 0 3)]
           [renderLine (sampleLine 2 5 2)] [] (sampleLine 2 3 2) 2%nat
           (renderLine (sampleLine 2 5 2))).
  - split.
    + repeat constructor.
    + repeat constructor.
    + constructor.
    + repeat constructor. unfold bySortIndex. vm_compute. discriminate.
  - vm_compute. reflexivity.
  - reflexivity.
  - intros H. discriminate H.
  - intros H. vm_compute in H. discriminate H.
Defined.

End LayoutExtras.

(* ===================================================================== *)
(** * Cards and the ids they are found by *)
(* ===================================================================== *)

Section KeyFacts.

Lemma natStr_inj a b : 0 <= a -> 0 <= b -> natStr a = natStr b -> a = b.
Proof.
  intros Ha Hb H. apply (f_equal digitsVal) in H.
  by rewrite !digitsVal_natStr in H.
Qed.

Lemma idStr_num_inj a b : idStr (IdNum a) = idStr (IdNum b) -> a = b.
Proof.
  unfold idStr.
  destruct (a <? 0) eqn:Ea, (b <? 0) eqn:Eb; intros H;
    try apply Z.ltb_lt in Ea; try apply Z.ltb_ge in Ea;
    try apply Z.ltb_lt in Eb; try apply Z.ltb_ge in Eb.
  - injection H as H. apply natStr_inj in H; lia.
  - exfalso. destruct (natStr_cons b) as (c & r & E & Hc).
    rewrite E in H. injection H as <- _. done.
  - exfalso. destruct (natStr_cons a) as (c & r & E & Hc).
    rewrite E in H. injection H as -> _. done.
  - by apply natStr_inj.
Qed.

Lemma findIndex_ext_in {A} (p q : A -> bool) l :
  Forall (fun x => p x = q x) l -> findIndex p l = findIndex q l.
Proof.
  induction 1 as [|x l Hx _ IH]; [done|].
  by rewrite !findIndex_cons, Hx, IH.
Qed.

End KeyFacts.

Section KeyExtras.

(** X16.  Numeric ids and the attributes they are stored in: two different
    numeric ids never give the same [data-] attribute.  So, on a board whose
    cards show orders with numeric ids, [updateOrderCardOnBoard] for an order
    with a numeric id finds the first card that shows an order with that id:
    it gives that card the new order, and leaves the board as it is when no
    card shows such an order; the other cards, and the state, are never
    touched. *)
Theorem X16_card_found_by_id (order : Order) (w : World) (n : Z) :
  order_id order = IdNum n ->
  Forall cardKeyed (board (page w)) ->
  (forall a b, idStr (IdNum a) = idStr (IdNum b) -> a = b)
  /\ exists w',
       updateOrderCardOnBoard order w = Finished (Ok tt) w'
       /\ state w' = state w
       /\ match findIndex (fun cd => bool_decide
                             (order_id (card_order cd) = order_id order))
                  (board (page w)) with
          | None => w' = w
          | Some i =>
              page w'
              = set_board
                  (alter (fun cd => mkCard (card_orderId cd) order
                                      (card_lines cd)) i (board (page w)))
                  (page w)
              /\ Forall cardKeyed (board (page w'))
          end.
Proof.
  intros Hid Hk. split; [apply idStr_num_inj|].
  unfold updateOrderCardOnBoard. run_prog.
  rewrite (findIndex_ext_in _
             (fun cd => bool_decide
                          (order_id (card_order cd) = order_id order))).
  2:{ eapply Forall_impl; [exact Hk|]. intros cd [Hs [m Hm]].
      rewrite Hs, Hm, Hid. apply bool_decide_ext. split.
      - intros H. f_equal. by apply idStr_num_inj.
      - by intros [= ->]. }
  destruct (findIndex _ (board (page w))) as [i|] eqn:E; run_prog.
  - eexists. split; [reflexivity|]. split; [reflexivity|].
    split; [reflexivity|]. cbn [page withPage board set_board].
    apply findIndex_Some in E as (cd & Hcd & Hp & _).
    apply bool_decide_eq_true in Hp.
    apply Forall_alter; [done|]. intros cd' Hcd'.
    rewrite Hcd in Hcd'. injection Hcd' as <-.
    rewrite Forall_lookup in Hk. destruct (Hk i cd Hcd) as [Hs [m Hm]].
    split; cbn [card_orderId card_order]; [by rewrite Hs, Hp|by exists n].
  - eexists. split; [reflexivity|]. split; [reflexivity|].
    by destruct w.
Qed.

Lemma X16_card_found_by_id_witness :
  exists w',
    updateOrderCardOnBoard (sampleOrder 10)
      (withPage (set_board [renderOrderCard (sampleOrder 8)
                              (mkWrapper (Some (sampleOrder 8)) [])])
         sampleWorld)
    = Finished (Ok tt) w'
    /\ card_order <$> board (page w') = [sampleOrder 10].
Proof.
  destruct (proj2 (X16_card_found_by_id (sampleOrder 10)
              (withPage (set_board [renderOrderCard (sampleOrder 8)
                                      (mkWrapper (Some (sampleOrder 8)) [])])
                 sampleWorld) 7 eq_refl
              ltac:(repeat constructor; by exists 7)))
    as (w' & Hrun & _ & Hpage).
  exists w'. split; [exact Hrun|].
  vm_compute in Hrun. injection Hrun as <-. vm_compute. reflexivity.
Defined.

End KeyExtras.

(* ===================================================================== *)
(** * The course of the asynchronous functions *)
(* ===================================================================== *)

Section FlowFacts.

Lemma el_line_renderLine (l : list Line) : el_line <$> (renderLine <$> l) = l.
Proof.
  induction l as [|x l IH]; [done|]. rewrite !fmap_cons, IH. reflexivity.
Qed.

Lemma rendered_lines_perm lines :
  el_line <$> (renderLine <$>
     (sortBySort (filter (fun l => is_removed l = false
                                   /\ isLineDone l = false) lines)
      ++ sortBySort (filter (fun l => is_removed l = false
                                      /\ isLineDone l = true) lines)
      ++ sortBySort (filter (fun l => is_removed l = true) lines)))
  ≡ₚ lines.
Proof.
  rewrite el_line_renderLine, !sortBySort_perm. apply filter3_perm.
  intros x. destruct (is_removed x), (isLineDone x); intuition congruence.
Qed.

Lemma stopPolling_any w :
  exists w', stopPolling w = Finished (Ok tt) w'
             /\ pollTimer (state w') = None.
Proof.
  unfold stopPolling. run_prog.
  destruct (pollTimer (state w)) eqn:E; run_prog; eexists;
    (split; [reflexivity|]); [reflexivity|exact E].
Qed.

(** The steps of [openOrder] up to its second request. *)
Lemma openOrder_steps id w0 :
  exists w0' k,
    openOrder id w0 = Waiting (ReqOpen id) w0' k
    /\ pollTimer (state w0') = None
    /\ forall res1 w1,
         exists w1',
           k res1 w1
           = bindRun (loadOrderDetail id w1')
               (fun _ => hide AppView ≫= fun _ => show OrderView)
           /\ (ok res1 = false -> status res1 <> 401 -> w1' = w1).
Proof.
  destruct (stopPolling_any w0) as (w0' & Hs & Hp0).
  unfold openOrder.
  unfold mbind at 1, P_bind at 1. rewrite Hs. cbn [bindRun].
  unfold ignoreErrors, tryCatch. unfold mbind at 1, P_bind at 1.
  unfold mbind at 1, P_bind at 1.
  rewrite apiFetch_waiting. cbn [bindRun catchRun].
  eexists _, _. split; [reflexivity|]. split; [exact Hp0|].
  intros res1 w1. cbv beta. rewrite apiFetch_resume.
  match goal with
  | |- context [bindRun ?T _] =>
      lazymatch T with
      | catchRun _ _ =>
          assert (HT : exists w1', T = Finished (Ok tt) w1'
                    /\ (ok res1 = false -> status res1 <> 401 -> w1' = w1))
      end
  end.
  { destruct (status res1 =? 401) eqn:E401.
    - apply Z.eqb_eq in E401.
      destruct (logout_world w1) as (wl & Hl & _).
      unfold mbind, P_bind, throw. rewrite Hl. cbn [bindRun catchRun].
      unfold mret, P_ret. eexists. split; [reflexivity|]. intros _ H. done.
    - cbn [bindRun]. destruct (ok res1) eqn:Eok.
      + run_prog. destruct (body res1) as [| | | | |[order|]|]; run_prog;
          try (eexists; split; [reflexivity|]; done).
        destruct (findOrder _ _); run_prog;
          [|eexists; split; [reflexivity|]; done].
        destruct (boardCards _) as [cs bad]. run_prog.
        destruct bad; run_prog; eexists; (split; [reflexivity|]); done.
      + run_prog. eexists. split; [reflexivity|]. done. }
  destruct HT as (w1' & -> & Hw1). cbn [bindRun].
  exists w1'. split; [reflexivity|exact Hw1].
Qed.

Lemma loadOrderDetail_waiting id w0 :
  loadOrderDetail id w0
  = Waiting (ReqOrder id) w0
      (fun res w => resume (loadOrderDetail id w0) res w).
Proof. reflexivity. Qed.

Lemma loadOrderDetail_resume id w0 res w :
  resume (loadOrderDetail id w0) res w
  = if status res =? 401
    then Finished (Throw Unauthorized) (worldOf (logout w))
    else if negb (ok res) then Finished (Throw (Failed (text res))) w
    else match body res with
         | BDetail dt =>
             renderOrderDetail
               (withState (set_activeOrderId (Some id))
                  (withState (set_orderDetail (Some dt)) w))
         | _ => Finished (Throw BadBody) w
         end.
Proof.
  unfold loadOrderDetail. rewrite resume_bind by done.
  rewrite apiFetch_resume. destruct (status res =? 401); [reflexivity|].
  cbn [bindRun]. destruct (negb (ok res)); [reflexivity|].
  unfold json_detail. destruct (body res); reflexivity.
Qed.

End FlowFacts.

Section FlowExtras.

(** X17.  [openOrder] stops polling and asks the backend to mark the order;
    whatever the answer, it then requests the order, and an answer to the
    first request that is not ok (and not 401) changes nothing.  When the
    order arrives, it becomes Order Detail and the active order, the order
    view replaces the board view, the overlay is hidden, the header shows
    the order and every line is shown once.  When the request for the order
    fails with a status other than 401, [openOrder] throws and leaves
    everything as it is: the views are not switched and polling is not
    started again. *)
Theorem X17_openOrder_outcome id w0 res1 w1 res2 w2 :
  let r0 := openOrder id w0 in
  let r1 := resume r0 res1 w1 in
  let r2 := resume r1 res2 w2 in
  requestOf r0 = Some (ReqOpen id)
  /\ pollTimer (state (worldOf r0)) = None
  /\ requestOf r1 = Some (ReqOrder id)
  /\ (ok res1 = false -> status res1 <> 401 -> worldOf r1 = w1)
  /\ (forall dt,
        ok res2 = true -> body res2 = BDetail dt ->
        exists w',
          r2 = Finished (Ok tt) w'
          /\ orderDetail (state w') = Some dt
          /\ activeOrderId (state w') = Some id
          /\ config (state w') = config (state w2)
          /\ orders (state w') = orders (state w2)
          /\ pollTimer (state w') = pollTimer (state w2)
          /\ intervals w' = intervals w2
          /\ appView_hidden (page w') = true
          /\ orderView_hidden (page w') = false
          /\ completeOverlay_hidden (page w') = true
          /\ loginView_hidden (page w') = loginView_hidden (page w2)
          /\ board (page w') = board (page w2)
          /\ header (page w') = Some (d_order dt)
          /\ el_line <$> orderLines (page w') ≡ₚ d_lines dt)
  /\ (ok res2 = false -> status res2 <> 401 ->
      exists e, r2 = Finished (Throw e) w2).
Proof.
  cbv zeta.
  destruct (openOrder_steps id w0) as (w0' & k & -> & Hp0 & Hk).
  cbn [requestOf worldOf resume].
  split; [reflexivity|]. split; [exact Hp0|].
  destruct (Hk res1 w1) as (w1' & -> & Hw1).
  rewrite loadOrderDetail_waiting. cbn [bindRun requestOf worldOf resume].
  split; [reflexivity|]. split; [exact Hw1|].
  rewrite loadOrderDetail_resume. split.
  - intros dt Hok Hb. rewrite (ok_not_401 _ Hok), Hok, Hb. cbn [negb].
    unfold renderOrderDetail. run_prog.
    cbn [orderDetail set_activeOrderId set_orderDetail]. run_prog.
    eexists. split; [reflexivity|].
    cbn [state page intervals withState withPage orderDetail activeOrderId
         config orders pollTimer set_activeOrderId set_orderDetail
         appView_hidden orderView_hidden completeOverlay_hidden
         loginView_hidden board header orderLines set_hidden set_orderLines
         set_header d_order d_lines].
    repeat split; try reflexivity. apply rendered_lines_perm.
  - intros Hok H401. apply Z.eqb_neq in H401. rewrite H401, Hok.
    cbn [negb bindRun]. by eexists.
Qed.

(** X23.  The login button sends the password with a plain [fetch]: an
    answer that is not ok, 401 included, or whose body is not JSON, only
    shows the login error; nothing else changes and no further request is
    sent.  After an ok answer the error is hidden and [bootApp] requests the
    configuration. *)
Theorem X23_login_click_outcome pwd w0 res w :
  let r0 := onLoginClick pwd w0 in
  let r1 := resume r0 res w in
  requestOf r0 = Some (ReqLogin pwd) /\ worldOf r0 = w0
  /\ (ok res = false \/ (exists txt, body res = BText txt) ->
      r1 = Finished (Ok tt) (withPage (set_hidden LoginError false) w))
  /\ (ok res = true -> (forall txt, body res <> BText txt) ->
      requestOf r1 = Some ReqConfig
      /\ worldOf r1 = withPage (set_hidden LoginError true) w).
Proof.
  cbv zeta. unfold onLoginClick, login, fetch. run_prog.
  cbn [requestOf worldOf resume].
  split; [reflexivity|]. split; [reflexivity|]. split.
  - intros [Hok|[txt Hb]].
    + rewrite Hok. cbn [negb]. run_prog. reflexivity.
    + destruct (negb (ok res)); run_prog; [reflexivity|].
      rewrite Hb. run_prog. reflexivity.
  - intros Hok Hb. rewrite Hok. cbn [negb]. run_prog.
    destruct (body res) eqn:E; try (by destruct (Hb txt)); run_prog;
      unfold bootApp, loadConfig, apiFetch, fetch; run_prog;
      cbn [requestOf worldOf]; split; reflexivity.
Qed.

Lemma X23_login_click_outcome_witness :
  resume (onLoginClick "pw" world0) (mkResponse 401 (BText "no")) world0
  = Finished (Ok tt) (withPage (set_hidden LoginError false) world0)
  /\ requestOf (resume (onLoginClick "pw" world0) (mkResponse 200 BAck) world0)
     = Some ReqConfig.
Proof.
  split.
  - apply (X23_login_click_outcome "pw" world0 (mkResponse 401 (BText "no"))
             world0).
    left. reflexivity.
  - apply (X23_login_click_outcome "pw" world0 (mkResponse 200 BAck) world0).
    + reflexivity.
    + discriminate.
Defined.

(** X24.  [bootApp] first requests the configuration.  If that answer does
    not hold a configuration, or the first list of orders cannot be loaded,
    [bootApp] ends logged out and does not throw.  The configuration of any
    answer other than 401 is accepted, whatever its status; then the board
    view replaces the login view and the orders are requested.  Once they
    have arrived they are in the Board Cache, one poll timer runs, and the
    background sync is requested; if the sync fails, nothing more happens. *)
Theorem X24_bootApp_outcome w0 res1 w1 res2 w2 res3 w3 :
  let r0 := bootApp w0 in
  let r1 := resume r0 res1 w1 in
  let r2 := resume r1 res2 w2 in
  let r3 := resume r2 res3 w3 in
  requestOf r0 = Some ReqConfig /\ worldOf r0 = w0
  /\ (status res1 <> 401 -> (forall c, body res1 <> BConfig c) ->
      r1 = Finished (Ok tt) (worldOf (logout w1)))
  /\ (forall c,
        status res1 <> 401 -> body res1 = BConfig c ->
        requestOf r1 = Some ReqOrders
        /\ config (state (worldOf r1)) = Some c
        /\ appView_hidden (page (worldOf r1)) = false
        /\ loginView_hidden (page (worldOf r1)) = true
        /\ (ok res2 = false -> status res2 <> 401 ->
            r2 = Finished (Ok tt) (worldOf (logout w2)))
        /\ (forall l,
              ok res2 = true -> body res2 = BOrders l ->
              Forall (fun wr => w_order wr <> None) l -> timerInv w2 ->
              requestOf r2 = Some ReqSyncNow
              /\ orders (state (worldOf r2)) = l
              /\ intervals (worldOf r2) = [nextTimer w2]
              /\ pollTimer (state (worldOf r2)) = Some (nextTimer w2)
              /\ (ok res3 = false -> status res3 <> 401 ->
                  r3 = Finished (Ok tt) w3)
              /\ (ok res3 = true -> (forall txt, body res3 <> BText txt) ->
                  requestOf r3 = Some ReqOrders /\ worldOf r3 = w3))).
Proof.
  cbv zeta. unfold bootApp, loadConfig, apiFetch, fetch. run_prog.
  cbn [requestOf worldOf resume].
  split; [reflexivity|]. split; [reflexivity|]. split.
  - intros H401 Hb. apply Z.eqb_neq in H401. rewrite H401. run_prog.
    destruct (logout_world w1) as (wl & Hl & _).
    destruct (body res1) eqn:E; try (by destruct (Hb c)); run_prog;
      rewrite Hl; cbn [bindRun worldOf]; reflexivity.
  - intros c H401 Hb. apply Z.eqb_neq in H401. rewrite H401. run_prog.
    rewrite Hb. run_prog. unfold loadOrders, apiFetch, fetch. run_prog.
    cbn [requestOf worldOf resume].
    split; [reflexivity|]. split; [reflexivity|]. split; [reflexivity|].
    split; [reflexivity|]. split.
    + intros Hok H2. apply Z.eqb_neq in H2. rewrite H2. run_prog.
      rewrite Hok. cbn [negb]. run_prog.
      destruct (logout_world w2) as (wl & Hl & _).
      rewrite Hl. cbn [bindRun worldOf]. reflexivity.
    + intros l Hok Hb2 Hg Ht. rewrite (ok_not_401 _ Hok). run_prog.
      rewrite Hok. cbn [negb]. run_prog. rewrite Hb2. run_prog.
      cbn [orders set_orders]. rewrite (boardCards_good l Hg). run_prog.
      match goal with
      | |- context [startPolling ?w] =>
          destruct (startPolling_world w Ht) as (ws & Hs & Hi & Hp & _);
          rewrite Hs
      end.
      run_prog. unfold syncNow, apiFetch, fetch. run_prog.
      cbn [requestOf worldOf resume].
      split; [reflexivity|].
      split.
      { apply (f_equal worldOf) in Hs. cbn [worldOf] in Hs. rewrite <- Hs.
        unfold startPolling, stopPolling. run_prog.
        cbn [pollTimer set_orders].
        destruct (pollTimer (state w2)); run_prog; reflexivity. }
      split; [exact Hi|]. split; [exact Hp|]. split.
      * intros Hok3 H3. apply Z.eqb_neq in H3. rewrite H3. run_prog.
        rewrite Hok3. cbn [negb]. run_prog. reflexivity.
      * intros Hok3 Hb3. rewrite (ok_not_401 _ Hok3). run_prog.
        rewrite Hok3. cbn [negb]. run_prog.
        destruct (body res3) eqn:E; try (by destruct (Hb3 txt)); run_prog;
          unfold loadOrders, apiFetch, fetch; run_prog;
          cbn [requestOf worldOf]; split; reflexivity.
Qed.

(** X14.  [completeOrder] at its edges.  With no order open it returns at
    once, sending nothing.  With an order open it requests the completion of
    that order.  If the order view has been closed by the time an ok answer
    arrives, or if the answer holds no order, nothing changes: neither
    Order Detail nor the Board Cache nor the page. *)
Theorem X14_completeOrder_edges w0 res w :
  (orderDetail (state w0) = None -> completeOrder w0 = Finished (Ok tt) w0)
  /\ (forall dt0,
        orderDetail (state w0) = Some dt0 ->
        requestOf (completeOrder w0)
        = Some (ReqComplete (order_id (d_order dt0)))
        /\ worldOf (completeOrder w0) = w0
        /\ (ok res = true ->
            body res = BOrder None
            \/ (exists o, body res = BOrder (Some o))
               /\ orderDetail (state w) = None ->
            resume (completeOrder w0) res w = Finished (Ok tt) w)).
Proof.
  split.
  - intros Hd. unfold completeOrder. run_prog. by rewrite Hd.
  - intros dt0 Hd. unfold completeOrder. run_prog. rewrite Hd.
    unfold apiFetch, fetch. run_prog. cbn [requestOf worldOf resume].
    split; [reflexivity|]. split; [reflexivity|].
    intros Hok H. rewrite (ok_not_401 _ Hok). run_prog.
    rewrite Hok. cbn [negb]. run_prog.
    destruct H as [Hb|[[o Hb] Hn]]; rewrite Hb; run_prog; [reflexivity|].
    rewrite Hn. run_prog. reflexivity.
Qed.

(** X10.  An ok answer to [loadOrders] replaces the Board Cache by the list
    of the answer and renders the board from it: one card for every entry,
    column by column.  Nothing else of the store and nothing else of the
    page changes.  When an entry of the list has no [order], the Board Cache
    has been replaced all the same by the time rendering throws.  A poll
    tick that fires with no order open does the same and swallows the
    error. *)
Theorem X10_loadOrders_outcome w0 res w l :
  ok res = true -> body res = BOrders l ->
  (Forall (fun wr => w_order wr <> None) l ->
   exists w',
     resume (loadOrders w0) res w = Finished (Ok tt) w'
     /\ state w' = set_orders l (state w)
     /\ page w'
        = set_board (omap (cardIn NotStarted) l ++ omap (cardIn Picking) l
                       ++ omap (cardIn Picked) l) (page w)
     /\ card_order <$> board (page w') ≡ₚ omap w_order l
     /\ intervals w' = intervals w
     /\ (noActiveOrder (state w0) = true ->
         requestOf (pollTick w0) = Some ReqOrders
         /\ resume (pollTick w0) res w = Finished (Ok tt) w'))
  /\ (forall i wr,
        l !! i = Some wr -> w_order wr = None ->
        Forall (fun wr => w_order wr <> None) (take i l) ->
        exists w',
          resume (loadOrders w0) res w = Finished (Throw TypeError) w'
          /\ state w' = set_orders l (state w)
          /\ (noActiveOrder (state w0) = true ->
              resume (pollTick w0) res w = Finished (Ok tt) w')).
Proof.
  intros Hok Hb. split.
  - intros Hg. unfold pollTick, loadOrders, apiFetch, fetch. run_prog.
    cbn [resume requestOf]. rewrite (ok_not_401 _ Hok). run_prog.
    rewrite Hok. cbn [negb]. run_prog. rewrite Hb. run_prog.
    cbn [orders set_orders]. rewrite (boardCards_good l Hg). run_prog.
    rewrite !inColumn_cards.
    eexists. split; [reflexivity|]. split; [reflexivity|].
    split; [reflexivity|]. split.
    { cbn [page withPage board set_board]. apply cardIn_orders. }
    split; [reflexivity|]. intros ->. run_prog. cbn [requestOf resume].
    rewrite (ok_not_401 _ Hok). run_prog. rewrite Hok. cbn [negb]. run_prog.
    rewrite Hb. run_prog. cbn [orders set_orders].
    rewrite (boardCards_good l Hg). run_prog. rewrite !inColumn_cards.
    split; reflexivity.
  - intros i wr Hi Hn Hg. unfold pollTick, loadOrders, apiFetch, fetch.
    run_prog. cbn [resume]. rewrite (ok_not_401 _ Hok). run_prog.
    rewrite Hok. cbn [negb]. run_prog. rewrite Hb. run_prog.
    cbn [orders set_orders]. rewrite (boardCards_bad l i wr Hi Hn Hg).
    run_prog. eexists. split; [reflexivity|]. split; [reflexivity|].
    intros ->. run_prog. cbn [resume].
    rewrite (ok_not_401 _ Hok). run_prog. rewrite Hok. cbn [negb]. run_prog.
    rewrite Hb. run_prog. cbn [orders set_orders].
    rewrite (boardCards_bad l i wr Hi Hn Hg). run_prog. reflexivity.
Qed.

Lemma X17_openOrder_outcome_witness :
  (exists w',
      resume (resume (openOrder (IdNum 7) sampleWorld)
                (mkResponse 200 (BOrder None)) sampleWorld)
        (mkResponse 200 (BDetail (mkDetail (sampleOrder 8) []))) sampleWorld
      = Finished (Ok tt) w'
      /\ activeOrderId (state w') = Some (IdNum 7))
  /\ exists e,
       resume (resume (openOrder (IdNum 7) sampleWorld)
                 (mkResponse 500 (BText "no")) sampleWorld)
         (mkResponse 404 (BText "gone")) sampleWorld
       = Finished (Throw e) sampleWorld.
Proof.
  split.
  - destruct (proj1 (proj2 (proj2 (proj2 (proj2
                (X17_openOrder_outcome (IdNum 7) sampleWorld
                   (mkResponse 200 (BOrder None)) sampleWorld
                   (mkResponse 200 (BDetail (mkDetail (sampleOrder 8) [])))
                   sampleWorld)))))
              (mkDetail (sampleOrder 8) []) eq_refl eq_refl)
      as (w' & H1 & _ & H2 & _).
    by exists w'.
  - apply (proj2 (proj2 (proj2 (proj2 (proj2
             (X17_openOrder_outcome (IdNum 7) sampleWorld
                (mkResponse 500 (BText "no")) sampleWorld
                (mkResponse 404 (BText "gone")) sampleWorld)))))).
    + reflexivity.
    + discriminate.
Defined.

Lemma X24_bootApp_outcome_witness :
  requestOf
    (resume (resume (bootApp world0) (mkResponse 200 (BConfig [])) world0)
       (mkResponse 200 (BOrders [mkWrapper (Some (sampleOrder 8)) []]))
       world0)
  = Some ReqSyncNow.
Proof.
  destruct (X24_bootApp_outcome world0 (mkResponse 200 (BConfig [])) world0
              (mkResponse 200 (BOrders [mkWrapper (Some (sampleOrder 8)) []]))
              world0 (mkResponse 500 (BText "busy")) world0)
    as (_ & _ & _ & H).
  destruct (H [] ltac:(discriminate) eq_refl) as (_ & _ & _ & _ & _ & H2).
  destruct (H2 [mkWrapper (Some (sampleOrder 8)) []] eq_refl eq_refl
              ltac:(repeat constructor; discriminate) eq_refl)
    as (H3 & _).
  exact H3.
Defined.

Lemma X14_completeOrder_edges_witness :
  completeOrder world0 = Finished (Ok tt) world0
  /\ resume (completeOrder sampleWorld) (mkResponse 200 (BOrder None))
       sampleWorld
     = Finished (Ok tt) sampleWorld.
Proof.
  split.
  - apply (proj1 (X14_completeOrder_edges world0 (mkResponse 200 (BOrder None))
                    world0)). reflexivity.
  - apply (proj2 (X14_completeOrder_edges sampleWorld
                    (mkResponse 200 (BOrder None)) sampleWorld)
             (mkDetail (sampleOrder 8) [sampleLine 1 5 1; sampleLine 2 3 2])
             eq_refl).
    + reflexivity.
    + left. reflexivity.
Defined.

Lemma X10_loadOrders_outcome_witness :
  exists w',
    resume (loadOrders world0)
      (mkResponse 200 (BOrders [mkWrapper (Some (sampleOrder 8)) []])) world0
    = Finished (Ok tt) w'
    /\ orders (state w') = [mkWrapper (Some (sampleOrder 8)) []].
Proof.
  destruct (proj1 (X10_loadOrders_outcome world0
              (mkResponse 200 (BOrders [mkWrapper (Some (sampleOrder 8)) []]))
              world0 [mkWrapper (Some (sampleOrder 8)) []] eq_refl eq_refl)
              ltac:(repeat constructor; discriminate))
    as (w' & H1 & H2 & _).
  exists w'. split; [exact H1|]. by rewrite H2.
Defined.

End FlowExtras.

(* ===================================================================== *)
(** * The buttons of a line and the completion of an order *)
(* ===================================================================== *)

Section ButtonFacts.

Import Num.




End ButtonFacts.

Section ButtonExtras.

Import Num.



(** X13.  Completing an order closes its view.  When the answer to a patch
    says that the order has just been completed, the overlay is shown and
    one more timeout is registered; otherwise neither happens.  When the
    timeout fires, the order view is closed whatever it shows: no order is
    open or active, the board view is visible, the overlay is hidden, one
    poll timer runs, and the orders are requested. *)
Theorem X13_completion_closes_view oid lid qty w0 res w data :
  ok res = true -> body res = BPatch data ->
  (exists w',
      resume (patchLine oid lid qty w0) res w = Finished (Ok data) w'
      /\ timeouts w'
         = (if pd_order_completed_now data then S (timeouts w) else timeouts w)
      /\ completeOverlay_hidden (page w')
         = (if pd_order_completed_now data then false
            else completeOverlay_hidden (page w)))
  /\ (timerInv w ->
      let r := autoClose w in
      requestOf r = Some ReqOrders
      /\ orderDetail (state (worldOf r)) = None
      /\ activeOrderId (state (worldOf r)) = None
      /\ orderView_hidden (page (worldOf r)) = true
      /\ appView_hidden (page (worldOf r)) = false
      /\ completeOverlay_hidden (page (worldOf r)) = true
      /\ intervals (worldOf r) = [nextTimer w]).
Proof.
  intros Hok Hb. split.
  - unfold patchLine.
    rewrite resume_bind, apiFetch_resume, (ok_not_401 _ Hok) by done.
    cbn [bindRun]. rewrite Hok. cbn [negb].
    unfold_prog. rewrite Hb. run_prog.
    destruct (findIndex _ (board _)); destruct (pd_order_completed_now data);
      run_prog; eexists; (split; [reflexivity|split; reflexivity]).
  - intros Ht. cbv zeta. unfold autoClose, closeOrderView.
    unfold ignoreErrors, tryCatch, hideComplete.
    unfold mbind, P_bind, modifyState, hide, show, modifyPage.
    cbn [bindRun].
    match goal with
    | |- context [startPolling ?w1] =>
        assert (Ht1 : timerInv w1) by exact Ht;
        destruct (startPolling_world w1 Ht1) as (ws & Hs & Hi & Hp & Ha);
        pose proof (f_equal worldOf Hs) as Hws; cbn [worldOf] in Hws;
        rewrite Hs
    end.
    cbn [bindRun]. unfold loadOrders, apiFetch, fetch.
    unfold mbind, P_bind. cbn [bindRun catchRun requestOf worldOf].
    split; [reflexivity|].
    assert (Hst : orderDetail (state ws) = None
                  /\ page ws = page (withPage (set_hidden CompleteOverlay true)
                                 (withPage (set_hidden AppView false)
                                    (withPage (set_hidden OrderView true) w)))).
    { rewrite <- Hws. unfold startPolling, stopPolling. run_prog.
      cbn [pollTimer set_orderDetail set_activeOrderId].
      destruct (pollTimer (state w)); run_prog; split; reflexivity. }
    destruct Hst as [Hd Hpg]. rewrite Hpg.
    split; [exact Hd|]. split; [exact Ha|].
    repeat split; try reflexivity. exact Hi.
Qed.

Lemma X13_completion_closes_view_witness :
  (exists w',
      resume (patchLine (Some (IdNum 7)) (IdNum 2) (ofZ 5) sampleWorld)
        (mkResponse 200 (BPatch samplePatch)) sampleWorld
      = Finished (Ok samplePatch) w'
      /\ timeouts w' = 1%nat)
  /\ requestOf (autoClose sampleWorld) = Some ReqOrders.
Proof.
  destruct (X13_completion_closes_view (Some (IdNum 7)) (IdNum 2) (ofZ 5)
              sampleWorld (mkResponse 200 (BPatch samplePatch)) sampleWorld
              samplePatch eq_refl eq_refl)
    as [(w' & H1 & H2 & _) H3].
  split.
  - exists w'. split; [exact H1|exact H2].
  - apply H3. reflexivity.
Defined.

End ButtonExtras.
